(** * Story-telling app: the response parser, the validators, the rate
    limiter and the provider factories, embedded and verified.

    The TypeScript sources are [src/lib/utils.ts] (image prompts, JSON
    fallbacks, story parsing), [src/lib/errors.ts] (its second part, the
    module imported as [@/lib/validation]: sanitizer, validator, rate
    limiter), the constants module imported as [./constants], the types
    module imported as [@/types], [src/lib/image-factory.ts],
    [src/lib/llm-factory.ts] and [src/app/api/story/continue/route.ts].

    A JavaScript string is the list of its UTF-16 code units.  Exceptions
    are explicit: a computation that may throw returns a [result].  The
    built-ins that the sources call ([JSON.parse], [JSON.stringify],
    [String.prototype.trim], [split], [replace], the regular expressions,
    [parseInt], [Buffer] encodings) are written out after ECMAScript.  A
    Number is an IEEE 754 binary64 value, with the arithmetic of the
    Standard Library's [SpecFloat]. *)

From Stdlib Require Import NArith ZArith QArith Qround Qabs List Ascii String Bool Lia DecimalString
  SpecFloat.
From stdpp Require Import base option list gmap.
Import ListNotations.

Close Scope Q_scope.
Local Open Scope nat_scope.
Set Warnings "-register-all".

(* ================================================================== *)
(** ** JavaScript strings *)
(* ================================================================== *)

Module JS.

(** A string is a sequence of UTF-16 code units. *)
Definition jstring : Type := list N.

Definition cu (a : ascii) : N := N_of_ascii a.

(** An ASCII literal as a JavaScript string. *)
Definition js (s : string) : jstring := List.map cu (list_ascii_of_string s).
Arguments js s%_string.

(** An ASCII literal in which an apostrophe stands for the double quote,
    for texts that carry quoted parts. *)
Definition jq (s : string) : jstring :=
  List.map (fun c => if (c =? 39)%N then 34%N else c) (js s).
Arguments jq s%_string.

Definition str_eqb (a b : jstring) : bool := bool_decide (a = b).

(** ECMAScript WhiteSpace and LineTerminator code points: the set that
    [String.prototype.trim] strips and that the regular expression class
    [\s] matches. *)
Definition is_space (c : N) : bool :=
  ((9 <=? c) && (c <=? 13) || (c =? 32) || (c =? 160) || (c =? 5760)
   || (8192 <=? c) && (c <=? 8202) || (c =? 8232) || (c =? 8233)
   || (c =? 8239) || (c =? 8287) || (c =? 12288) || (c =? 65279))%N.

Definition is_digit (c : N) : bool := ((48 <=? c) && (c <=? 57))%N.
Definition is_upper (c : N) : bool := ((65 <=? c) && (c <=? 90))%N.
Definition is_lower (c : N) : bool := ((97 <=? c) && (c <=? 122))%N.

(** The class [\w]: ASCII letters, digits and the underscore. *)
Definition is_word (c : N) : bool :=
  is_digit c || is_upper c || is_lower c || (c =? 95)%N.

Fixpoint trim_start (s : jstring) : jstring :=
  match s with
  | c :: s' => if is_space c then trim_start s' else s
  | [] => []
  end.

Definition trim_end (s : jstring) : jstring := rev (trim_start (rev s)).

(** [String.prototype.trim]. *)
Definition trim (s : jstring) : jstring := trim_end (trim_start s).

(** [s.substring(0, n)] for a natural [n]. *)
Definition substring0 (n : nat) (s : jstring) : jstring := firstn n s.

(** Lower-casing of one code unit, on ASCII.  [String.prototype.toLowerCase]
    also maps letters outside ASCII; the only such mappings that produce
    an ASCII letter are U+212A to k and U+0130 to i, and neither letter
    occurs in a marker that the parser looks for, so the outcome of the
    marker tests below is that of the full Unicode mapping. *)
Definition lower_cu (c : N) : N := if is_upper c then (c + 32)%N else c.

Definition toLowerCase (s : jstring) : jstring := List.map lower_cu s.

Fixpoint starts_with (p s : jstring) : bool :=
  match p, s with
  | [], _ => true
  | a :: p', b :: s' => (a =? b)%N && starts_with p' s'
  | _ :: _, [] => false
  end.

(** [s.includes(p)]. *)
Fixpoint includes (p s : jstring) : bool :=
  starts_with p s ||
  match s with
  | [] => false
  | _ :: s' => includes p s'
  end.

(** [s.split(sep)] for a one-code-unit separator: always at least one
    piece, the empty string splits into one empty piece. *)
Fixpoint split_on (sep : N) (s : jstring) : list jstring :=
  match s with
  | [] => [[]]
  | c :: s' =>
      if (c =? sep)%N then [] :: split_on sep s'
      else match split_on sep s' with
           | piece :: rest => (c :: piece) :: rest
           | [] => [[c]]
           end
  end.

(** First position of [p] in [s]: the text before it and the text after. *)
Fixpoint find_sub (p s : jstring) : option (jstring * jstring) :=
  if starts_with p s then Some ([], skipn (length p) s)
  else match s with
       | [] => None
       | c :: s' =>
           match find_sub p s' with
           | Some (before, after) => Some (c :: before, after)
           | None => None
           end
       end.

(** GetSubstitution for a string pattern (no capture groups): [$$] is a
    dollar, [$&] the matched text, [$`] the text before the match, [$']
    the text after it; any other dollar stays. *)
Fixpoint get_substitution (matched before after repl : jstring) : jstring :=
  match repl with
  | [] => []
  | c :: r =>
      if (c =? 36)%N then
        match r with
        | d :: r' =>
            if (d =? 36)%N then 36%N :: get_substitution matched before after r'
            else if (d =? 38)%N then matched ++ get_substitution matched before after r'
            else if (d =? 96)%N then before ++ get_substitution matched before after r'
            else if (d =? 39)%N then after ++ get_substitution matched before after r'
            else c :: get_substitution matched before after r
        | [] => [c]
        end
      else c :: get_substitution matched before after r
  end.

(** [s.replace(pattern, repl)] with a string pattern: the first occurrence
    only. *)
Definition replace_str (pattern repl s : jstring) : jstring :=
  match find_sub pattern s with
  | Some (before, after) =>
      before ++ get_substitution pattern before after repl ++ after
  | None => s
  end.

(** [a.indexOf(x)] on an array of strings. *)
Fixpoint index_of (x : jstring) (a : list jstring) : option nat :=
  match a with
  | [] => None
  | y :: a' => if str_eqb y x then Some 0 else option_map S (index_of x a')
  end.

End JS.
Export JS.

(* ================================================================== *)
(** ** Numbers *)
(* ================================================================== *)

Module Number.

(** A Number: an IEEE 754 binary64 value. *)
Definition double : Type := spec_float.

Definition prec : Z := 53.
Definition emax : Z := 1024.

(** The Number value of the integer [z]. *)
Definition of_Z (z : Z) : double := binary_normalize prec emax z 0 false.

(** The Number value of [m * 10 ^ e] for a natural [m]: the nearest
    double, ties to even, by one rounding of the exact product or of the
    exact quotient. *)
Definition of_decimal (negative : bool) (m : N) (e : Z) : double :=
  match m with
  | N0 => S754_zero negative
  | Npos p =>
      match e with
      | Zneg k => SFdiv prec emax (S754_finite negative p 0) (S754_finite false (10 ^ k) 0)
      | _ => binary_normalize prec emax (Z.pos p * 10 ^ e) 0 negative
      end
  end.

Fixpoint digits_value (acc : N) (s : jstring) : N :=
  match s with
  | c :: s' => if is_digit c then digits_value (acc * 10 + (c - 48)) s' else acc
  | [] => acc
  end.

Fixpoint take_digits (s : jstring) : jstring * jstring :=
  match s with
  | c :: s' => if is_digit c then let '(d, rest) := take_digits s' in (c :: d, rest) else ([], s)
  | [] => ([], [])
  end.

(** The Number that a JSON number, written [-? int frac? exp?], denotes. *)
Definition of_lexeme (lexeme : jstring) : double :=
  let '(negative, s) :=
    match lexeme with
    | c :: s' => if (c =? 45)%N then (true, s') else (false, lexeme)
    | [] => (false, [])
    end in
  let '(int, s) := take_digits s in
  let '(frac, s) :=
    match s with
    | c :: s' => if (c =? 46)%N then take_digits s' else ([], s)
    | [] => ([], [])
    end in
  let exponent :=
    match s with
    | _ :: c :: s' =>
        if (c =? 45)%N then (- Z.of_N (digits_value 0 s'))%Z
        else if (c =? 43)%N then Z.of_N (digits_value 0 s')
        else Z.of_N (digits_value 0 (c :: s'))
    | _ => 0%Z
    end in
  of_decimal negative (digits_value 0 (int ++ frac)) (exponent - Z.of_nat (length frac)).

Definition is_zero (x : double) : bool :=
  match x with S754_zero _ => true | _ => false end.

(** ToBoolean of a Number. *)
Definition truthy (x : double) : bool :=
  match x with
  | S754_zero _ | S754_nan => false
  | _ => true
  end.

Definition same (x y : double) : bool :=
  match SFcompare x y with Some Eq => true | _ => false end.

Definition digits_of (z : Z) : jstring := js (NilZero.string_of_int (Z.to_int z)).

(** [10 ^ (n - 1) <= q < 10 ^ n] for a positive rational [q]. *)
Definition magnitude (q : Q) : Z :=
  let l := (Z.log2 (Qnum q) - Z.log2 (Z.pos (Qden q)))%Z in
  let n0 := (l * 30103 / 100000 - 2)%Z in
  let up n := if Qle_bool (Qpower 10 n) q then (n + 1)%Z else n in
  up (up (up (up (up n0)))).

Definition Qabs_diff (a b : Q) : Q := Qabs (a - b).

(** The shortest decimal digits [s], with the exponent [n], such that
    [s * 10 ^ (n - k)] reads back as the double, [k] being the number of
    digits of [s]; of two such [s] the one nearer to the double. *)
Fixpoint shortest (fuel : nat) (k : Z) (m : positive) (e : Z) (q : Q) (n : Z) : Z * Z :=
  let lo := Qfloor (q / Qpower 10 (n - k)) in
  let hi := (lo + 1)%Z in
  let reads s := same (of_decimal false (Z.to_N s) (n - k)) (S754_finite false m e) in
  let nearer :=
    match Qcompare (Qabs_diff (inject_Z lo * Qpower 10 (n - k)) q)
                   (Qabs_diff (inject_Z hi * Qpower 10 (n - k)) q) with
    | Gt => hi
    | Eq => if Z.even lo then lo else hi
    | Lt => lo
    end in
  match fuel with
  | O => (lo, k)
  | S fuel' =>
      match reads lo, reads hi with
      | true, true => (nearer, k)
      | true, false => (lo, k)
      | false, true => (hi, k)
      | false, false => shortest fuel' (k + 1) m e q n
      end
  end.

Fixpoint strip_zeros (fuel : nat) (s : Z) (k : Z) : Z * Z :=
  match fuel with
  | O => (s, k)
  | S fuel' => if ((s mod 10 =? 0) && (1 <? k))%Z then strip_zeros fuel' (s / 10) (k - 1) else (s, k)
  end.

Definition zeros (n : Z) : jstring := repeat 48%N (Z.to_nat n).

(** Number::toString of a positive finite double [m * 2 ^ e]. *)
Definition positive_to_string (m : positive) (e : Z) : jstring :=
  let q := (inject_Z (Z.pos m) * Qpower 2 e)%Q in
  let n := magnitude q in
  let '(s, k) := shortest 17 1 m e q n in
  let n := if (s =? 10 ^ k)%Z then (n + 1)%Z else n in
  let '(s, k) := strip_zeros 17 s (if (s =? 10 ^ k)%Z then k + 1 else k)%Z in
  let digits := digits_of s in
  if ((k <=? n) && (n <=? 21))%Z then digits ++ zeros (n - k)
  else if ((0 <? n) && (n <=? 21))%Z then
    firstn (Z.to_nat n) digits ++ js "." ++ skipn (Z.to_nat n) digits
  else if ((-6 <? n) && (n <=? 0))%Z then js "0." ++ zeros (- n) ++ digits
  else
    let exponent :=
      (if (0 <=? n - 1)%Z then js "+" else js "-") ++ digits_of (Z.abs (n - 1)) in
    if (k =? 1)%Z then digits ++ js "e" ++ exponent
    else firstn 1 digits ++ js "." ++ skipn 1 digits ++ js "e" ++ exponent.

(** Number::toString, radix 10. *)
Definition to_string (x : double) : jstring :=
  match x with
  | S754_nan => js "NaN"
  | S754_zero _ => js "0"
  | S754_infinity false => js "Infinity"
  | S754_infinity true => js "-Infinity"
  | S754_finite false m e => positive_to_string m e
  | S754_finite true m e => js "-" ++ positive_to_string m e
  end.

(** [x * y], rounded to the nearest double. *)
Definition mul (x y : double) : double := SFmul prec emax x y.

(** [array[Math.floor(x)]] reads the element whose index is the floor of
    [x], when that floor is a natural number: both zeros name the index
    0; a negative number, an infinity and NaN name no index. *)
Definition floor_index (x : double) : option nat :=
  match x with
  | S754_zero _ => Some 0
  | S754_finite false m e => Some (Z.to_nat (Z.shiftl (Z.pos m) e))
  | _ => None
  end.

(** The values that [Math.random()] returns: the doubles from 0 up to
    but not including 1. *)
Definition unit_draw (r : double) : bool :=
  valid_binary prec emax r && SFleb (S754_zero false) r && SFltb r (SFone prec emax).

End Number.

(* ================================================================== *)
(** ** Exceptions *)
(* ================================================================== *)

Inductive exn : Type :=
| SyntaxError
| TypeError
| Error (message : jstring).

Inductive result (A : Type) : Type :=
| Ok (a : A)
| Throw (e : exn).
Arguments Ok {A} a.
Arguments Throw {A} e.

Definition rbind {A B} (m : result A) (k : A -> result B) : result B :=
  match m with
  | Ok a => k a
  | Throw e => Throw e
  end.

(** [try { body } catch { handler }]. *)
Definition try_catch {A} (body : result A) (handler : exn -> result A) : result A :=
  match body with
  | Ok a => Ok a
  | Throw e => handler e
  end.

Notation "x <-r m ; k" := (rbind m (fun x => k))
  (at level 100, m at next level, right associativity).

(* ================================================================== *)
(** ** Regular expressions *)
(* ================================================================== *)

Module Regex.

(** The expressions of the sources are sequences of single-character
    classes, each taken once or under a greedy star, with an optional
    anchor at either end.  [x+] is [x] followed by [x*]. *)
Inductive item : Type :=
| One (cls : N -> bool)
| Star (cls : N -> bool)
| Eos.

Record regex : Type := { anchored : bool; items : list item }.

Definition chr (a : ascii) : N -> bool := fun c => (c =? cu a)%N.
Definition not_chr (a : ascii) : N -> bool := fun c => negb (c =? cu a)%N.
Definition any_cu : N -> bool := fun _ => true.

(** A letter under the [i] flag (no [u] flag): canonicalisation never
    maps a code unit outside ASCII onto an ASCII one, so the letter
    matches its two ASCII cases only. *)
Definition chr_i (a : ascii) : N -> bool :=
  fun c => (lower_cu c =? lower_cu (cu a))%N.

Definition lit (s : string) : list item :=
  List.map (fun a => One (chr a)) (list_ascii_of_string s).
Definition lit_i (s : string) : list item :=
  List.map (fun a => One (chr_i a)) (list_ascii_of_string s).
Arguments lit s%_string.
Arguments lit_i s%_string.

Definition plus (cls : N -> bool) : list item := [One cls; Star cls].

(** Backtracking match of the items at the head of [s]; the answer is the
    text left after the match.  A star tries the longest run first. *)
Fixpoint rmatch (r : list item) (s : jstring) {struct r} : option jstring :=
  match r with
  | [] => Some s
  | One cls :: r' =>
      match s with
      | c :: s' => if cls c then rmatch r' s' else None
      | [] => None
      end
  | Star cls :: r' =>
      (fix star (s : jstring) : option jstring :=
         match s with
         | c :: s' =>
             if cls c then
               match star s' with
               | Some rest => Some rest
               | None => rmatch r' s
               end
             else rmatch r' s
         | [] => rmatch r' []
         end) s
  | Eos :: r' =>
      match s with
      | [] => rmatch r' []
      | _ :: _ => None
      end
  end.

(** Leftmost match from the current position on. *)
Fixpoint search (r : list item) (s : jstring) : option (jstring * jstring * jstring) :=
  match rmatch r s with
  | Some rest => Some ([], firstn (length s - length rest) s, rest)
  | None =>
      match s with
      | [] => None
      | c :: s' =>
          match search r s' with
          | Some (before, m, after) => Some (c :: before, m, after)
          | None => None
          end
      end
  end.

(** [re.exec(s)]: the text before the match, the match, the text after. *)
Definition exec (re : regex) (s : jstring) : option (jstring * jstring * jstring) :=
  if anchored re then
    match rmatch (items re) s with
    | Some rest => Some ([], firstn (length s - length rest) s, rest)
    | None => None
    end
  else search (items re) s.

(** [re.test(s)]. *)
Definition test (re : regex) (s : jstring) : bool :=
  match exec re s with Some _ => true | None => false end.

(** [s.match(re)] without the [g] flag: the matched text. *)
Definition match_ (re : regex) (s : jstring) : option jstring :=
  match exec re s with Some (_, m, _) => Some m | None => None end.

(** [s.replace(re, repl)] without the [g] flag; the replacement texts of
    the sources contain no dollar sign. *)
Definition replace (re : regex) (repl s : jstring) : jstring :=
  match exec re s with
  | Some (before, _, after) => before ++ repl ++ after
  | None => s
  end.

(** [s.replace(re, repl)] with the [g] flag.  [skip] counts the code units
    of the current match that are still to be dropped; an empty match is
    replaced and the scan moves on by one code unit. *)
Fixpoint replace_g (r : list item) (repl : jstring) (skip : nat) (s : jstring) : jstring :=
  match skip with
  | S k =>
      match s with
      | [] => []
      | _ :: s' => replace_g r repl k s'
      end
  | O =>
      match rmatch r s with
      | Some rest =>
          match length s - length rest, s with
          | S k, _ :: s' => repl ++ replace_g r repl k s'
          | _, c :: s' => repl ++ c :: replace_g r repl 0 s'
          | _, [] => repl
          end
      | None =>
          match s with
          | [] => []
          | c :: s' => c :: replace_g r repl 0 s'
          end
      end
  end.

Definition replace_all (re : regex) (repl s : jstring) : jstring :=
  replace_g (items re) repl 0 s.

End Regex.

(* ================================================================== *)
(** ** JSON values, [JSON.parse] and [JSON.stringify] *)
(* ================================================================== *)

Module JSON.

(** A parsed value.  A number keeps the text it was written with; its
    value is the double that [Number.of_lexeme] reads from that text.
    An object lists its own properties in creation order. *)
Inductive json : Type :=
| JNull
| JBool (b : bool)
| JNumber (lexeme : jstring)
| JString (s : jstring)
| JArray (elems : list json)
| JObject (fields : list (jstring * json)).

(** The four JSON white-space characters. *)
Definition json_ws (c : N) : bool :=
  ((c =? 9) || (c =? 10) || (c =? 13) || (c =? 32))%N.

Fixpoint skip_ws (s : jstring) : jstring :=
  match s with
  | c :: s' => if json_ws c then skip_ws s' else s
  | [] => []
  end.

Definition hex_val (c : N) : option N :=
  if is_digit c then Some (c - 48)%N
  else if ((97 <=? c) && (c <=? 102))%N then Some (c - 87)%N
  else if ((65 <=? c) && (c <=? 70))%N then Some (c - 55)%N
  else None.

Definition hex4 (a b c d : N) : option N :=
  match hex_val a, hex_val b, hex_val c, hex_val d with
  | Some x, Some y, Some z, Some w => Some (x * 4096 + y * 256 + z * 16 + w)%N
  | _, _, _, _ => None
  end.

(** The single-character escapes of a JSON string. *)
Definition unescape (c : N) : option N :=
  if (c =? 34)%N then Some 34%N
  else if (c =? 92)%N then Some 92%N
  else if (c =? 47)%N then Some 47%N
  else if (c =? 98)%N then Some 8%N
  else if (c =? 102)%N then Some 12%N
  else if (c =? 110)%N then Some 10%N
  else if (c =? 114)%N then Some 13%N
  else if (c =? 116)%N then Some 9%N
  else None.

(** The characters of a string literal after its opening quote, up to and
    including the closing quote. *)
Fixpoint parse_chars (s : jstring) : option (jstring * jstring) :=
  match s with
  | [] => None
  | c :: s' =>
      if (c =? 34)%N then Some ([], s')
      else if (c =? 92)%N then
        match s' with
        | [] => None
        | e :: s'' =>
            if (e =? 117)%N then
              match s'' with
              | h1 :: h2 :: h3 :: h4 :: s5 =>
                  match hex4 h1 h2 h3 h4, parse_chars s5 with
                  | Some u, Some (str, rest) => Some (u :: str, rest)
                  | _, _ => None
                  end
              | _ => None
              end
            else
              match unescape e, parse_chars s'' with
              | Some u, Some (str, rest) => Some (u :: str, rest)
              | _, _ => None
              end
        end
      else if (c <? 32)%N then None
      else
        match parse_chars s' with
        | Some (str, rest) => Some (c :: str, rest)
        | None => None
        end
  end.

Fixpoint span_digits (s : jstring) : jstring * jstring :=
  match s with
  | c :: s' =>
      if is_digit c then let '(ds, rest) := span_digits s' in (c :: ds, rest)
      else ([], s)
  | [] => ([], [])
  end.

(** One or more digits. *)
Definition digits1 (s : jstring) : option (jstring * jstring) :=
  match span_digits s with
  | ([], _) => None
  | (ds, rest) => Some (ds, rest)
  end.

(** [int]: a single zero, or a non-zero digit followed by digits. *)
Definition parse_int (s : jstring) : option (jstring * jstring) :=
  match s with
  | c :: s' =>
      if (c =? 48)%N then Some ([c], s')
      else if is_digit c then let '(ds, rest) := span_digits s' in Some (c :: ds, rest)
      else None
  | [] => None
  end.

Definition parse_frac (s : jstring) : option (jstring * jstring) :=
  match s with
  | c :: s' =>
      if (c =? 46)%N then
        match digits1 s' with
        | Some (ds, rest) => Some (c :: ds, rest)
        | None => None
        end
      else Some ([], s)
  | [] => Some ([], [])
  end.

Definition parse_exp (s : jstring) : option (jstring * jstring) :=
  match s with
  | c :: s' =>
      if ((c =? 101) || (c =? 69))%N then
        match s' with
        | sg :: s'' =>
            if ((sg =? 43) || (sg =? 45))%N then
              match digits1 s'' with
              | Some (ds, rest) => Some (c :: sg :: ds, rest)
              | None => None
              end
            else
              match digits1 s' with
              | Some (ds, rest) => Some (c :: ds, rest)
              | None => None
              end
        | [] => None
        end
      else Some ([], s)
  | [] => Some ([], [])
  end.

(** [number]: optional minus, int, optional fraction, optional exponent. *)
Definition parse_number (s : jstring) : option (jstring * jstring) :=
  let '(sign, s1) :=
    match s with
    | c :: s' => if (c =? 45)%N then ([c], s') else ([], s)
    | [] => ([], [])
    end in
  match parse_int s1 with
  | None => None
  | Some (i, s2) =>
      match parse_frac s2 with
      | None => None
      | Some (f, s3) =>
          match parse_exp s3 with
          | None => None
          | Some (e, s4) => Some (sign ++ i ++ f ++ e, s4)
          end
      end
  end.

(** Outcome of a parsing function that recurses on fuel. *)
Inductive presult (A : Type) : Type :=
| Parsed (a : A) (rest : jstring)
| Malformed
| OutOfFuel.
Arguments Parsed {A} a rest.
Arguments Malformed {A}.
Arguments OutOfFuel {A}.

(** Defining a property that exists already keeps its place and changes
    its value: the last duplicate of a key wins. *)
Fixpoint set_field (k : jstring) (v : json) (fields : list (jstring * json))
  : list (jstring * json) :=
  match fields with
  | [] => [(k, v)]
  | (k', v') :: fields' =>
      if str_eqb k' k then (k', v) :: fields'
      else (k', v') :: set_field k v fields'
  end.

(** The grammar of values.  [parse_elements] reads the elements of an
    array after its bracket up to the closing bracket, [parse_members]
    the members of an object after its brace up to the closing brace;
    [acc] holds what has been read so far. *)
Fixpoint parse_value (fuel : nat) (s : jstring) {struct fuel} : presult json :=
  match fuel with
  | O => OutOfFuel
  | S fuel' =>
      match skip_ws s with
      | [] => Malformed
      | c :: s' =>
          if (c =? 123)%N then
            match skip_ws s' with
            | c2 :: s2 =>
                if (c2 =? 125)%N then Parsed (JObject []) s2
                else
                  match parse_members fuel' [] s' with
                  | Parsed fields rest => Parsed (JObject fields) rest
                  | Malformed => Malformed
                  | OutOfFuel => OutOfFuel
                  end
            | [] => Malformed
            end
          else if (c =? 91)%N then
            match skip_ws s' with
            | c2 :: s2 =>
                if (c2 =? 93)%N then Parsed (JArray []) s2
                else
                  match parse_elements fuel' s' with
                  | Parsed elems rest => Parsed (JArray elems) rest
                  | Malformed => Malformed
                  | OutOfFuel => OutOfFuel
                  end
            | [] => Malformed
            end
          else if (c =? 34)%N then
            match parse_chars s' with
            | Some (str, rest) => Parsed (JString str) rest
            | None => Malformed
            end
          else if starts_with (js "true") (c :: s') then
            Parsed (JBool true) (skipn 4 (c :: s'))
          else if starts_with (js "false") (c :: s') then
            Parsed (JBool false) (skipn 5 (c :: s'))
          else if starts_with (js "null") (c :: s') then
            Parsed JNull (skipn 4 (c :: s'))
          else
            match parse_number (c :: s') with
            | Some (lexeme, rest) => Parsed (JNumber lexeme) rest
            | None => Malformed
            end
      end
  end
with parse_elements (fuel : nat) (s : jstring) {struct fuel} : presult (list json) :=
  match fuel with
  | O => OutOfFuel
  | S fuel' =>
      match parse_value fuel' s with
      | Parsed v rest =>
          match skip_ws rest with
          | c :: rest' =>
              if (c =? 44)%N then
                match parse_elements fuel' rest' with
                | Parsed vs rest'' => Parsed (v :: vs) rest''
                | Malformed => Malformed
                | OutOfFuel => OutOfFuel
                end
              else if (c =? 93)%N then Parsed [v] rest'
              else Malformed
          | [] => Malformed
          end
      | Malformed => Malformed
      | OutOfFuel => OutOfFuel
      end
  end
with parse_members (fuel : nat) (acc : list (jstring * json)) (s : jstring)
  {struct fuel} : presult (list (jstring * json)) :=
  match fuel with
  | O => OutOfFuel
  | S fuel' =>
      match skip_ws s with
      | q :: s1 =>
          if (q =? 34)%N then
            match parse_chars s1 with
            | Some (key, s2) =>
                match skip_ws s2 with
                | colon :: s3 =>
                    if (colon =? 58)%N then
                      match parse_value fuel' s3 with
                      | Parsed v rest =>
                          match skip_ws rest with
                          | c :: rest' =>
                              if (c =? 44)%N then
                                parse_members fuel' (set_field key v acc) rest'
                              else if (c =? 125)%N then
                                Parsed (set_field key v acc) rest'
                              else Malformed
                          | [] => Malformed
                          end
                      | Malformed => Malformed
                      | OutOfFuel => OutOfFuel
                      end
                    else Malformed
                | [] => Malformed
                end
            | None => Malformed
            end
          else Malformed
      | [] => Malformed
      end
  end.

(** [JSON.parse(text)]: one value, white space around it, nothing else.
    Each turn of the three functions above that does not read a code unit
    is followed by one that does, so twice the length of the text is fuel
    enough: [OutOfFuel] does not occur (see [parse_value_fuel]). *)
Definition parse (text : jstring) : result json :=
  match parse_value (S (2 * length text)) text with
  | Parsed v rest =>
      match skip_ws rest with
      | [] => Ok v
      | _ :: _ => Throw SyntaxError
      end
  | Malformed => Throw SyntaxError
  | OutOfFuel => Throw SyntaxError
  end.

Definition hex_digit (n : N) : N := if (n <? 10)%N then (48 + n)%N else (87 + n)%N.

(** The escape [\uXXXX] with lower-case digits. *)
Definition unicode_escape (c : N) : jstring :=
  [92; 117; hex_digit (c / 4096 mod 16); hex_digit (c / 256 mod 16);
   hex_digit (c / 16 mod 16); hex_digit (c mod 16)]%N.

Definition is_high_surrogate (c : N) : bool := ((55296 <=? c) && (c <=? 56319))%N.
Definition is_low_surrogate (c : N) : bool := ((56320 <=? c) && (c <=? 57343))%N.

(** One code unit of QuoteJSONString, surrogates apart. *)
Definition quote_cu (c : N) : jstring :=
  if (c =? 8)%N then js "\b"
  else if (c =? 9)%N then js "\t"
  else if (c =? 10)%N then js "\n"
  else if (c =? 12)%N then js "\f"
  else if (c =? 13)%N then js "\r"
  else if (c =? 34)%N then [92; 34]%N
  else if (c =? 92)%N then [92; 92]%N
  else if (c <? 32)%N then unicode_escape c
  else [c].

(** The body of QuoteJSONString: a surrogate pair is kept, a lone
    surrogate is escaped. *)
Fixpoint quote_chars (s : jstring) : jstring :=
  match s with
  | [] => []
  | c :: s' =>
      if is_high_surrogate c then
        match s' with
        | d :: s'' =>
            if is_low_surrogate d then c :: d :: quote_chars s''
            else unicode_escape c ++ quote_chars s'
        | [] => unicode_escape c
        end
      else if is_low_surrogate c then unicode_escape c ++ quote_chars s'
      else quote_cu c ++ quote_chars s'
  end.

Definition quote (s : jstring) : jstring := 34%N :: quote_chars s ++ [34%N].

(** [JSON.stringify(v)] without indentation. *)
Fixpoint stringify (v : json) : jstring :=
  match v with
  | JNull => js "null"
  | JBool true => js "true"
  | JBool false => js "false"
  | JNumber lexeme =>
      match Number.of_lexeme lexeme with
      | S754_finite _ _ _ | S754_zero _ => Number.to_string (Number.of_lexeme lexeme)
      | _ => js "null"
      end
  | JString s => quote s
  | JArray elems =>
      js "[" ++
      (fix commas (l : list json) : jstring :=
         match l with
         | [] => []
         | [x] => stringify x
         | x :: l' => stringify x ++ js "," ++ commas l'
         end) elems
      ++ js "]"
  | JObject fields =>
      js "{" ++
      (fix commas (l : list (jstring * json)) : jstring :=
         match l with
         | [] => []
         | [(k, x)] => quote k ++ js ":" ++ stringify x
         | (k, x) :: l' => quote k ++ js ":" ++ stringify x ++ js "," ++ commas l'
         end) fields
      ++ js "}"
  end.

(** Property access [v.name] on a parsed value; [None] is [undefined].
    Arrays, strings, numbers and booleans have none of the property names
    that the sources read, [length] apart, which has its own function. *)
Fixpoint lookup_field (name : jstring) (fields : list (jstring * json)) : option json :=
  match fields with
  | [] => None
  | (k, v) :: fields' => if str_eqb k name then Some v else lookup_field name fields'
  end.

Definition get (v : json) (name : jstring) : option json :=
  match v with
  | JObject fields => lookup_field name fields
  | _ => None
  end.

(** The Number that the lexeme denotes is zero: it is written with zero
    digits only, or it is too small for a double and rounds to zero. *)
Definition lexeme_is_zero (lexeme : jstring) : bool :=
  Number.is_zero (Number.of_lexeme lexeme).

(** ToBoolean. *)
Definition truthy (v : json) : bool :=
  match v with
  | JNull => false
  | JBool b => b
  | JNumber lexeme => Number.truthy (Number.of_lexeme lexeme)
  | JString s => match s with [] => false | _ => true end
  | JArray _ | JObject _ => true
  end.

Definition is_string (o : option json) : bool :=
  match o with Some (JString _) => true | _ => false end.

End JSON.
Export JSON.

(* ================================================================== *)
(** ** The constants module, [./constants] *)
(* ================================================================== *)

Module STORY_CONSTANTS.
Definition IMAGE_PROMPT_PREVIEW_LENGTH : nat := 50.
Definition MIN_PARAGRAPH_LENGTH : nat := 100.
Definition IMAGE_QUALITY : jstring := js "8k resolution".
Definition FALLBACK_PREFACE : jstring := js "A story unfolds".
Definition FALLBACK_PARAGRAPH : jstring := js "The story continues...".
Definition FALLBACK_IMAGE_PROMPT_SUFFIX : jstring := js "Additional scene from a {genre} story".
(** The Numbers 0.7 and 2000. *)
Definition DEFAULT_TEMPERATURE : Number.double := Number.of_lexeme (js "0.7").
Definition DEFAULT_MAX_TOKENS : Number.double := Number.of_Z 2000.
Definition MIN_CHARACTERS : Z := 1.
Definition MAX_CHARACTERS : Z := 6.
Definition MIN_PARAGRAPHS : Z := 3.
Definition MAX_PARAGRAPHS : Z := 10.
Definition MAX_CHARACTER_NAME_LENGTH : nat := 50.
End STORY_CONSTANTS.

Module ERROR_MESSAGES.
Definition INVALID_GENRE : jstring := js "Invalid genre provided".
Definition INVALID_CHARACTER_COUNT : jstring := js "Character count must be between 1 and 6".
Definition INVALID_PARAGRAPH_COUNT : jstring := js "Paragraph count must be between 3 and 10".
Definition INVALID_CHARACTER_NAMES : jstring := js "Character names must be non-empty strings".
Definition CHARACTER_NAME_TOO_LONG : jstring := js "Character names must be less than 50 characters".
End ERROR_MESSAGES.

(* ================================================================== *)
(** ** [src/lib/utils.ts] *)
(* ================================================================== *)

Module ImagePromptUtils.

Definition STYLE_MAPPINGS : list (jstring * jstring) :=
  [ (js "fantasy", js "magical, ethereal, fantasy art style, detailed");
    (js "mystery", js "noir, shadowy, mysterious atmosphere, dramatic lighting");
    (js "sci-fi", js "futuristic, cyberpunk, sci-fi concept art, neon colors");
    (js "romance", js "soft lighting, romantic, beautiful, artistic");
    (js "horror", js "dark, eerie, gothic, haunting atmosphere");
    (js "adventure", js "dynamic, action-packed, adventurous, cinematic") ].

Fixpoint style_of (genre : jstring) (table : list (jstring * jstring)) : option jstring :=
  match table with
  | [] => None
  | (g, style) :: table' => if str_eqb g genre then Some style else style_of genre table'
  end.

(** What [STYLE_MAPPINGS[genre]] finds when [genre] names no entry of the
    table but a property that the object inherits from
    [Object.prototype], as the template literal prints it: the source
    text of a built-in function, and [[object Object]] for the prototype
    itself. *)
Definition Object_prototype : list (jstring * jstring) :=
  [ (js "constructor", js "function Object() { [native code] }");
    (js "__defineGetter__", js "function __defineGetter__() { [native code] }");
    (js "__defineSetter__", js "function __defineSetter__() { [native code] }");
    (js "hasOwnProperty", js "function hasOwnProperty() { [native code] }");
    (js "__lookupGetter__", js "function __lookupGetter__() { [native code] }");
    (js "__lookupSetter__", js "function __lookupSetter__() { [native code] }");
    (js "isPrototypeOf", js "function isPrototypeOf() { [native code] }");
    (js "propertyIsEnumerable", js "function propertyIsEnumerable() { [native code] }");
    (js "toString", js "function toString() { [native code] }");
    (js "valueOf", js "function valueOf() { [native code] }");
    (js "__proto__", js "[object Object]");
    (js "toLocaleString", js "function toLocaleString() { [native code] }") ].

(** [STYLE_MAPPINGS[genre] || 'detailed, artistic'], printed: an own
    entry, else an inherited property, else the default style. *)
Definition style (genre : jstring) : jstring :=
  match style_of genre STYLE_MAPPINGS with
  | Some own => own
  | None => default (js "detailed, artistic") (style_of genre Object_prototype)
  end.

Definition enhancePrompt (originalPrompt genre : jstring) : jstring :=
  originalPrompt ++ js ", " ++ style genre ++ js ", high quality, " ++ STORY_CONSTANTS.IMAGE_QUALITY.

Definition createFallbackPrompt (text genre : jstring) : jstring :=
  let preview := substring0 STORY_CONSTANTS.IMAGE_PROMPT_PREVIEW_LENGTH text in
  let basePrompt :=
    genre ++ js " scene: " ++ preview ++
    (if STORY_CONSTANTS.IMAGE_PROMPT_PREVIEW_LENGTH <? length text then js "..." else []) in
  enhancePrompt basePrompt genre.

End ImagePromptUtils.

Module JSONUtils.
Import Regex.

(** [/\{[\s\S]*\}/] *)
Definition re_braces : regex :=
  {| anchored := false; items := lit "{" ++ [Star any_cu] ++ lit "}" |}.
(** [/^```json\s*/] *)
Definition re_fence_open : regex :=
  {| anchored := true; items := lit "```json" ++ [Star is_space] |}.
(** [/\s*```$/] *)
Definition re_fence_close : regex :=
  {| anchored := false; items := [Star is_space] ++ lit "```" ++ [Eos] |}.
(** [/^[^{]*/] *)
Definition re_before_brace : regex :=
  {| anchored := true; items := [Star (not_chr "{")] |}.
(** [/[^}]*$/] *)
Definition re_after_brace : regex :=
  {| anchored := false; items := [Star (not_chr "}"); Eos] |}.

(** A [try { return JSON.parse(text) } catch { }] block: [Some v] when the
    function returns [v] from inside the block, [None] when control goes
    on after it. *)
Definition try_parse (text : jstring) : result (option json) :=
  try_catch (v <-r parse text; Ok (Some v)) (fun _ => Ok None).

Definition cleanup (jsonString : jstring) : jstring :=
  replace re_after_brace []
    (replace re_before_brace []
       (replace re_fence_close []
          (replace re_fence_open [] (trim jsonString)))).

(** [parseWithFallback(jsonString, fallback?)]; an omitted fallback is
    [None]. *)
Definition parseWithFallback (jsonString : jstring) (fallback : option json) : result json :=
  try_catch (parse (trim jsonString)) (fun _error =>
    extracted <-r
      match match_ re_braces jsonString with
      | Some jsonMatch => try_parse jsonMatch
      | None => Ok None
      end;
    match extracted with
    | Some v => Ok v
    | None =>
        let cleanedString := cleanup jsonString in
        cleaned <-r
          match cleanedString with
          | _ :: _ => try_parse cleanedString
          | [] => Ok None
          end;
        match cleaned with
        | Some v => Ok v
        | None =>
            match fallback with
            | Some fb => if truthy fb then Ok fb else Ok JNull
            | None => Ok JNull
            end
        end
    end).

(** [typeof p.text === 'string' && typeof p.imagePrompt === 'string']:
    reading a property of [null] throws. *)
Definition paragraph_ok (p : json) : result bool :=
  match p with
  | JNull => Throw TypeError
  | _ => Ok (is_string (get p (js "text")) && is_string (get p (js "imagePrompt")))
  end.

(** [Array.prototype.every] stops at the first element that fails. *)
Fixpoint every (f : json -> result bool) (l : list json) : result bool :=
  match l with
  | [] => Ok true
  | x :: l' => b <-r f x; if b then every f l' else Ok false
  end.

(** [validateStoryStructure(data)], as the truth value of its result. *)
Definition validateStoryStructure (data : json) : result bool :=
  if negb (truthy data) then Ok false
  else
    match data with
    | JObject _ | JArray _ =>
        if negb (is_string (get data (js "preface"))) then Ok false
        else
          match get data (js "paragraphs") with
          | Some (JArray paragraphs) => every paragraph_ok paragraphs
          | _ => Ok false
          end
    | _ => Ok false
    end.

End JSONUtils.

Module StoryParsingUtils.
Import Regex.

Record request : Type := { genre : jstring; paragraphs : Z }.

Record paragraph : Type := { text : jstring; imagePrompt : jstring }.

Record story : Type := { preface : jstring; story_paragraphs : list paragraph }.

(** The object literals [{ text, imagePrompt }] and
    [{ preface, paragraphs }]. *)
Definition paragraph_to_json (p : paragraph) : json :=
  JObject [(js "text", JString (text p)); (js "imagePrompt", JString (imagePrompt p))].

Definition story_to_json (st : story) : json :=
  JObject [(js "preface", JString (preface st));
           (js "paragraphs", JArray (List.map paragraph_to_json (story_paragraphs st)))].

(** [/[.!?]$/] *)
Definition re_sentence_end : regex :=
  {| anchored := false;
     items := [One (fun c => chr "." c || chr "!" c || chr "?" c); Eos] |}.
(** [/^[^:]*:\s*/] *)
Definition re_label : regex :=
  {| anchored := true; items := [Star (not_chr ":")] ++ lit ":" ++ [Star is_space] |}.

Definition nonblank (line : jstring) : bool :=
  match trim line with [] => false | _ :: _ => true end.

Definition fallback_paragraph (req : request) : paragraph :=
  {| text := STORY_CONSTANTS.FALLBACK_PARAGRAPH;
     imagePrompt :=
       replace_str (js "{genre}") (genre req) STORY_CONSTANTS.FALLBACK_IMAGE_PROMPT_SUFFIX |}.

Definition flush (req : request) (currentParagraph : jstring) : paragraph :=
  {| text := currentParagraph;
     imagePrompt := ImagePromptUtils.createFallbackPrompt currentParagraph (genre req) |}.

(** One turn of the [for] loop of [extractParagraphs] on the pair of
    [paragraphs] and [currentParagraph]. *)
Definition extract_step (req : request) (st : list paragraph * jstring) (line : jstring)
  : list paragraph * jstring :=
  let '(paragraphs, currentParagraph) := st in
  if nonblank line then
    let currentParagraph :=
      currentParagraph ++ (match currentParagraph with [] => [] | _ => js " " end) ++ trim line in
    if test re_sentence_end line
       && (STORY_CONSTANTS.MIN_PARAGRAPH_LENGTH <? length currentParagraph)
    then (paragraphs ++ [flush req currentParagraph], [])
    else (paragraphs, currentParagraph)
  else
    match currentParagraph with
    | _ :: _ => (paragraphs ++ [flush req currentParagraph], [])
    | [] => (paragraphs, currentParagraph)
    end.

(** The [while] loop that pads: [missing] is its variant, the requested
    count less the current length. *)
Fixpoint pad (req : request) (missing : nat) (paragraphs : list paragraph) : list paragraph :=
  match missing with
  | O => paragraphs
  | S missing' => pad req missing' (paragraphs ++ [fallback_paragraph req])
  end.

(** [a.slice(0, n)]: a negative [n] counts from the end. *)
Definition slice0 {A} (n : Z) (a : list A) : list A :=
  if (n <? 0)%Z then firstn (Z.to_nat (Z.of_nat (length a) + n)) a
  else firstn (Z.to_nat n) a.

Definition extractParagraphs (lines : list jstring) (req : request) : list paragraph :=
  let requested := paragraphs req in
  let '(paragraphs, currentParagraph) := fold_left (extract_step req) lines ([], []) in
  let paragraphs :=
    match currentParagraph with
    | _ :: _ => paragraphs ++ [flush req currentParagraph]
    | [] => paragraphs
    end in
  let paragraphs :=
    pad req (Z.to_nat (requested - Z.of_nat (length paragraphs))) paragraphs in
  slice0 requested paragraphs.

Definition prefaceMarkers : list jstring := [js "summary:"; js "preface:"; js "story:"].

Definition has_marker (line : jstring) : bool :=
  let lowerLine := toLowerCase line in
  existsb (fun marker => includes marker lowerLine) prefaceMarkers.

Definition parseAsPlainText (rawResponse : jstring) (req : request) : story :=
  let lines := List.filter nonblank (split_on 10 rawResponse) in
  let '(preface, storyLines) :=
    match List.find has_marker lines with
    | Some line =>
        (trim (replace re_label [] line),
         match index_of line lines with
         | Some i => skipn (i + 1) lines
         | None => lines
         end)
    | None => (STORY_CONSTANTS.FALLBACK_PREFACE, lines)
    end in
  {| preface := preface; story_paragraphs := extractParagraphs storyLines req |}.

Definition parseStoryResponse (rawResponse : jstring) (req : request) : result json :=
  jsonResult <-r JSONUtils.parseWithFallback rawResponse None;
  valid <-r JSONUtils.validateStoryStructure jsonResult;
  if valid then Ok jsonResult
  else Ok (story_to_json (parseAsPlainText rawResponse req)).

End StoryParsingUtils.

(* ================================================================== *)
(** ** The validation module, [@/lib/validation] (second part of [src/lib/errors.ts]) *)
(* ================================================================== *)

(** Values of type [unknown] handed to the validators.  A number is NaN,
    an infinity or a finite value; every finite double is a rational, so
    a statement about all rationals covers all doubles.  An object lists
    its properties, each name once. *)
Inductive jsnum : Type :=
| NaN
| Infinity (negative : bool)
| Fin (q : Q).

Inductive jsval : Type :=
| VUndefined
| VNull
| VBool (b : bool)
| VNum (n : jsnum)
| VStr (s : jstring)
| VArr (elems : list jsval)
| VObj (fields : list (jstring * jsval)).

Module JSVal.

Definition truthy (v : jsval) : bool :=
  match v with
  | VUndefined | VNull => false
  | VBool b => b
  | VNum NaN => false
  | VNum (Infinity _) => true
  | VNum (Fin q) => negb (Qeq_bool q 0)
  | VStr s => match s with [] => false | _ => true end
  | VArr _ | VObj _ => true
  end.

Fixpoint lookup_field (name : jstring) (fields : list (jstring * jsval)) : jsval :=
  match fields with
  | [] => VUndefined
  | (k, v) :: fields' => if str_eqb k name then v else lookup_field name fields'
  end.

(** [v.name] for the property names of a story request, none of which is
    a property of an array. *)
Definition get (v : jsval) (name : jstring) : jsval :=
  match v with
  | VObj fields => lookup_field name fields
  | _ => VUndefined
  end.

(** The decimal digits of a natural number. *)
Definition nat_to_js (n : nat) : jstring := js (NilZero.string_of_uint (Nat.to_uint n)).
Definition Z_to_js (z : Z) : jstring := js (NilZero.string_of_int (Z.to_int z)).

Fixpoint digits_value (acc : Z) (s : jstring) : Z :=
  match s with
  | c :: s' => if is_digit c then digits_value (acc * 10 + (Z.of_N c - 48)) s' else acc
  | [] => acc
  end.

(** [parseInt(s, 10)]: leading white space, an optional sign, then the
    longest run of digits; [None] is NaN. *)
Definition parseInt (s : jstring) : option Z :=
  let s := trim_start s in
  let '(negative, s) :=
    match s with
    | c :: s' => if (c =? 45)%N then (true, s') else if (c =? 43)%N then (false, s') else (false, s)
    | [] => (false, [])
    end in
  match s with
  | c :: _ =>
      if is_digit c then Some (if negative then - digits_value 0 s else digits_value 0 s)%Z
      else None
  | [] => None
  end.

End JSVal.

Module InputSanitizer.
Import Regex.

(** [/<[^>]*>/g] *)
Definition re_tag : regex :=
  {| anchored := false; items := lit "<" ++ [Star (not_chr ">")] ++ lit ">" |}.
(** [/javascript:/gi] *)
Definition re_javascript : regex :=
  {| anchored := false; items := lit_i "javascript:" |}.
(** [/on\w+\s*=/gi] *)
Definition re_handler : regex :=
  {| anchored := false; items := lit_i "on" ++ plus is_word ++ [Star is_space] ++ lit "=" |}.
(** [/\0/g] *)
Definition re_nul : regex :=
  {| anchored := false; items := [One (fun c => (c =? 0)%N)] |}.

Definition sanitizeString (input : jstring) : jstring :=
  substring0 1000
    (replace_all re_nul []
       (replace_all re_handler []
          (replace_all re_javascript []
             (replace_all re_tag [] (trim input))))).

(** [sanitizeCharacterNames] on an array. *)
Definition sanitizeCharacterNames (names : list jsval) : list jstring :=
  firstn (Z.to_nat STORY_CONSTANTS.MAX_CHARACTERS)
    (List.filter
       (fun name => (0 <? length name) && (length name <=? STORY_CONSTANTS.MAX_CHARACTER_NAME_LENGTH))
       (List.map sanitizeString
          (omap (fun name => match name with VStr s => Some s | _ => None end) names))).

(** [sanitizeNumber(input, min, max)]; [None] is [null]. *)
Definition sanitizeNumber (input : jsval) (min max : Z) : option Z :=
  match input with
  | VNum (Fin q) =>
      let num := Qfloor q in
      if ((min <=? num) && (num <=? max))%Z then Some num else None
  | VNum (Infinity _) => None
  | VStr s =>
      match JSVal.parseInt s with
      | Some parsed => if ((min <=? parsed) && (parsed <=? max))%Z then Some parsed else None
      | None => None
      end
  | _ => None
  end.

End InputSanitizer.

Module StoryValidator.

Record ValidationError : Type := { field : jstring; message : jstring }.

Record ValidationResult : Type := { isValid : bool; errors : list ValidationError }.

Definition isValidGenre (genre : jstring) : bool :=
  existsb (str_eqb genre)
    [js "fantasy"; js "mystery"; js "sci-fi"; js "romance"; js "horror"; js "adventure"].

Definition genre_errors (genre : jsval) : list ValidationError :=
  match genre with
  | VStr ((_ :: _) as g) =>
      if isValidGenre g then []
      else [{| field := js "genre"; message := ERROR_MESSAGES.INVALID_GENRE |}]
  | _ => [{| field := js "genre"; message := ERROR_MESSAGES.INVALID_GENRE |}]
  end.

Definition names_errors (characterNames : jsval) (charactersCount : option Z)
  : list ValidationError :=
  match characterNames with
  | VUndefined => []
  | VArr names =>
      let sanitizedNames := InputSanitizer.sanitizeCharacterNames names in
      (if existsb (fun name => length name =? 0) sanitizedNames then
         [{| field := js "characterNames"; message := ERROR_MESSAGES.INVALID_CHARACTER_NAMES |}]
       else if existsb (fun name => STORY_CONSTANTS.MAX_CHARACTER_NAME_LENGTH <? length name)
                 sanitizedNames then
         [{| field := js "characterNames"; message := ERROR_MESSAGES.CHARACTER_NAME_TOO_LONG |}]
       else [])
      ++
      match charactersCount with
      | Some count =>
          if negb (count =? 0)%Z && negb (Z.of_nat (length sanitizedNames) =? count)%Z then
            [{| field := js "characterNames";
                message := js "Number of character names (" ++ JSVal.nat_to_js (length sanitizedNames)
                           ++ js ") must match character count (" ++ JSVal.Z_to_js count ++ js ")" |}]
          else []
      | None => []
      end
  | _ => [{| field := js "characterNames"; message := ERROR_MESSAGES.INVALID_CHARACTER_NAMES |}]
  end.

Definition validateStoryRequest (data : jsval) : ValidationResult :=
  match data with
  | VObj _ | VArr _ =>
      let charactersCount :=
        InputSanitizer.sanitizeNumber (JSVal.get data (js "characters"))
          STORY_CONSTANTS.MIN_CHARACTERS STORY_CONSTANTS.MAX_CHARACTERS in
      let paragraphsCount :=
        InputSanitizer.sanitizeNumber (JSVal.get data (js "paragraphs"))
          STORY_CONSTANTS.MIN_PARAGRAPHS STORY_CONSTANTS.MAX_PARAGRAPHS in
      let errors :=
        genre_errors (JSVal.get data (js "genre"))
        ++ (match charactersCount with
            | None => [{| field := js "characters"; message := ERROR_MESSAGES.INVALID_CHARACTER_COUNT |}]
            | Some _ => []
            end)
        ++ (match paragraphsCount with
            | None => [{| field := js "paragraphs"; message := ERROR_MESSAGES.INVALID_PARAGRAPH_COUNT |}]
            | Some _ => []
            end)
        ++ names_errors (JSVal.get data (js "characterNames")) charactersCount in
      {| isValid := match errors with [] => true | _ => false end; errors := errors |}
  | _ =>
      {| isValid := false;
         errors := [{| field := js "root"; message := js "Request data must be an object" |}] |}
  end.

End StoryValidator.

Module RateLimiter.

Record entry : Type := { count : Z; resetTime : Z }.

Record verdict : Type := { allowed : bool; verdict_resetTime : Z }.

(** The static [requests] map. *)
Abbreviation store := (gmap jstring entry).

(** [checkRateLimit(identifier, maxRequests, windowMs)] at the time [now]
    that [Date.now()] returns, on the store before the call; the result
    comes with the store after the call. *)
Definition checkRateLimit (identifier : jstring) (maxRequests windowMs : Z) (now : Z)
  (requests : store) : verdict * store :=
  match requests !! identifier with
  | Some current =>
      if (resetTime current <? now)%Z then
        ({| allowed := true; verdict_resetTime := now + windowMs |},
         <[identifier := {| count := 1; resetTime := now + windowMs |}]> requests)
      else if (maxRequests <=? count current)%Z then
        ({| allowed := false; verdict_resetTime := resetTime current |}, requests)
      else
        ({| allowed := true; verdict_resetTime := resetTime current |},
         <[identifier := {| count := count current + 1; resetTime := resetTime current |}]> requests)
  | None =>
      ({| allowed := true; verdict_resetTime := now + windowMs |},
       <[identifier := {| count := 1; resetTime := now + windowMs |}]> requests)
  end.

(** [cleanup()]: entries whose window is over are deleted. *)
Definition cleanup (now : Z) (requests : store) : store :=
  filter (fun kv => ¬ (resetTime kv.2 < now)%Z) requests.

(** The call of the generation endpoint: ten requests a minute. *)
Definition route_check (clientIP : jstring) (now : Z) (requests : store) : verdict * store :=
  checkRateLimit clientIP 10 60000 now requests.

End RateLimiter.

(* ================================================================== *)
(** ** [src/app/api/story/continue/route.ts] *)
(* ================================================================== *)

Module ContinueRoute.

Record ContinueStoryRequest : Type :=
  { storyId : jstring;
    existingParagraphs : list jstring;
    genre : jstring;
    additionalParagraphs : option Z }.

(** A paragraph of the response; [text] is whatever the parsed element
    holds under that name, [None] when it holds nothing. *)
Record Paragraph : Type :=
  { id : Z; text : option json; imagePrompt : jstring }.

Inductive response : Type :=
| NewParagraphs (newParagraphs : list Paragraph)
| BadRequest (error : jstring)
| Failure (e : exn).

(** ToString of a parsed value inside a template literal.  [None] is
    [undefined].  A number prints as Number::toString prints its double.
    An array joins its elements with commas, [null] elements as empty
    texts.  An object prints as [[object Object]] through the inherited
    [toString]; when it has a property [toString] of its own, which is
    no function, the inherited [valueOf] returns the object or its own
    [valueOf] is no function either, and the conversion throws. *)
Fixpoint to_string (v : json) : result jstring :=
  match v with
  | JNull => Ok (js "null")
  | JBool true => Ok (js "true")
  | JBool false => Ok (js "false")
  | JNumber lexeme => Ok (Number.to_string (Number.of_lexeme lexeme))
  | JString s => Ok s
  | JArray elems =>
      (fix join (l : list json) : result jstring :=
         match l with
         | [] => Ok []
         | [x] => match x with JNull => Ok [] | _ => to_string x end
         | x :: l' =>
             first <-r match x with JNull => Ok [] | _ => to_string x end;
             rest <-r join l';
             Ok (first ++ js "," ++ rest)
         end) elems
  | JObject fields =>
      match lookup_field (js "toString") fields with
      | Some _ => Throw TypeError
      | None => Ok (js "[object Object]")
      end
  end.

Definition to_string_opt (o : option json) : result jstring :=
  match o with
  | Some v => to_string v
  | None => Ok (js "undefined")
  end.

Definition truthy_opt (o : option json) : bool :=
  match o with
  | Some v => truthy v
  | None => false
  end.

Definition or_fallback (text : jstring) : jstring :=
  match text with
  | [] => STORY_CONSTANTS.FALLBACK_PARAGRAPH
  | _ :: _ => text
  end.

Definition literal_paragraph (text imagePrompt : jstring) : json :=
  JObject [(js "text", JString text); (js "imagePrompt", JString imagePrompt)].

(** The structure built from the raw text when no [paragraphs] came out
    of the parse. *)
Definition fallback_paragraphs (rawResponse genre : jstring) : json :=
  JArray
    (List.map
       (fun text =>
          literal_paragraph (or_fallback text)
            (ImagePromptUtils.createFallbackPrompt (or_fallback text) genre))
       (List.filter StoryParsingUtils.nonblank (split_on 10 rawResponse))).

(** [paragraphs.length === 0] *)
Definition length_is_zero (paragraphs : json) : bool :=
  match paragraphs with
  | JArray [] => true
  | JString [] => true
  | JObject fields =>
      match lookup_field (js "length") fields with
      | Some (JNumber lexeme) => lexeme_is_zero lexeme
      | _ => false
      end
  | _ => false
  end.

(** The callback of [paragraphs.map]: reading a property of [null]
    throws, and so may printing the image prompt. *)
Definition new_paragraph (genre : jstring) (startingId : Z) (index : nat) (p : json)
  : result Paragraph :=
  match p with
  | JNull => Throw TypeError
  | _ =>
      originalPrompt <-r to_string_opt (get p (js "imagePrompt"));
      Ok {| id := startingId + Z.of_nat index;
            text := get p (js "text");
            imagePrompt := ImagePromptUtils.enhancePrompt originalPrompt genre |}
  end.

Fixpoint map_indexed {A B} (f : nat -> A -> result B) (index : nat) (l : list A)
  : result (list B) :=
  match l with
  | [] => Ok []
  | x :: l' => y <-r f index x; ys <-r map_indexed f (S index) l'; Ok (y :: ys)
  end.

(** The handler.  [generated] is what obtaining the provider and calling
    its [generateText] produce: the raw text, or the exception thrown.
    Whatever is thrown inside is turned into an error response by
    [ErrorHandler.withErrorHandling]. *)
Definition POST (continueRequest : ContinueStoryRequest) (generated : result jstring)
  : response :=
  let handled :=
    match storyId continueRequest, genre continueRequest with
    | [], _ | _, [] => Ok (BadRequest ERROR_MESSAGES.INVALID_GENRE)
    | _, _ =>
        rawResponse <-r generated;
        continuationData <-r JSONUtils.parseWithFallback rawResponse None;
        let paragraphs :=
          match get continuationData (js "paragraphs") with
          | Some ps =>
              if truthy continuationData && truthy ps then ps
              else fallback_paragraphs rawResponse (genre continueRequest)
          | None => fallback_paragraphs rawResponse (genre continueRequest)
          end in
        let paragraphs :=
          if length_is_zero paragraphs then
            JArray [literal_paragraph STORY_CONSTANTS.FALLBACK_PARAGRAPH
                      (replace_str (js "{genre}") (genre continueRequest)
                         STORY_CONSTANTS.FALLBACK_IMAGE_PROMPT_SUFFIX)]
          else paragraphs in
        let startingId := (Z.of_nat (length (existingParagraphs continueRequest)) + 1)%Z in
        match paragraphs with
        | JArray elems =>
            newParagraphs <-r map_indexed (new_paragraph (genre continueRequest) startingId) 0 elems;
            Ok (NewParagraphs newParagraphs)
        | _ => Throw TypeError
        end
    end in
  match handled with
  | Ok r => r
  | Throw e => Failure e
  end.

End ContinueRoute.

(* ================================================================== *)
(** ** [src/lib/image-factory.ts] and [src/lib/llm-factory.ts] *)
(* ================================================================== *)

(** [process.env]: the value of a variable, when it is set. *)
Definition environment : Type := jstring -> option jstring.

(** [a || b] on texts that may be missing: the first that is neither
    missing nor empty. *)
Definition or_else (a : option jstring) (b : jstring) : jstring :=
  match a with
  | Some ((_ :: _) as v) => v
  | _ => b
  end.

Module Encoding.

(** UTF-8 bytes of a string, as [Buffer.from] produces them: a surrogate
    pair is one code point, a lone surrogate becomes U+FFFD. *)
Fixpoint utf8 (s : jstring) : list N :=
  match s with
  | [] => []
  | c :: s' =>
      if (c <? 128)%N then c :: utf8 s'
      else if (c <? 2048)%N then (192 + c / 64)%N :: (128 + c mod 64)%N :: utf8 s'
      else if is_high_surrogate c then
        match s' with
        | d :: s'' =>
            if is_low_surrogate d then
              let cp := (65536 + (c - 55296) * 1024 + (d - 56320))%N in
              (240 + cp / 262144)%N :: (128 + cp / 4096 mod 64)%N
              :: (128 + cp / 64 mod 64)%N :: (128 + cp mod 64)%N :: utf8 s''
            else 239%N :: 191%N :: 189%N :: utf8 s'
        | [] => [239; 191; 189]%N
        end
      else if is_low_surrogate c then 239%N :: 191%N :: 189%N :: utf8 s'
      else (224 + c / 4096)%N :: (128 + c / 64 mod 64)%N :: (128 + c mod 64)%N :: utf8 s'
  end.

Definition base64_digit (n : N) : N :=
  if (n <? 26)%N then (65 + n)%N
  else if (n <? 52)%N then (71 + n)%N
  else if (n <? 62)%N then (n - 4)%N
  else if (n =? 62)%N then 43%N
  else 47%N.

(** Base64 with padding. *)
Fixpoint base64 (bytes : list N) : jstring :=
  match bytes with
  | [] => []
  | [a] => [base64_digit (a / 4); base64_digit (a mod 4 * 16); 61; 61]%N
  | [a; b] =>
      [base64_digit (a / 4); base64_digit (a mod 4 * 16 + b / 16);
       base64_digit (b mod 16 * 4); 61]%N
  | a :: b :: c :: rest =>
      base64_digit (a / 4) :: base64_digit (a mod 4 * 16 + b / 16)
      :: base64_digit (b mod 16 * 4 + c / 64) :: base64_digit (c mod 64) :: base64 rest
  end.

End Encoding.

Module IMAGE_CONSTANTS.
Definition SVG_WIDTH : Z := 400.
Definition SVG_HEIGHT : Z := 300.
Definition PROMPT_TRUNCATE_LENGTH : nat := 150.
Definition COLORS : list jstring :=
  [js "#FF6B6B"; js "#4ECDC4"; js "#45B7D1"; js "#96CEB4"; js "#FFEAA7"; js "#DDA0DD"].
Definition PADDING : Z := 20.
Definition FONT_SIZE : Z := 14.
(** The number 1.4, as a template literal prints it. *)
Definition LINE_HEIGHT : jstring := js "1.4".
End IMAGE_CONSTANTS.

Module MODEL_DEFAULTS.
Definition OLLAMA_TEXT_MODEL : jstring := js "llama3.2".
Definition OLLAMA_BASE_URL : jstring := js "http://localhost:11434".
Definition GEMINI_TEXT_MODEL : jstring := js "gemini-1.5-pro".
Definition GEMINI_IMAGE_MODEL : jstring := js "gemini-2.0-flash-preview-image-generation".
Definition DEEPINFRA_TEXT_MODEL : jstring := js "meta-llama/Llama-3.1-70B-Instruct".
Definition DEEPINFRA_BASE_URL : jstring := js "https://api.deepinfra.com/v1/inference".
Definition REPLICATE_IMAGE_MODEL : jstring := js "black-forest-labs/flux-schnell".
End MODEL_DEFAULTS.

Module ImageFactory.
Import IMAGE_CONSTANTS JSVal.

(** The template literal of the placeholder picture, in three parts: the
    text before the prompt, the prompt cut at its limit, the text after. *)
Definition svg_head (color : jstring) : jstring :=
  let contentWidth := (SVG_WIDTH - PADDING * 2)%Z in
  let contentHeight := (SVG_HEIGHT - PADDING * 2)%Z in
  jq "
      <svg width='"
  ++ Z_to_js SVG_WIDTH
  ++ jq "' height='"
  ++ Z_to_js SVG_HEIGHT
  ++ jq "' xmlns='http://www.w3.org/2000/svg'>
        <defs>
          <linearGradient id='grad' x1='0%' y1='0%' x2='100%' y2='100%'>
            <stop offset='0%' style='stop-color:"
  ++ color
  ++ jq ";stop-opacity:1' />
            <stop offset='100%' style='stop-color:"
  ++ color
  ++ jq "88;stop-opacity:1' />
          </linearGradient>
        </defs>
        <rect width='"
  ++ Z_to_js SVG_WIDTH
  ++ jq "' height='"
  ++ Z_to_js SVG_HEIGHT
  ++ jq "' fill='url(#grad)' />
        <foreignObject x='"
  ++ Z_to_js PADDING
  ++ jq "' y='"
  ++ Z_to_js PADDING
  ++ jq "' width='"
  ++ Z_to_js contentWidth
  ++ jq "' height='"
  ++ Z_to_js contentHeight
  ++ jq "'>
          <div xmlns='http://www.w3.org/1999/xhtml' style='
            font-family: Arial, sans-serif;
            color: white;
            text-shadow: 2px 2px 4px rgba(0,0,0,0.5);
            padding: "
  ++ Z_to_js PADDING
  ++ jq "px;
            height: 100%;
            display: flex;
            align-items: center;
            justify-content: center;
            text-align: center;
            font-size: "
  ++ Z_to_js FONT_SIZE
  ++ jq "px;
            line-height: "
  ++ LINE_HEIGHT
  ++ jq ";
            font-weight: bold;
          '>
            "
  ++ [55356; 57256]%N
  ++ jq " ".

Definition svg_tail : jstring :=
  jq "
          </div>
        </foreignObject>
      </svg>
    ".

Definition truncated (prompt : jstring) : jstring :=
  substring0 PROMPT_TRUNCATE_LENGTH prompt
  ++ (if PROMPT_TRUNCATE_LENGTH <? length prompt then js "..." else []).

Definition svg_text (color prompt : jstring) : jstring :=
  svg_head color ++ truncated prompt ++ svg_tail.

(** [MockImageProvider.generateImage(prompt)].  [random] is the double
    that this call's [Math.random()] returns; the product with the length
    of the palette is the rounded product of two doubles, and an index
    outside the palette reads [undefined]. *)
Definition Mock_generateImage (prompt : jstring) (random : Number.double) : jstring :=
  let color :=
    match
      Number.floor_index (Number.mul random (Number.of_Z (Z.of_nat (length COLORS))))
    with
    | Some i => default (js "undefined") (nth_error COLORS i)
    | None => js "undefined"
    end in
  js "data:image/svg+xml;base64," ++ Encoding.base64 (Encoding.utf8 (svg_text color prompt)).

Record ReplicateImageProvider : Type :=
  { replicate_apiKey : jstring; replicate_model : jstring }.

Record GeminiImageProvider : Type :=
  { gemini_image_client : jstring; gemini_image_model : jstring }.

Inductive ImageProvider : Type :=
| Mock
| Replicate (p : ReplicateImageProvider)
| GeminiImage (p : GeminiImageProvider).

Definition new_ReplicateImageProvider (env : environment) (model : option jstring)
  : result ReplicateImageProvider :=
  Ok {| replicate_apiKey := or_else (env (js "REPLICATE_API_TOKEN")) [];
        replicate_model := or_else model MODEL_DEFAULTS.REPLICATE_IMAGE_MODEL |}.

Definition new_GeminiImageProvider (env : environment) (model : option jstring)
  : result GeminiImageProvider :=
  let apiKey := or_else (env (js "GEMINI_API_KEY")) (or_else (env (js "GOOGLE_API_KEY")) []) in
  match apiKey with
  | [] => Throw (Error (js "Gemini API key not configured"))
  | _ :: _ =>
      Ok {| gemini_image_client := apiKey;
            gemini_image_model := or_else model MODEL_DEFAULTS.GEMINI_IMAGE_MODEL |}
  end.

(** [ReplicateImageProvider.generateImage]: [remote] is what the requests
    to the service and the polling produce once the key is there. *)
Definition Replicate_generateImage (p : ReplicateImageProvider) (prompt : jstring)
  (remote : result jstring) : result jstring :=
  match replicate_apiKey p with
  | [] => Throw (Error (js "Replicate API key not configured"))
  | _ :: _ => remote
  end.

Definition Replicate_checkHealth (p : ReplicateImageProvider) : bool :=
  match replicate_apiKey p with [] => false | _ :: _ => true end.

(** [createImageProvider]: any name but the two hosted ones gives the
    placeholder provider. *)
Definition createImageProvider (env : environment) (provider : jstring) (model : option jstring)
  : result ImageProvider :=
  if str_eqb provider (js "replicate") then
    p <-r new_ReplicateImageProvider env model; Ok (Replicate p)
  else if str_eqb provider (js "gemini") then
    p <-r new_GeminiImageProvider env model; Ok (GeminiImage p)
  else Ok Mock.

End ImageFactory.

Module LLMFactory.

(** The configuration object: a property that is absent or [undefined]
    is [None]; a number is any Number, NaN included, as [parseFloat] and
    [parseInt] return it. *)
Record config : Type :=
  { model : option jstring;
    temperature : option Number.double;
    maxTokens : option Number.double }.

(** [value || fallback] on a number that may be missing: [undefined],
    both zeros and NaN are falsy. *)
Definition number_or (value : option Number.double) (fallback : Number.double)
  : Number.double :=
  match value with
  | Some x => if Number.truthy x then x else fallback
  | None => fallback
  end.

(** [config.temperature || DEFAULT] and [config.maxTokens || DEFAULT]. *)
Definition temperature_or_default (c : config) : Number.double :=
  number_or (temperature c) STORY_CONSTANTS.DEFAULT_TEMPERATURE.

Definition maxTokens_or_default (c : config) : Number.double :=
  number_or (maxTokens c) STORY_CONSTANTS.DEFAULT_MAX_TOKENS.

Record OllamaProvider : Type :=
  { ollama_baseURL : jstring; ollama_model : jstring;
    ollama_temperature : Number.double; ollama_maxTokens : Number.double }.

Record DeepInfraProvider : Type :=
  { deepinfra_baseURL : jstring; deepinfra_model : jstring; deepinfra_apiKey : jstring;
    deepinfra_temperature : Number.double; deepinfra_maxTokens : Number.double }.

Record GeminiProvider : Type :=
  { gemini_client : jstring; gemini_model : jstring;
    gemini_temperature : Number.double; gemini_maxTokens : Number.double }.

Inductive LLMProvider : Type :=
| Ollama (p : OllamaProvider)
| DeepInfra (p : DeepInfraProvider)
| Gemini (p : GeminiProvider).

Definition new_OllamaProvider (env : environment) (c : config) : result OllamaProvider :=
  Ok {| ollama_baseURL := or_else (env (js "OLLAMA_BASE_URL")) MODEL_DEFAULTS.OLLAMA_BASE_URL;
        ollama_model :=
          or_else (model c) (or_else (env (js "OLLAMA_MODEL")) MODEL_DEFAULTS.OLLAMA_TEXT_MODEL);
        ollama_temperature := temperature_or_default c;
        ollama_maxTokens := maxTokens_or_default c |}.

Definition new_DeepInfraProvider (env : environment) (c : config) : result DeepInfraProvider :=
  Ok {| deepinfra_baseURL := MODEL_DEFAULTS.DEEPINFRA_BASE_URL;
        deepinfra_model := or_else (model c) MODEL_DEFAULTS.DEEPINFRA_TEXT_MODEL;
        deepinfra_apiKey := or_else (env (js "DEEPINFRA_API_KEY")) [];
        deepinfra_temperature := temperature_or_default c;
        deepinfra_maxTokens := maxTokens_or_default c |}.

Definition new_GeminiProvider (env : environment) (c : config) : result GeminiProvider :=
  let apiKey := or_else (env (js "GEMINI_API_KEY")) (or_else (env (js "GOOGLE_API_KEY")) []) in
  match apiKey with
  | [] => Throw (Error (js "Gemini API key not configured"))
  | _ :: _ =>
      Ok {| gemini_client := apiKey;
            gemini_model := or_else (model c) MODEL_DEFAULTS.GEMINI_TEXT_MODEL;
            gemini_temperature := temperature_or_default c;
            gemini_maxTokens := maxTokens_or_default c |}
  end.

(** [DeepInfraProvider.generateText]: [remote] is what the request to the
    service produces once the key is there. *)
Definition DeepInfra_generateText (p : DeepInfraProvider) (prompt : jstring)
  (remote : result jstring) : result jstring :=
  match deepinfra_apiKey p with
  | [] => Throw (Error (js "DeepInfra API key not configured"))
  | _ :: _ => remote
  end.

Definition DeepInfra_checkHealth (p : DeepInfraProvider) : bool :=
  match deepinfra_apiKey p with [] => false | _ :: _ => true end.

Definition createLLMProvider (env : environment) (provider : jstring) (c : config)
  : result LLMProvider :=
  if str_eqb provider (js "ollama") then p <-r new_OllamaProvider env c; Ok (Ollama p)
  else if str_eqb provider (js "deepinfra") then p <-r new_DeepInfraProvider env c; Ok (DeepInfra p)
  else if str_eqb provider (js "gemini") then p <-r new_GeminiProvider env c; Ok (Gemini p)
  else Throw (Error (js "Unsupported LLM provider: " ++ provider)).

End LLMFactory.

(* ================================================================== *)
(** ** Vocabulary of the statements and of their proofs *)
(* ================================================================== *)

(** Every code unit of [s] is white space; [c] occurs in [s]. *)
Definition all_space (s : jstring) : bool := forallb is_space s.
Definition has_cu (c : N) (s : jstring) : bool := existsb (N.eqb c) s.

(** A fantasy story request with the given counts and names. *)
Definition story_request (characters paragraphs characterNames : jsval) : jsval :=
  VObj [(js "genre", VStr (js "fantasy")); (js "characters", characters);
        (js "paragraphs", paragraphs); (js "characterNames", characterNames)].

(** A variable of the environment is missing when it is not set or set to
    the empty text: [process.env.NAME || ''] is then empty. *)
Definition credential_missing (env : environment) (name : string) : Prop :=
  or_else (env (js name)) [] = [].

Definition no_config : LLMFactory.config :=
  {| LLMFactory.model := None; LLMFactory.temperature := None; LLMFactory.maxTokens := None |}.

Section PaletteVocabulary.
Import ImageFactory IMAGE_CONSTANTS.

(** The index that a draw selects: the floor of the rounded product of
    the draw and the length of the palette. *)
Definition palette_index (random : Number.double) : option nat :=
  Number.floor_index (Number.mul random (Number.of_Z (Z.of_nat (length COLORS)))).

(** The colour that a draw selects. *)
Definition palette_color (random : Number.double) : jstring :=
  match palette_index random with
  | Some i => default (js "undefined") (nth_error COLORS i)
  | None => js "undefined"
  end.

(** The picture of a prompt in a colour. *)
Definition picture (color prompt : jstring) : jstring :=
  js "data:image/svg+xml;base64,"
  ++ Encoding.base64 (Encoding.utf8
       (svg_head color
        ++ (firstn 150 prompt ++ (if 150 <? length prompt then js "..." else []))
        ++ svg_tail)).

(** The first code units of the SVG text, up to the end of the first
    occurrence of the colour and a little further; they are ASCII, and
    their count is a multiple of 3, so that their Base64 text is a prefix
    of the Base64 text of the whole. *)
Definition head_length : nat := 240.
Definition head_start (color : jstring) : jstring := firstn head_length (svg_head color).

(** The texts that can stand as colour. *)
Definition colour_texts : list jstring := COLORS ++ [js "undefined"].

End PaletteVocabulary.

(** What [k] steps of [shr_1] leave of the natural number [P]: the
    quotient by [2 ^ k], and a round bit that is set only when the
    remainder is at least half of [2 ^ k]. *)
Definition shifted (P k : Z) (x : shr_record) : Prop :=
  shr_m x = (P / 2 ^ k)%Z /\ (shr_r x = true -> (2 ^ k <= 2 * (P mod 2 ^ k))%Z).

(** The texts that the strategies hand to [JSON.parse], in order: the
    trimmed input, the span from the first opening brace to the last
    closing one when there is one, the cleaned-up input when it is not
    empty. *)
Definition candidates (jsonString : jstring) : list jstring :=
  [trim jsonString]
  ++ match Regex.match_ JSONUtils.re_braces jsonString with Some m => [m] | None => [] end
  ++ match JSONUtils.cleanup jsonString with [] => [] | (_ :: _) as c => [c] end.

Fixpoint first_parsed (texts : list jstring) : option json :=
  match texts with
  | [] => None
  | text :: texts' =>
      match parse text with
      | Ok v => Some v
      | Throw _ => first_parsed texts'
      end
  end.

(** [fallback || null] *)
Definition fallback_or_null (fallback : option json) : json :=
  match fallback with
  | Some fb => if truthy fb then fb else JNull
  | None => JNull
  end.

Section TraceVocabulary.
Import RateLimiter.

(** The calls that reach the generation endpoint, in order: the client
    identifier and the time of each. *)
Definition trace : Type := list (jstring * Z).

(** The verdicts that one client receives along a trace, and the times of
    its calls. *)
Fixpoint verdicts_of (client : jstring) (tr : trace) (requests : store) : list verdict :=
  match tr with
  | [] => []
  | (c, now) :: tr' =>
      let r := route_check c now requests in
      if str_eqb c client then r.1 :: verdicts_of client tr' r.2
      else verdicts_of client tr' r.2
  end.

Fixpoint times_of (client : jstring) (tr : trace) : list Z :=
  match tr with
  | [] => []
  | (c, now) :: tr' =>
      if str_eqb c client then now :: times_of client tr' else times_of client tr'
  end.

(** No window of the client is running at time [now]. *)
Definition no_window (client : jstring) (now : Z) (requests : store) : Prop :=
  match requests !! client with
  | Some current => (resetTime current < now)%Z
  | None => True
  end.

(** What a client with [k] requests counted gets for its next [n] calls
    inside the window that ends at [reset]. *)
Fixpoint inside_window (k : Z) (n : nat) (reset : Z) : list verdict :=
  match n with
  | O => []
  | S n' =>
      {| allowed := (k <? 10)%Z; verdict_resetTime := reset |}
      :: inside_window (if (k <? 10)%Z then k + 1 else k)%Z n' reset
  end.

End TraceVocabulary.

Section TextVocabulary.
Import StoryParsingUtils.

(** The text that [JSON.stringify] writes for a paragraph and for a
    story. *)
Definition paragraph_text (p : paragraph) : jstring :=
  jq "{'text':" ++ quote (text p) ++ jq ",'imagePrompt':" ++ quote (imagePrompt p) ++ js "}".

Fixpoint paragraphs_text (ps : list paragraph) : jstring :=
  match ps with
  | [] => []
  | [p] => paragraph_text p
  | p :: ps' => paragraph_text p ++ js "," ++ paragraphs_text ps'
  end.

Definition story_text (st : story) : jstring :=
  jq "{'preface':" ++ quote (preface st) ++ jq ",'paragraphs':["
  ++ paragraphs_text (story_paragraphs st) ++ js "]}".

(** The serialization of a story between its outer braces. *)
Definition story_inner (st : story) : jstring :=
  jq "'preface':" ++ quote (preface st) ++ jq ",'paragraphs':["
  ++ paragraphs_text (story_paragraphs st) ++ js "]".

End TextVocabulary.

(** What reading one more code unit [u] adds to the rest of a string
    literal. *)
Definition read_more (u : N) (s : jstring) : option (jstring * jstring) :=
  match parse_chars s with
  | Some (str, rest) => Some (u :: str, rest)
  | None => None
  end.

(** Where a reader of a JSON text stands: outside any string, inside one,
    or right after a backslash inside one. *)
Inductive lex : Type := Outside | Inside | Escape.

(** One code unit further.  The reader is coarser than the grammar: it
    pairs up the quotes and refuses ([None]) a backquote outside a string
    or after a backslash, and a control character inside a string. *)
Definition lex_step (st : lex) (c : N) : option lex :=
  match st with
  | Outside =>
      if (c =? 34)%N then Some Inside else if (c =? 96)%N then None else Some Outside
  | Inside =>
      if (c =? 34)%N then Some Outside
      else if (c =? 92)%N then Some Escape
      else if (c <? 32)%N then None
      else Some Inside
  | Escape => if (c =? 96)%N then None else Some Inside
  end.

Fixpoint lex_scan (st : lex) (s : jstring) : option lex :=
  match s with
  | [] => Some st
  | c :: s' =>
      match lex_step st c with
      | Some st' => lex_scan st' s'
      | None => None
      end
  end.

(** [s] is [rest] after a part that a reader goes through from the state
    [from], ending outside any string; the part is not empty. *)
Definition reads (from : lex) (s rest : jstring) : Prop :=
  exists part, s = part ++ rest /\ part <> [] /\ lex_scan from part = Some Outside.

(** The same, the part possibly empty. *)
Definition reads0 (s rest : jstring) : Prop :=
  exists part, s = part ++ rest /\ lex_scan Outside part = Some Outside.

(** A character that a reader passes outside a string, staying outside. *)
Definition plain (c : N) : Prop := lex_step Outside c = Some Outside.

(** [[\s\S]*\}]: the tail of the brace expression. *)
Definition to_last_brace : list Regex.item :=
  [Regex.Star Regex.any_cu; Regex.One (Regex.chr "}")].

(** Case analysis on the next test of a parsing function. *)
Ltac parsed_case H :=
  match type of H with
  | match ?x with Parsed _ _ => _ | Malformed => _ | OutOfFuel => _ end = _ =>
      let E := fresh "E" in destruct x eqn:E; try discriminate
  | match ?x with Some _ => _ | None => _ end = _ =>
      let E := fresh "E" in destruct x eqn:E; try discriminate
  | match ?x with [] => _ | _ :: _ => _ end = _ =>
      let E := fresh "E" in destruct x eqn:E; try discriminate
  | (if ?x then _ else _) = _ =>
      let E := fresh "E" in destruct x eqn:E; try discriminate
  | (let '(_, _) := ?x in _) = _ =>
      let E := fresh "E" in destruct x eqn:E; try discriminate
  end.

(* ================================================================== *)
(** ** More of the sources: the request sanitizer, the request checks and
    the three other endpoints *)
(* ================================================================== *)

Module StorySanitizer.

(** The object that [sanitizeStoryRequest] builds.  A count is [None]
    when [sanitizeNumber] gives [null]; [characterNames] is [None] when
    the property is not set. *)
Record StoryRequest : Type :=
  { genre : jstring;
    characters : option Z;
    characterNames : option (list jstring);
    paragraphs : option Z }.

(** [StoryValidator.sanitizeStoryRequest(data)]; [None] is [null]. *)
Definition sanitizeStoryRequest (data : jsval) : option StoryRequest :=
  if negb (StoryValidator.isValid (StoryValidator.validateStoryRequest data)) then None
  else
    let characters :=
      InputSanitizer.sanitizeNumber (JSVal.get data (js "characters"))
        STORY_CONSTANTS.MIN_CHARACTERS STORY_CONSTANTS.MAX_CHARACTERS in
    let paragraphs :=
      InputSanitizer.sanitizeNumber (JSVal.get data (js "paragraphs"))
        STORY_CONSTANTS.MIN_PARAGRAPHS STORY_CONSTANTS.MAX_PARAGRAPHS in
    Some
      {| genre :=
           match JSVal.get data (js "genre") with
           | VStr g => InputSanitizer.sanitizeString g
           | _ => []
           end;
         characters := characters;
         paragraphs := paragraphs;
         characterNames :=
           match JSVal.get data (js "characterNames") with
           | VArr names =>
               let sanitizedNames := InputSanitizer.sanitizeCharacterNames names in
               match characters with
               | Some count =>
                   if (Z.of_nat (length sanitizedNames) =? count)%Z then Some sanitizedNames
                   else None
               | None => None
               end
           | _ => None
           end |}.

End StorySanitizer.

Module RequestValidator.

(** What the checks read of a request: its method and its headers, by
    lower-case name. *)
Record request : Type := { method : jstring; header : jstring -> option jstring }.

(** [validateRequestSize]: one mebibyte at most; a length that is not a
    number fails the comparison. *)
Definition validateRequestSize (r : request) : bool :=
  match header r (js "content-length") with
  | Some ((_ :: _) as contentLength) =>
      match JSVal.parseInt contentLength with
      | Some size => (size <=? 1024 * 1024)%Z
      | None => false
      end
  | _ => true
  end.

Definition validateContentType (r : request) : bool :=
  match header r (js "content-type") with
  | Some contentType => includes (js "application/json") contentType
  | None => false
  end.

Definition validateMethod (r : request) (allowedMethods : list jstring) : bool :=
  existsb (str_eqb (method r)) allowedMethods.

End RequestValidator.

Module GenerateRoute.

Record StoryResponse : Type :=
  { storyId : jstring;
    preface : option json;
    paragraphs : list ContinueRoute.Paragraph }.

(** The answers of the endpoint, with their status codes below. *)
Inductive answer : Type :=
| MethodNotAllowed
| ContentTypeRequired
| RequestTooLarge
| RateLimited (resetTime : Z)
| ValidationFailed (details : list StoryValidator.ValidationError)
| InvalidRequest
| ProviderFailed
| GenerationFailed
| InvalidResponse
| Generated (story : StoryResponse)
| BodyUnreadable (e : exn)
| Failure (e : exn).

(** The status code of an answer.  For a body that [request.json()]
    cannot read the code is 400 or 500 after the wording of the engine's
    error message, which is left open here. *)
Definition status (a : answer) : option Z :=
  match a with
  | MethodNotAllowed => Some 405
  | ContentTypeRequired => Some 400
  | RequestTooLarge => Some 422
  | RateLimited _ => Some 429
  | ValidationFailed _ => Some 400
  | InvalidRequest => Some 400
  | ProviderFailed => Some 502
  | GenerationFailed => Some 422
  | InvalidResponse => Some 422
  | Generated _ => Some 200
  | BodyUnreadable _ => None
  | Failure _ => Some 500
  end%Z.

(** [a ?? b ?? 'unknown'] on the two address headers. *)
Definition clientIP (r : RequestValidator.request) : jstring :=
  match RequestValidator.header r (js "x-forwarded-for") with
  | Some ip => ip
  | None =>
      match RequestValidator.header r (js "x-real-ip") with
      | Some ip => ip
      | None => js "unknown"
      end
  end.

(** The last step: the paragraphs of the parsed story, numbered from 1,
    their image prompts enhanced. *)
Definition respond (uuid genre : jstring) (storyData : json) : result StoryResponse :=
  match get storyData (js "paragraphs") with
  | Some (JArray elems) =>
      paragraphs <-r ContinueRoute.map_indexed (ContinueRoute.new_paragraph genre 1) 0 elems;
      Ok {| storyId := uuid; preface := get storyData (js "preface"); paragraphs := paragraphs |}
  | _ => Throw TypeError
  end.

(** The handler, on the rate-limiter store before the call and with the
    time [now] of the call.  [body] is what [request.json()] gives,
    [provider] what obtaining the provider and its health check give,
    [generated] what its [generateText] gives, [uuid] the identifier that
    [uuidv4()] draws.  A count that is [null] reads as 0 where the parser
    compares and slices with it. *)
Definition POST (r : RequestValidator.request) (now : Z)
  (requests : gmap jstring RateLimiter.entry)
  (body : result jsval) (provider : result bool) (generated : result jstring)
  (uuid : jstring) : answer * gmap jstring RateLimiter.entry :=
  if negb (RequestValidator.validateMethod r [js "POST"]) then (MethodNotAllowed, requests)
  else if negb (RequestValidator.validateContentType r) then (ContentTypeRequired, requests)
  else if negb (RequestValidator.validateRequestSize r) then (RequestTooLarge, requests)
  else
    let '(rateLimit, requests) := RateLimiter.checkRateLimit (clientIP r) 10 60000 now requests in
    if negb (RateLimiter.allowed rateLimit) then
      (RateLimited (RateLimiter.verdict_resetTime rateLimit), requests)
    else
      match body with
      | Throw e => (BodyUnreadable e, requests)
      | Ok requestData =>
          let validation := StoryValidator.validateStoryRequest requestData in
          if negb (StoryValidator.isValid validation) then
            (ValidationFailed (StoryValidator.errors validation), requests)
          else
            match StorySanitizer.sanitizeStoryRequest requestData with
            | None => (InvalidRequest, requests)
            | Some storyRequest =>
                match provider with
                | Ok true =>
                    match generated with
                    | Throw _ => (GenerationFailed, requests)
                    | Ok rawResponse =>
                        match
                          StoryParsingUtils.parseStoryResponse rawResponse
                            {| StoryParsingUtils.genre := StorySanitizer.genre storyRequest;
                               StoryParsingUtils.paragraphs :=
                                 default 0%Z (StorySanitizer.paragraphs storyRequest) |}
                        with
                        | Throw _ => (InvalidResponse, requests)
                        | Ok storyData =>
                            match respond uuid (StorySanitizer.genre storyRequest) storyData with
                            | Ok response => (Generated response, requests)
                            | Throw e => (Failure e, requests)
                            end
                        end
                    end
                | _ => (ProviderFailed, requests)
                end
            end
      end.

End GenerateRoute.

Module RegenerateRoute.

Record RegenerateParagraphRequest : Type :=
  { storyId : jstring;
    paragraphId : Z;
    currentParagraph : jstring;
    previousParagraphs : list jstring;
    followingParagraphs : list jstring;
    genre : jstring }.

Inductive answer : Type :=
| Regenerated (paragraph : ContinueRoute.Paragraph)
| BadRequest (error : jstring)
| Failure (e : exn).

(** The handler; [generated] is what obtaining the provider and calling
    its [generateText] produce. *)
Definition POST (regenerateRequest : RegenerateParagraphRequest) (generated : result jstring)
  : answer :=
  match storyId regenerateRequest, paragraphId regenerateRequest,
        currentParagraph regenerateRequest with
  | [], _, _ | _, 0%Z, _ | _, _, [] => BadRequest ERROR_MESSAGES.INVALID_GENRE
  | _, _, _ =>
      match generated with
      | Throw e => Failure e
      | Ok rawResponse =>
          match JSONUtils.parseWithFallback rawResponse None with
          | Throw e => Failure e
          | Ok parsed =>
              let paragraphData :=
                if truthy parsed && ContinueRoute.truthy_opt (get parsed (js "text")) then parsed
                else
                  let text := ContinueRoute.or_fallback (trim rawResponse) in
                  ContinueRoute.literal_paragraph text
                    (ImagePromptUtils.createFallbackPrompt text (genre regenerateRequest)) in
              match ContinueRoute.to_string_opt (get paragraphData (js "imagePrompt")) with
              | Throw e => Failure e
              | Ok originalPrompt =>
                  Regenerated
                    {| ContinueRoute.id := paragraphId regenerateRequest;
                       ContinueRoute.text := get paragraphData (js "text");
                       ContinueRoute.imagePrompt :=
                         ImagePromptUtils.enhancePrompt originalPrompt
                           (genre regenerateRequest) |}
              end
          end
      end
  end.

End RegenerateRoute.

Module ImagesRoute.

(** [getDefaultImageProvider()]: the placeholder provider unless
    [IMAGE_PROVIDER] names another. *)
Definition getDefaultImageProvider (env : environment) : result ImageFactory.ImageProvider :=
  ImageFactory.createImageProvider env (or_else (env (js "IMAGE_PROVIDER")) (js "mock"))
    (env (js "IMAGE_MODEL")).

(** [provider.generateImage(prompt)]: [random] is the draw of the
    placeholder provider, [remote] what a hosted service produces. *)
Definition generateImage (p : ImageFactory.ImageProvider) (prompt : jstring)
  (random : Number.double) (remote : result jstring) : result jstring :=
  match p with
  | ImageFactory.Mock => Ok (ImageFactory.Mock_generateImage prompt random)
  | ImageFactory.Replicate rp => ImageFactory.Replicate_generateImage rp prompt remote
  | ImageFactory.GeminiImage _ => remote
  end.

Inductive answer : Type :=
| Image (imageUrl : jstring) (paragraphId : Z)
| MissingFields
| GenerationFailed.

(** The handler: every exception ends in the same 500 answer. *)
Definition POST (env : environment) (prompt : jstring) (paragraphId : Z)
  (random : Number.double) (remote : result jstring) : answer :=
  match prompt, paragraphId with
  | [], _ | _, 0%Z => MissingFields
  | _, _ =>
      match getDefaultImageProvider env with
      | Throw _ => GenerationFailed
      | Ok imageProvider =>
          match generateImage imageProvider prompt random remote with
          | Ok imageUrl => Image imageUrl paragraphId
          | Throw _ => GenerationFailed
          end
      end
  end.

End ImagesRoute.

(* ================================================================== *)
(** ** [CommonUtils], of [src/lib/utils.ts] *)
(* ================================================================== *)

Module CommonUtils.

(** [text.length <= maxLength] for a number that may be NaN or
    infinite. *)
Definition fits (text : jstring) (maxLength : jsnum) : bool :=
  match maxLength with
  | NaN => false
  | Infinity negative => negb negative
  | Fin q => Qle_bool (inject_Z (Z.of_nat (length text))) q
  end.

(** The end position that [substring(0, maxLength)] uses: the number
    cut to an integer toward zero, NaN and negative numbers as 0. *)
Definition end_position (text : jstring) (maxLength : jsnum) : nat :=
  match maxLength with
  | NaN => 0
  | Infinity negative => if negative then 0 else length text
  | Fin q => Z.to_nat (Qfloor q)
  end.

(** [truncateText(text, maxLength)] *)
Definition truncateText (text : jstring) (maxLength : jsnum) : jstring :=
  if fits text maxLength then text
  else trim (substring0 (end_position text maxLength) text) ++ js "...".

(** What [retryWithBackoff] ends with: the value that the operation
    returned, or what is thrown, which is [undefined] when the operation
    was never called. *)
Inductive outcome (T : Type) : Type :=
| Returned (value : T)
| Thrown (error : exn)
| ThrownUndefined.
Arguments Returned {T} value.
Arguments Thrown {T} error.
Arguments ThrownUndefined {T}.

(** The loop of [retryWithBackoff], from the attempt [attempt] on, with
    [remaining] turns left.  [operation i] is what call number [i] of the
    operation, counted from 0, produces.  The result comes with the
    delays waited, in order. *)
Fixpoint attempts {T} (operation : nat -> result T) (maxRetries baseDelay : Z)
  (remaining attempt : nat) (lastError : option exn) : outcome T * list Z :=
  match remaining with
  | O => (match lastError with Some e => Thrown e | None => ThrownUndefined end, [])
  | S remaining' =>
      match operation attempt with
      | Ok value => (Returned value, [])
      | Throw error =>
          if (Z.of_nat attempt =? maxRetries - 1)%Z then (Thrown error, [])
          else
            let delay := (baseDelay * 2 ^ Z.of_nat attempt)%Z in
            let '(o, delays) :=
              attempts operation maxRetries baseDelay remaining' (S attempt) (Some error) in
            (o, delay :: delays)
      end
  end.

(** [retryWithBackoff(operation, maxRetries, baseDelay)] for whole
    numbers of retries and of milliseconds. *)
Definition retryWithBackoff {T} (operation : nat -> result T) (maxRetries baseDelay : Z)
  : outcome T * list Z :=
  attempts operation maxRetries baseDelay (Z.to_nat maxRetries) 0 None.

End CommonUtils.

(* ================================================================== *)
(** ** Vocabulary of the further properties *)
(* ================================================================== *)

(** A paragraph with a text and an image prompt of at least one code
    unit. *)
Definition filled (p : StoryParsingUtils.paragraph) : Prop :=
  StoryParsingUtils.text p <> [] /\ StoryParsingUtils.imagePrompt p <> [].

(** The last code unit of a text. *)
Fixpoint last_cu (s : jstring) : option N :=
  match s with
  | [] => None
  | [c] => Some c
  | _ :: s' => last_cu s'
  end.

(** The last code unit of a line is a full stop, an exclamation mark or a
    question mark. *)
Definition ends_sentence (line : jstring) : bool :=
  match last_cu line with
  | Some c => (c =? 46)%N || (c =? 33)%N || (c =? 63)%N
  | None => false
  end.

(** The lines joined by single spaces, each trimmed, after the text
    [cur]. *)
Definition joined_from (cur : jstring) (lines : list jstring) : jstring :=
  fold_left
    (fun cur line => cur ++ (match cur with [] => [] | _ :: _ => js " " end) ++ trim line)
    lines cur.

(** No opening angle bracket of [s] has a closing one after it. *)
Fixpoint no_tag (s : jstring) : bool :=
  match s with
  | [] => true
  | c :: s' => if (c =? 60)%N then negb (has_cu 62 s') else no_tag s'
  end.

(** What follows the first closing angle bracket of [s]. *)
Fixpoint after_gt (s : jstring) : option jstring :=
  match s with
  | [] => None
  | c :: s' => if (c =? 62)%N then Some s' else after_gt s'
  end.

(** The branch test of the continuation endpoint: the parsed value is
    truthy and so is its [paragraphs]. *)
Definition has_paragraphs (data : json) : bool :=
  match get data (js "paragraphs") with
  | Some ps => truthy data && truthy ps
  | None => false
  end.

(** The paragraphs that the continuation endpoint makes of lines of plain
    text, numbered from [id]. *)
Fixpoint line_paragraphs (genre : jstring) (id : Z) (lines : list jstring)
  : list ContinueRoute.Paragraph :=
  match lines with
  | [] => []
  | line :: rest =>
      {| ContinueRoute.id := id;
         ContinueRoute.text := Some (JString line);
         ContinueRoute.imagePrompt :=
           ImagePromptUtils.enhancePrompt (ImagePromptUtils.createFallbackPrompt line genre) genre |}
      :: line_paragraphs genre (id + 1) rest
  end.

(** The sampling temperature and the token limit that a text provider
    holds. *)
Definition provider_temperature (p : LLMFactory.LLMProvider) : Number.double :=
  match p with
  | LLMFactory.Ollama o => LLMFactory.ollama_temperature o
  | LLMFactory.DeepInfra d => LLMFactory.deepinfra_temperature d
  | LLMFactory.Gemini g => LLMFactory.gemini_temperature g
  end.

Definition provider_maxTokens (p : LLMFactory.LLMProvider) : Number.double :=
  match p with
  | LLMFactory.Ollama o => LLMFactory.ollama_maxTokens o
  | LLMFactory.DeepInfra d => LLMFactory.deepinfra_maxTokens d
  | LLMFactory.Gemini g => LLMFactory.gemini_maxTokens g
  end.

(** The code unit [c] is accepted by the class of the item. *)
Definition accepts (c : N) (i : Regex.item) : bool :=
  match i with
  | Regex.One cls | Regex.Star cls => cls c
  | Regex.Eos => false
  end.

(** Neither an opening nor a closing brace. *)
Definition no_brace (c : N) : Prop := c <> 123%N /\ c <> 125%N.

(** An element of a story's paragraphs that the numbering reads without
    an exception: it is not [null] and its image prompt is a string. *)
Definition readable (p : json) : Prop :=
  p <> JNull /\ is_string (get p (js "imagePrompt")) = true.

(* ================================================================== *)
(** * Properties *)
(* ================================================================== *)

(** ** The count of paragraphs *)

Section PlainTextCount.
Import StoryParsingUtils.

Lemma pad_length req missing (ps : list paragraph) :
  length (pad req missing ps) = length ps + missing.
Proof.
  revert ps; induction missing as [|m IH]; intros ps; simpl.
  - lia.
  - rewrite IH, length_app; simpl; lia.
Qed.

Lemma pad_app req missing (ps : list paragraph) :
  pad req missing ps = ps ++ repeat (fallback_paragraph req) missing.
Proof.
  revert ps; induction missing as [|m IH]; intros ps; simpl.
  - now rewrite app_nil_r.
  - rewrite IH, <- app_assoc; reflexivity.
Qed.

(** On the plain-text path the count is the requested one: the list is
    padded with the fallback paragraph and cut at the requested count. *)
Lemma extractParagraphs_length lines req :
  (0 <= paragraphs req)%Z ->
  length (extractParagraphs lines req) = Z.to_nat (paragraphs req).
Proof.
  intros Hn. unfold extractParagraphs.
  destruct (fold_left (extract_step req) lines ([], [])) as [ps cur].
  set (ps' := match cur with [] => ps | _ :: _ => ps ++ [flush req cur] end).
  unfold slice0.
  destruct (paragraphs req <? 0)%Z eqn:E; [apply Z.ltb_lt in E; lia|].
  rewrite length_firstn, pad_length. lia.
Qed.

Lemma parseAsPlainText_length raw req :
  (0 <= paragraphs req)%Z ->
  length (story_paragraphs (parseAsPlainText raw req)) = Z.to_nat (paragraphs req).
Proof.
  intros Hn. unfold parseAsPlainText.
  destruct (List.find has_marker _) as [line|]; simpl;
    now apply extractParagraphs_length.
Qed.

End PlainTextCount.

(** C1.  The count of paragraphs is not the requested one on every
    response: a response that is a valid story in JSON is returned as it
    was parsed.  With three paragraphs requested and a JSON story of one
    paragraph, [parseStoryResponse] returns the one paragraph, neither
    padded nor cut. *)
Theorem C1_json_story_not_reconciled :
  let req := {| StoryParsingUtils.genre := js "fantasy"; StoryParsingUtils.paragraphs := 3 |} in
  StoryParsingUtils.parseStoryResponse
    (jq "{'preface':'p','paragraphs':[{'text':'t','imagePrompt':'i'}]}") req
  = Ok (StoryParsingUtils.story_to_json
          {| StoryParsingUtils.preface := js "p";
             StoryParsingUtils.story_paragraphs :=
               [{| StoryParsingUtils.text := js "t"; StoryParsingUtils.imagePrompt := js "i" |}] |}).
Proof. vm_compute. reflexivity. Qed.

(** ** The plain-text path *)

(** C3.  A blank line does not end a paragraph.  The lines of the
    response are filtered before they are accumulated, so no blank line
    reaches [extractParagraphs]: two short sentences with a blank line
    between them come out as one paragraph, while [extractParagraphs]
    itself, given the three lines, ends the first paragraph at the blank
    one. *)
Theorem C3_blank_line_does_not_flush :
  let req := {| StoryParsingUtils.genre := js "fantasy"; StoryParsingUtils.paragraphs := 3 |} in
  let raw := js "Hello there." ++ [10; 10]%N ++ js "Goodbye now." in
  List.map StoryParsingUtils.text
    (StoryParsingUtils.story_paragraphs (StoryParsingUtils.parseAsPlainText raw req))
  = [js "Hello there. Goodbye now."; js "The story continues..."; js "The story continues..."]
  /\ StoryParsingUtils.parseStoryResponse raw req
     = Ok (StoryParsingUtils.story_to_json (StoryParsingUtils.parseAsPlainText raw req))
  /\ List.map StoryParsingUtils.text
       (StoryParsingUtils.extractParagraphs [js "Hello there."; []; js "Goodbye now."] req)
     = [js "Hello there."; js "Goodbye now."; js "The story continues..."].
Proof. vm_compute. repeat split; reflexivity. Qed.

(** ** The request validator *)

Section ValidatorCases.
Import StoryValidator.

(** The three cases that the specification names: seven characters are
    rejected, five names for six characters are rejected, two names for
    two characters pass; a numeric string counts as its number. *)
Lemma validateStoryRequest_cases :
  validateStoryRequest (story_request (VNum (Fin 7)) (VNum (Fin 3)) VUndefined)
  = {| isValid := false;
       errors := [{| field := js "characters";
                     message := js "Character count must be between 1 and 6" |}] |}
  /\ validateStoryRequest
       (story_request (VNum (Fin 6)) (VNum (Fin 3))
          (VArr (List.map VStr [js "Ann"; js "Bob"; js "Cy"; js "Dee"; js "Eve"])))
     = {| isValid := false;
          errors := [{| field := js "characterNames";
                        message := js "Number of character names (5) must match character count (6)" |}] |}
  /\ validateStoryRequest
       (story_request (VStr (js "2")) (VStr (js "10")) (VArr (List.map VStr [js "Ann"; js "Bob"])))
     = {| isValid := true; errors := [] |}.
Proof. vm_compute. repeat split; reflexivity. Qed.

(** A count outside its bounds, a number or a numeric string, is
    rejected with an error on its field. *)
Lemma sanitizeNumber_in_range input min max n :
  InputSanitizer.sanitizeNumber input min max = Some n -> (min <= n <= max)%Z.
Proof.
  unfold InputSanitizer.sanitizeNumber.
  destruct input as [| | |[| |q]|s| |]; try discriminate.
  - destruct ((min <=? Qfloor q) && (Qfloor q <=? max))%Z eqn:E; [|discriminate].
    intros H; inversion H; subst. rewrite andb_true_iff, !Z.leb_le in E. exact E.
  - destruct (JSVal.parseInt s) as [parsed|]; [|discriminate].
    destruct ((min <=? parsed) && (parsed <=? max))%Z eqn:E; [|discriminate].
    intros H; inversion H; subst. rewrite andb_true_iff, !Z.leb_le in E. exact E.
Qed.

End ValidatorCases.

(** C4.  A request with six characters and seven valid names passes: the
    names are cut to six before they are counted. *)
Theorem C4_seven_names_for_six_characters_pass :
  let names := [js "Ann"; js "Bob"; js "Cy"; js "Dee"; js "Eve"; js "Fay"; js "Gus"] in
  let data :=
    VObj [(js "genre", VStr (js "fantasy"));
          (js "characters", VNum (Fin 6));
          (js "paragraphs", VNum (Fin 3));
          (js "characterNames", VArr (List.map VStr names))] in
  length names = 7
  /\ StoryValidator.validateStoryRequest data
     = {| StoryValidator.isValid := true; StoryValidator.errors := [] |}.
Proof. vm_compute. split; reflexivity. Qed.

(** ** The sanitizer *)

(** The result of the sanitizer is cut at 1000 code units. *)
Lemma sanitizeString_length input : length (InputSanitizer.sanitizeString input) <= 1000.
Proof. unfold InputSanitizer.sanitizeString, substring0. apply firstn_le_length. Qed.

(** C5.  The sanitizer makes one pass for each pattern, in a fixed order,
    and what a pass removes can bring the parts of a pattern together:
    the result can hold the [javascript:] scheme and an event-handler
    attribute. *)
Theorem C5_sanitizeString_leaves_patterns :
  InputSanitizer.sanitizeString (js "javajavascript:script:alert(1)") = js "javascript:alert(1)"
  /\ Regex.test InputSanitizer.re_javascript
       (InputSanitizer.sanitizeString (js "javajavascript:script:alert(1)")) = true
  /\ InputSanitizer.sanitizeString (js "oonclick=nclick=go()") = js "onclick=go()"
  /\ Regex.test InputSanitizer.re_handler
       (InputSanitizer.sanitizeString (js "oonclick=nclick=go()")) = true.
Proof. vm_compute. repeat split; reflexivity. Qed.

(** ** The continuation endpoint *)

Section ContinueIds.
Import ContinueRoute.

Lemma new_paragraph_id g startingId index p y :
  new_paragraph g startingId index p = Ok y ->
  id y = (startingId + Z.of_nat index)%Z.
Proof.
  unfold new_paragraph. intros H.
  assert (Hgo : (originalPrompt <-r to_string_opt (get p (js "imagePrompt"));
                 Ok {| id := startingId + Z.of_nat index;
                       text := get p (js "text");
                       imagePrompt := ImagePromptUtils.enhancePrompt originalPrompt g |})
                = Ok y)
    by (destruct p; try discriminate; exact H).
  destruct (to_string_opt (get p (js "imagePrompt"))); cbn [rbind] in Hgo; [|discriminate].
  inversion Hgo; reflexivity.
Qed.

Lemma map_indexed_nth {A B} (f : nat -> A -> result B) :
  forall l k ys i y,
    map_indexed f k l = Ok ys ->
    nth_error ys i = Some y ->
    exists x, nth_error l i = Some x /\ f (k + i) x = Ok y.
Proof.
  induction l as [|x l IH]; intros k ys i y Hmap Hnth; simpl in Hmap.
  - inversion Hmap; subst. destruct i; discriminate.
  - destruct (f k x) as [y0|e] eqn:Hf; simpl in Hmap; [|discriminate].
    destruct (map_indexed f (S k) l) as [ys0|e] eqn:Hrec; simpl in Hmap; [|discriminate].
    inversion Hmap; subst ys; clear Hmap.
    destruct i as [|i]; simpl in Hnth.
    + inversion Hnth; subst. exists x. rewrite Nat.add_0_r. auto.
    + destruct (IH _ _ _ _ Hrec Hnth) as (x' & Hx & Hfx).
      exists x'. split; [exact Hx|]. rewrite <- Hfx. f_equal. lia.
Qed.

Lemma map_indexed_length {A B} (f : nat -> A -> result B) :
  forall l k ys, map_indexed f k l = Ok ys -> length ys = length l.
Proof.
  induction l as [|x l IH]; intros k ys Hmap; simpl in Hmap.
  - inversion Hmap; reflexivity.
  - destruct (f k x); simpl in Hmap; [|discriminate].
    destruct (map_indexed f (S k) l) eqn:Hrec; simpl in Hmap; [|discriminate].
    inversion Hmap; subst; simpl. f_equal. eauto.
Qed.

End ContinueIds.

(** C7.  Whenever the continuation endpoint answers with new paragraphs,
    the paragraph at position [i], counted from 0, has the identifier
    [existingParagraphs.length + 1 + i]. *)
Theorem C7_continue_ids_are_consecutive
  (continueRequest : ContinueRoute.ContinueStoryRequest) (generated : result jstring)
  (newParagraphs : list ContinueRoute.Paragraph) (i : nat) (p : ContinueRoute.Paragraph) :
  ContinueRoute.POST continueRequest generated = ContinueRoute.NewParagraphs newParagraphs ->
  nth_error newParagraphs i = Some p ->
  ContinueRoute.id p
  = (Z.of_nat (length (ContinueRoute.existingParagraphs continueRequest)) + 1 + Z.of_nat i)%Z.
Proof.
  unfold ContinueRoute.POST. intros Hpost Hnth.
  destruct (ContinueRoute.storyId continueRequest) as [|c0 sid]; [discriminate|].
  destruct (ContinueRoute.genre continueRequest) as [|g0 g] eqn:Hg; [discriminate|].
  destruct generated as [rawResponse|e]; simpl in Hpost; [|discriminate].
  destruct (JSONUtils.parseWithFallback rawResponse None) as [data|e]; simpl in Hpost;
    [|discriminate].
  match type of Hpost with
  | context [if ContinueRoute.length_is_zero ?ps then _ else _] =>
      destruct (if ContinueRoute.length_is_zero ps then _ else ps) as [| | | |elems|] eqn:Hps
  end; try discriminate.
  destruct (ContinueRoute.map_indexed _ 0 elems) as [ys|e] eqn:Hmap; simpl in Hpost;
    [|discriminate].
  inversion Hpost; subst ys; clear Hpost.
  destruct (map_indexed_nth _ _ _ _ _ _ Hmap Hnth) as (x & _ & Hx).
  apply new_paragraph_id in Hx. rewrite Hx. simpl. lia.
Qed.

(** A request with two paragraphs so far and a provider that answers with
    two paragraphs in JSON: the new identifiers are 3 and 4. *)
Lemma C7_continue_ids_witness :
  let continueRequest :=
    {| ContinueRoute.storyId := js "s1";
       ContinueRoute.existingParagraphs := [js "Once."; js "Twice."];
       ContinueRoute.genre := js "fantasy";
       ContinueRoute.additionalParagraphs := None |} in
  let generated :=
    Ok (jq "{'paragraphs':[{'text':'a','imagePrompt':'x'},{'text':'b','imagePrompt':'y'}]}") in
  let style := js ", magical, ethereal, fantasy art style, detailed, high quality, 8k resolution" in
  let first :=
    {| ContinueRoute.id := 3; ContinueRoute.text := Some (JString (js "a"));
       ContinueRoute.imagePrompt := js "x" ++ style |} in
  let second :=
    {| ContinueRoute.id := 4; ContinueRoute.text := Some (JString (js "b"));
       ContinueRoute.imagePrompt := js "y" ++ style |} in
  ContinueRoute.POST continueRequest generated = ContinueRoute.NewParagraphs [first; second]
  /\ nth_error [first; second] 1 = Some second
  /\ ContinueRoute.id second = 4%Z.
Proof.
  intros continueRequest generated style first second.
  assert (Hpost : ContinueRoute.POST continueRequest generated
                  = ContinueRoute.NewParagraphs [first; second])
    by (vm_compute; reflexivity).
  assert (Hnth : nth_error [first; second] 1 = Some second) by reflexivity.
  split; [exact Hpost|]. split; [exact Hnth|].
  exact (C7_continue_ids_are_consecutive continueRequest generated _ 1 _ Hpost Hnth).
Defined.

(** ** The provider constructors *)

(** C9, as stated, fails: with no variable set at all, the hosted text
    provider A and the hosted image provider A are constructed without an
    error, directly and through their factories. *)
Lemma C9_construction_without_key_succeeds :
  let env : environment := fun _ => None in
  credential_missing env "DEEPINFRA_API_KEY"
  /\ credential_missing env "REPLICATE_API_TOKEN"
  /\ (forall e, LLMFactory.new_DeepInfraProvider env no_config <> Throw e)
  /\ (forall e, ImageFactory.new_ReplicateImageProvider env None <> Throw e)
  /\ (exists p, LLMFactory.createLLMProvider env (js "deepinfra") no_config
                = Ok (LLMFactory.DeepInfra p))
  /\ (exists p, ImageFactory.createImageProvider env (js "replicate") None
                = Ok (ImageFactory.Replicate p)).
Proof.
  repeat split; try discriminate; eexists; reflexivity.
Qed.

Section Credentials.

(** The key of the SDK providers is the first of the two variables that
    is set and not empty; it is missing when both are. *)
Lemma gemini_key_missing (env : environment) :
  or_else (env (js "GEMINI_API_KEY")) (or_else (env (js "GOOGLE_API_KEY")) []) = []
  <-> credential_missing env "GEMINI_API_KEY" /\ credential_missing env "GOOGLE_API_KEY".
Proof.
  unfold credential_missing.
  destruct (env (js "GEMINI_API_KEY")) as [[|c key]|];
    destruct (env (js "GOOGLE_API_KEY")) as [[|d key']|]; cbn [or_else];
    (split;
     [intros H; try discriminate H; split; reflexivity
     |intros [H1 H2]; try discriminate H1; try discriminate H2; reflexivity]).
Qed.

End Credentials.

(** C9, amended.  Each hosted provider with the credential of its own,
    whatever the other variables hold.  The two providers built on the
    multimodal SDK raise the error in their constructor, and so through
    their factory, exactly when both of their variables are missing.  The
    two other hosted providers are always constructed; each reports
    itself unhealthy exactly when its variable is missing, and its first
    call then raises the error before any request is sent, while with the
    variable set the call goes to the service. *)
Theorem C9_missing_credential
  (env : environment) (c : LLMFactory.config) (model : option jstring) :
  ((LLMFactory.new_GeminiProvider env c = Throw (Error (js "Gemini API key not configured"))
    <-> credential_missing env "GEMINI_API_KEY" /\ credential_missing env "GOOGLE_API_KEY")
   /\ (LLMFactory.createLLMProvider env (js "gemini") c
       = Throw (Error (js "Gemini API key not configured"))
       <-> credential_missing env "GEMINI_API_KEY" /\ credential_missing env "GOOGLE_API_KEY")
   /\ ((exists p, LLMFactory.createLLMProvider env (js "gemini") c = Ok (LLMFactory.Gemini p))
       <-> ~ (credential_missing env "GEMINI_API_KEY"
              /\ credential_missing env "GOOGLE_API_KEY")))
  /\ ((ImageFactory.new_GeminiImageProvider env model
       = Throw (Error (js "Gemini API key not configured"))
       <-> credential_missing env "GEMINI_API_KEY" /\ credential_missing env "GOOGLE_API_KEY")
      /\ (ImageFactory.createImageProvider env (js "gemini") model
          = Throw (Error (js "Gemini API key not configured"))
          <-> credential_missing env "GEMINI_API_KEY" /\ credential_missing env "GOOGLE_API_KEY")
      /\ ((exists p, ImageFactory.createImageProvider env (js "gemini") model
                      = Ok (ImageFactory.GeminiImage p))
          <-> ~ (credential_missing env "GEMINI_API_KEY"
                 /\ credential_missing env "GOOGLE_API_KEY")))
  /\ (exists p,
        LLMFactory.new_DeepInfraProvider env c = Ok p
        /\ LLMFactory.createLLMProvider env (js "deepinfra") c = Ok (LLMFactory.DeepInfra p)
        /\ (LLMFactory.DeepInfra_checkHealth p = false
            <-> credential_missing env "DEEPINFRA_API_KEY")
        /\ forall prompt remote,
             (credential_missing env "DEEPINFRA_API_KEY" ->
              LLMFactory.DeepInfra_generateText p prompt remote
              = Throw (Error (js "DeepInfra API key not configured")))
             /\ (~ credential_missing env "DEEPINFRA_API_KEY" ->
                 LLMFactory.DeepInfra_generateText p prompt remote = remote))
  /\ (exists p,
        ImageFactory.new_ReplicateImageProvider env model = Ok p
        /\ ImageFactory.createImageProvider env (js "replicate") model
           = Ok (ImageFactory.Replicate p)
        /\ (ImageFactory.Replicate_checkHealth p = false
            <-> credential_missing env "REPLICATE_API_TOKEN")
        /\ forall prompt remote,
             (credential_missing env "REPLICATE_API_TOKEN" ->
              ImageFactory.Replicate_generateImage p prompt remote
              = Throw (Error (js "Replicate API key not configured")))
             /\ (~ credential_missing env "REPLICATE_API_TOKEN" ->
                 ImageFactory.Replicate_generateImage p prompt remote = remote)).
Proof.
  pose proof (gemini_key_missing env) as Hkey.
  assert (Htext : LLMFactory.createLLMProvider env (js "gemini") c
                  = (p <-r LLMFactory.new_GeminiProvider env c; Ok (LLMFactory.Gemini p)))
    by reflexivity.
  assert (Himage : ImageFactory.createImageProvider env (js "gemini") model
                   = (p <-r ImageFactory.new_GeminiImageProvider env model;
                      Ok (ImageFactory.GeminiImage p)))
    by reflexivity.
  split; [|split; [|split]].
  - rewrite Htext. unfold LLMFactory.new_GeminiProvider.
    destruct (or_else (env (js "GEMINI_API_KEY")) (or_else (env (js "GOOGLE_API_KEY")) []))
      as [|k key]; cbn [rbind].
    + assert (HK : credential_missing env "GEMINI_API_KEY"
                   /\ credential_missing env "GOOGLE_API_KEY") by (apply Hkey; reflexivity).
      split; [split; [intros _; exact HK | intros _; reflexivity]|].
      split; [split; [intros _; exact HK | intros _; reflexivity]|].
      split; [intros [p Hp]; discriminate Hp | intros Hn; destruct (Hn HK)].
    + assert (HK : ~ (credential_missing env "GEMINI_API_KEY"
                      /\ credential_missing env "GOOGLE_API_KEY"))
        by (intros Hm; apply Hkey in Hm; discriminate Hm).
      split; [split; [discriminate | intros Hm; destruct (HK Hm)]|].
      split; [split; [discriminate | intros Hm; destruct (HK Hm)]|].
      split; [intros _; exact HK | intros _; eexists; reflexivity].
  - rewrite Himage. unfold ImageFactory.new_GeminiImageProvider.
    destruct (or_else (env (js "GEMINI_API_KEY")) (or_else (env (js "GOOGLE_API_KEY")) []))
      as [|k key]; cbn [rbind].
    + assert (HK : credential_missing env "GEMINI_API_KEY"
                   /\ credential_missing env "GOOGLE_API_KEY") by (apply Hkey; reflexivity).
      split; [split; [intros _; exact HK | intros _; reflexivity]|].
      split; [split; [intros _; exact HK | intros _; reflexivity]|].
      split; [intros [p Hp]; discriminate Hp | intros Hn; destruct (Hn HK)].
    + assert (HK : ~ (credential_missing env "GEMINI_API_KEY"
                      /\ credential_missing env "GOOGLE_API_KEY"))
        by (intros Hm; apply Hkey in Hm; discriminate Hm).
      split; [split; [discriminate | intros Hm; destruct (HK Hm)]|].
      split; [split; [discriminate | intros Hm; destruct (HK Hm)]|].
      split; [intros _; exact HK | intros _; eexists; reflexivity].
  - eexists. split; [reflexivity|]. split; [reflexivity|].
    unfold LLMFactory.DeepInfra_checkHealth, LLMFactory.DeepInfra_generateText,
      credential_missing; cbn [LLMFactory.deepinfra_apiKey].
    destruct (or_else (env (js "DEEPINFRA_API_KEY")) []) as [|k key].
    + split; [tauto|]. intros prompt remote. split; [reflexivity | intros Hn; now destruct Hn].
    + split; [split; discriminate|]. intros prompt remote. split; [discriminate | reflexivity].
  - eexists. split; [reflexivity|]. split; [reflexivity|].
    unfold ImageFactory.Replicate_checkHealth, ImageFactory.Replicate_generateImage,
      credential_missing; cbn [ImageFactory.replicate_apiKey].
    destruct (or_else (env (js "REPLICATE_API_TOKEN")) []) as [|k key].
    + split; [tauto|]. intros prompt remote. split; [reflexivity | intros Hn; now destruct Hn].
    + split; [split; discriminate|]. intros prompt remote. split; [discriminate | reflexivity].
Qed.

(** An environment that holds the credential of the text provider A only:
    that provider answers, the image provider A is built and refuses its
    first call, and the SDK providers are not built. *)
Lemma C9_missing_credential_witness :
  let env : environment :=
    fun name => if str_eqb name (js "DEEPINFRA_API_KEY") then Some (js "k-1") else None in
  LLMFactory.new_GeminiProvider env no_config = Throw (Error (js "Gemini API key not configured"))
  /\ (exists p, LLMFactory.new_DeepInfraProvider env no_config = Ok p
        /\ LLMFactory.DeepInfra_checkHealth p = true
        /\ LLMFactory.DeepInfra_generateText p (js "Once") (Ok (js "upon a time"))
           = Ok (js "upon a time"))
  /\ (exists p, ImageFactory.new_ReplicateImageProvider env None = Ok p
        /\ ImageFactory.Replicate_checkHealth p = false
        /\ ImageFactory.Replicate_generateImage p (js "a castle") (Ok (js "https://x/1.png"))
           = Throw (Error (js "Replicate API key not configured"))).
Proof.
  intros env.
  destruct (C9_missing_credential env no_config None)
    as ((Hg & _ & _) & _ & (p & Hp & _ & Hh & Hcall) & (q & Hq & _ & Hhq & Hcallq)).
  split; [apply Hg; split; reflexivity|].
  split.
  - exists p. split; [exact Hp|]. split.
    + destruct (LLMFactory.DeepInfra_checkHealth p); [reflexivity|].
      exfalso. assert (Hm : credential_missing env "DEEPINFRA_API_KEY") by (apply Hh; reflexivity).
      discriminate Hm.
    + apply Hcall. intros Hm. discriminate Hm.
  - exists q. split; [exact Hq|]. split.
    + apply Hhq. reflexivity.
    + apply Hcallq. reflexivity.
Defined.

(** ** The placeholder picture *)

Section MockImage.
Import ImageFactory IMAGE_CONSTANTS.

Section Rounding.
Local Open Scope Z_scope.

Lemma digits2_size p : digits2_pos p = Pos.size p.
Proof. induction p as [p IH|p IH|]; cbn [digits2_pos Pos.size]; congruence. Qed.

Lemma digits2_bounds p : 2 ^ (Z.pos (digits2_pos p) - 1) <= Z.pos p < 2 ^ Z.pos (digits2_pos p).
Proof.
  rewrite digits2_size. split.
  - pose proof (Pos.size_le p) as H. apply Pos2Z.pos_le_pos in H.
    rewrite Pos2Z.inj_pow in H. change (Z.pos p~0) with (2 * Z.pos p) in H.
    replace (Z.pos (Pos.size p)) with (Z.pos (Pos.size p) - 1 + 1) in H by lia.
    rewrite Z.pow_add_r in H by lia. change (2 ^ 1) with 2 in H. lia.
  - pose proof (Pos.size_gt p) as H. apply Pos2Z.pos_lt_pos in H.
    rewrite Pos2Z.inj_pow in H. exact H.
Qed.

Lemma shr_1_m x : 0 <= shr_m x -> shr_m (shr_1 x) = shr_m x / 2 /\ (shr_r (shr_1 x) = true -> shr_m x mod 2 = 1).
Proof.
  destruct x as [m r s]. cbn [shr_m]. intros Hm.
  destruct m as [|[p|p|]|p]; cbn [shr_1 shr_m shr_r]; try lia.
  - split; [reflexivity | discriminate].
  - split; [|intros _]. 
    + change (Z.pos p~1) with (2 * Z.pos p + 1).
      apply Z.div_unique with 1; lia.
    + change (Z.pos p~1) with (2 * Z.pos p + 1).
      symmetry. apply Z.mod_unique with (Z.pos p); lia.
  - split; [|discriminate].
    change (Z.pos p~0) with (2 * Z.pos p). apply Z.div_unique with 0; lia.
  - split; reflexivity.
Qed.

Lemma shifted_step P k x : 0 <= P -> 0 <= k -> shifted P k x -> shifted P (k + 1) (shr_1 x).
Proof.
  intros HP Hk [Hm Hr].
  assert (H2k : 0 < 2 ^ k) by (apply Z.pow_pos_nonneg; lia).
  assert (Hm0 : 0 <= shr_m x) by (rewrite Hm; apply Z.div_pos; lia).
  destruct (shr_1_m x Hm0) as [Hm1 Hr1].
  split.
  - rewrite Hm1, Hm. rewrite Z.pow_add_r by lia. change (2 ^ 1) with 2.
    apply Z.div_div; lia.
  - intros Hround. specialize (Hr1 Hround). rewrite Hm in Hr1.
    rewrite Z.pow_add_r by lia. change (2 ^ 1) with 2.
    rewrite Z.rem_mul_r by lia. rewrite Hr1.
    pose proof (Z.mod_pos_bound P (2 ^ k) H2k). lia.
Qed.

Lemma shifted_iter P : forall p k x,
  0 <= P -> 0 <= k -> shifted P k x -> shifted P (k + Z.pos p) (SpecFloat.iter_pos shr_1 p x).
Proof.
  induction p as [p IH|p IH|]; intros k x HP Hk Hx; cbn [iter_pos].
  - replace (k + Z.pos p~1) with (k + 1 + Z.pos p + Z.pos p) by lia.
    apply IH; [lia | lia|]. apply IH; [lia | lia|]. apply shifted_step; assumption.
  - replace (k + Z.pos p~0) with (k + Z.pos p + Z.pos p) by lia.
    apply IH; [lia | lia|]. apply IH; assumption.
  - apply shifted_step; assumption.
Qed.

Lemma shifted_start P : shifted P 0 {| shr_m := P; shr_r := false; shr_s := false |}.
Proof. split; [cbn; rewrite Z.div_1_r; reflexivity | discriminate]. Qed.

(** The mantissa after the shift and the rounding to nearest. *)
Lemma rounded_bound P n x :
  0 <= P -> 0 <= n -> shifted P n x ->
  0 <= round_nearest_even (shr_m x) (loc_of_shr_record x)
  /\ 2 * 2 ^ n * round_nearest_even (shr_m x) (loc_of_shr_record x) <= 2 * P + 2 ^ n.
Proof.
  intros HP Hn [Hm Hr].
  assert (H2n : 0 < 2 ^ n) by (apply Z.pow_pos_nonneg; lia).
  pose proof (Z.div_mod P (2 ^ n) ltac:(lia)) as Hdm.
  pose proof (Z.mod_pos_bound P (2 ^ n) H2n) as Hmod.
  assert (Hq : 0 <= P / 2 ^ n) by (apply Z.div_pos; lia).
  destruct x as [m r s]. cbn [shr_m shr_r] in *. subst m.
  destruct r, s; cbn [loc_of_shr_record round_nearest_even].
  - specialize (Hr eq_refl). split; [lia | nia].
  - specialize (Hr eq_refl). destruct (Z.even (P / 2 ^ n)); split; try lia; nia.
  - split; [lia | nia].
  - split; [lia | nia].
Qed.

Lemma fexp_small x : x <= 3 -> fexp 53 1024 x <= -50.
Proof. unfold fexp, emin. lia. Qed.

Lemma pow2_pos k : 0 <= k -> 0 < 2 ^ k.
Proof. intros; apply Z.pow_pos_nonneg; lia. Qed.

Lemma digits_exponent (m F : Z) :
  0 <= m -> F <= -50 -> m < 6 * 2 ^ (- F) -> Zdigits2 m + F <= 3.
Proof.
  intros Hm HF Hlt. destruct m as [|p|p]; [cbn; lia| |lia].
  cbn [Zdigits2]. pose proof (digits2_bounds p) as [Hlo _].
  assert (H8 : 6 * 2 ^ (- F) < 2 ^ (3 - F)).
  { replace (3 - F) with (3 + - F) by lia. rewrite Z.pow_add_r by lia.
    pose proof (pow2_pos (- F) ltac:(lia)). change (2 ^ 3) with 8. lia. }
  assert (Hpow : 2 ^ (Z.pos (digits2_pos p) - 1) < 2 ^ (3 - F)) by lia.
  apply Z.pow_lt_mono_r_iff in Hpow; lia.
Qed.

(** The second normalisation leaves the value where it is or below. *)
Lemma second_stage (mr F : Z) :
  0 <= mr -> F <= -50 -> mr < 6 * 2 ^ (- F) ->
  shr_m (shr_fexp 53 1024 mr F loc_Exact).1 = 0
  \/ exists m, shr_m (shr_fexp 53 1024 mr F loc_Exact).1 = Z.pos m
               /\ (shr_fexp 53 1024 mr F loc_Exact).2 <= -50
               /\ Z.pos m < 6 * 2 ^ (- (shr_fexp 53 1024 mr F loc_Exact).2).
Proof.
  intros Hm HF Hlt. unfold shr_fexp, shr. cbn [shr_record_of_loc].
  pose proof (fexp_small _ (digits_exponent mr F Hm HF Hlt)) as He.
  destruct (fexp 53 1024 (Zdigits2 mr + F) - F) as [|p|p] eqn:En; cbn [fst snd shr_m].
  - destruct mr as [|m|m]; [left; reflexivity | right | lia].
    exists m. split; [reflexivity|]. split; [exact HF | exact Hlt].
  - pose proof (shifted_iter mr p 0 _ Hm ltac:(lia) (shifted_start mr)) as [Hs _].
    rewrite Z.add_0_l in Hs. rewrite Hs.
    assert (Hq : 0 <= mr / 2 ^ Z.pos p) by (apply Z.div_pos; [lia | apply pow2_pos; lia]).
    destruct (mr / 2 ^ Z.pos p) as [|m|m] eqn:Eq; [left; reflexivity | right | lia].
    exists m. split; [reflexivity|]. split; [lia|].
    rewrite <- Eq. apply Z.div_lt_upper_bound; [apply pow2_pos; lia|].
    replace (- F) with (Z.pos p + - (F + Z.pos p)) in Hlt by lia.
    rewrite Z.pow_add_r in Hlt by lia. lia.
  - destruct mr as [|m|m]; [left; reflexivity | right | lia].
    exists m. split; [reflexivity|]. split; [exact HF | exact Hlt].
Qed.

(** A product below [6 * (1 - 2 ^ -53)], rounded to a double and
    floored, is an index from 0 to 5. *)
Lemma rounded_product_index (P : positive) (a : Z) :
  103 <= a ->
  Z.pos P * 2 ^ 53 + 6 * 2 ^ a <= 6 * 2 ^ (a + 53) ->
  exists i, Number.floor_index (binary_round_aux 53 1024 false (Z.pos P) (- a) loc_Exact) = Some i
            /\ (i < 6)%nat.
Proof.
  intros Ha HP.
  assert (H2a : 0 < 2 ^ a) by (apply pow2_pos; lia).
  assert (HPa : Z.pos P < 6 * 2 ^ a).
  { rewrite Z.pow_add_r in HP by lia. pose proof (pow2_pos 53 ltac:(lia)). nia. }
  assert (Hstage : forall mr F, 0 <= mr -> F <= -50 -> mr < 6 * 2 ^ (- F) ->
            exists i,
              Number.floor_index
                (let '(mrs, e) := shr_fexp 53 1024 mr F loc_Exact in
                 match shr_m mrs with
                 | 0 => S754_zero false
                 | Z.pos m => if e <=? 1024 - 53 then S754_finite false m e else S754_infinity false
                 | Z.neg _ => S754_nan
                 end) = Some i /\ (i < 6)%nat).
  { intros mr F Hm HF Hlt.
    destruct (second_stage mr F Hm HF Hlt) as [H0|(m & Hpos & He & Hbound)];
      destruct (shr_fexp 53 1024 mr F loc_Exact) as [mrs e]; cbn [fst snd] in *.
    - rewrite H0. exists 0%nat. split; [reflexivity | lia].
    - rewrite Hpos. replace (e <=? 1024 - 53) with true by (symmetry; apply Z.leb_le; lia).
      cbn [Number.floor_index]. eexists. split; [reflexivity|].
      rewrite Z.shiftl_div_pow2 by lia.
      assert (Hq : Z.pos m / 2 ^ (- e) < 6)
        by (apply Z.div_lt_upper_bound; [apply pow2_pos; lia | lia]).
      assert (Hq0 : 0 <= Z.pos m / 2 ^ (- e)) by (apply Z.div_pos; [lia | apply pow2_pos; lia]).
      lia. }
  unfold binary_round_aux.
  assert (Hd : Zdigits2 (Z.pos P) + - a <= 3).
  { apply (digits_exponent (Z.pos P) (- a)); [lia | lia|].
    rewrite Z.opp_involutive. exact HPa. }
  pose proof (fexp_small _ Hd) as HF.
  destruct (shr_fexp 53 1024 (Z.pos P) (- a) loc_Exact) as [mrs' e'] eqn:E1.
  assert (Hfacts : 0 <= round_nearest_even (shr_m mrs') (loc_of_shr_record mrs')
                   /\ e' <= -50
                   /\ round_nearest_even (shr_m mrs') (loc_of_shr_record mrs') < 6 * 2 ^ (- e')).
  { unfold shr_fexp, shr in E1. cbn [shr_record_of_loc] in E1.
    destruct (fexp 53 1024 (Zdigits2 (Z.pos P) + - a) - - a) as [|n|n] eqn:En;
      inversion E1; subst mrs' e'; clear E1.
    - cbn [shr_m loc_of_shr_record round_nearest_even].
      split; [lia|]. split; [lia|]. rewrite Z.opp_involutive. exact HPa.
    - pose proof (shifted_iter (Z.pos P) n 0 _ ltac:(lia) ltac:(lia) (shifted_start (Z.pos P)))
        as Hsh.
      rewrite Z.add_0_l in Hsh.
      destruct (rounded_bound (Z.pos P) (Z.pos n) _ ltac:(lia) ltac:(lia) Hsh) as [Hr0 Hr].
      set (mr := round_nearest_even _ _) in *.
      split; [exact Hr0|]. split; [lia|].
      assert (Hn : Z.pos n <= a - 50) by lia.
      assert (H2n : 0 < 2 ^ Z.pos n) by (apply pow2_pos; lia).
      assert (Hsplit : 2 ^ a = 2 ^ Z.pos n * 2 ^ (a - Z.pos n)).
      { rewrite <- Z.pow_add_r by lia. f_equal. lia. }
      replace (- (- a + Z.pos n)) with (a - Z.pos n) by lia.
      assert (Hk : 2 ^ 50 <= 2 ^ (a - Z.pos n)) by (apply Z.pow_le_mono_r; lia).
      rewrite Z.pow_add_r in HP by lia.
      assert (H53 : 2 ^ 53 = 9007199254740992) by reflexivity.
      assert (H50 : 2 ^ 50 = 1125899906842624) by reflexivity.
      rewrite H53 in HP. rewrite H50 in Hk.
      set (A := 2 ^ a) in *. set (N := 2 ^ Z.pos n) in *. set (K := 2 ^ (a - Z.pos n)) in *.
      nia.
    - cbn [shr_m loc_of_shr_record round_nearest_even].
      split; [lia|]. split; [lia|]. rewrite Z.opp_involutive. exact HPa. }
  destruct Hfacts as (Hr0 & He' & Hlt).
  exact (Hstage _ _ Hr0 He' Hlt).
Qed.

(** A valid double below 1 has at most 53 digits and an exponent of
    -53 at most. *)
Lemma unit_draw_finite m e :
  Number.unit_draw (S754_finite false m e) = true -> Z.pos m < 2 ^ 53 /\ e <= -53.
Proof.
  unfold Number.unit_draw, Number.prec, Number.emax. rewrite !andb_true_iff. intros [[Hvalid _] Hlt].
  unfold valid_binary, bounded, canonical_mantissa in Hvalid.
  apply andb_true_iff in Hvalid. destruct Hvalid as [Hcanon _].
  apply Z.eqb_eq in Hcanon. unfold fexp, emin in Hcanon.
  pose proof (digits2_bounds m) as [Hlo Hhi].
  assert (Hdigits : Z.pos (digits2_pos m) <= 53) by lia.
  split.
  - eapply Z.lt_le_trans; [exact Hhi|]. apply Z.pow_le_mono_r; lia.
  - unfold SFltb, SFcompare in Hlt.
    change (SFone 53 1024) with (S754_finite false 4503599627370496 (-52)) in Hlt.
    cbv iota in Hlt.
    destruct (e ?= -52) eqn:Ec; try discriminate Hlt.
    + apply Z.compare_eq in Ec. subst e.
      assert (Hm52 : Z.pos m < 2 ^ 52).
      { change (2 ^ 52) with (Z.pos 4503599627370496).
        apply Pos2Z.pos_lt_pos. apply Pos.compare_cont_Lt_Lt in Hlt || idtac.
        destruct (Pos.compare_cont Eq m 4503599627370496) eqn:Ecmp; try discriminate Hlt.
        apply Pos.compare_lt_iff. exact Ecmp. }
      assert (Hd52 : Z.pos (digits2_pos m) <= 52).
      { destruct (Z_le_gt_dec (Z.pos (digits2_pos m)) 52) as [H|H]; [exact H|].
        exfalso. assert (H52 : 2 ^ 52 <= 2 ^ (Z.pos (digits2_pos m) - 1))
          by (apply Z.pow_le_mono_r; lia). lia. }
      lia.
    + rewrite Z.compare_lt_iff in Ec. clear -Ec. lia.
Qed.

(** The index that a draw selects lies in the palette. *)
Lemma unit_draw_index r :
  Number.unit_draw r = true -> exists i, palette_index r = Some i /\ (i < 6)%nat.
Proof.
  intros Hr. unfold palette_index, Number.mul.
  change (Number.of_Z (Z.of_nat (length COLORS))) with (S754_finite false 6755399441055744 (-50)).
  change Number.prec with 53. change Number.emax with 1024.
  destruct r as [s|s| |s m e].
  - exists 0%nat. split; [reflexivity | lia].
  - destruct s; discriminate Hr.
  - discriminate Hr.
  - destruct s.
    { unfold Number.unit_draw in Hr. rewrite !andb_true_iff in Hr.
      destruct Hr as [[_ Hle] _]. discriminate Hle. }
    destruct (unit_draw_finite m e Hr) as [Hm He].
    cbn [SFmul xorb]. replace (e + -50) with (- (50 - e)) by lia.
    apply rounded_product_index; [lia|].
    rewrite Pos2Z.inj_mul.
    change (Z.pos 6755399441055744) with (6 * 2 ^ 50).
    assert (H2 : 2 ^ 103 <= 2 ^ (50 - e)) by (apply Z.pow_le_mono_r; lia).
    rewrite Z.pow_add_r by lia.
    assert (H53 : 2 ^ 53 = 9007199254740992) by reflexivity.
    assert (H50 : 2 ^ 50 = 1125899906842624) by reflexivity.
    assert (H103 : 2 ^ 103 = 10141204801825835211973625643008) by reflexivity.
    rewrite H53 in *. rewrite H50. rewrite H103 in H2.
    set (A := 2 ^ (50 - e)) in *. nia.
Qed.

End Rounding.

(** The product is the rounded one: at the draw 0.8333333333333333 the
    exact product is below 5 and the product of the doubles is 5. *)
Lemma rounded_product_reaches_five :
  let draw := Number.of_lexeme (js "0.8333333333333333") in
  draw = S754_finite false 7505999378950826 (-53)
  /\ Number.unit_draw draw = true
  /\ (7505999378950826 * 6 < 5 * 2 ^ 53)%Z
  /\ palette_index draw = Some 5
  /\ palette_color draw = js "#DDA0DD".
Proof. vm_compute. repeat split; reflexivity. Qed.

Lemma utf8_ascii_app (a b : jstring) :
  forallb (fun c => (c <? 128)%N) a = true -> Encoding.utf8 (a ++ b) = a ++ Encoding.utf8 b.
Proof.
  induction a as [|c a IH]; intros Ha; [reflexivity|].
  cbn [forallb] in Ha. apply andb_true_iff in Ha as [Hc Ha].
  cbn [app Encoding.utf8]. rewrite Hc. f_equal. exact (IH Ha).
Qed.

Lemma base64_app (k : nat) : forall a b,
  length a = 3 * k -> Encoding.base64 (a ++ b) = Encoding.base64 a ++ Encoding.base64 b.
Proof.
  induction k as [|k IH]; intros a b Hlen.
  - destruct a; [reflexivity | discriminate Hlen].
  - destruct a as [|x [|y [|z a]]]; cbn [length] in Hlen; try lia.
    cbn [app Encoding.base64]. rewrite IH by lia. reflexivity.
Qed.

Lemma base64_length (k : nat) : forall a,
  length a = 3 * k -> length (Encoding.base64 a) = 4 * k.
Proof.
  induction k as [|k IH]; intros a Hlen.
  - destruct a; [reflexivity | discriminate Hlen].
  - destruct a as [|x [|y [|z a]]]; cbn [length] in Hlen; try lia.
    cbn [Encoding.base64 length]. rewrite IH by lia. lia.
Qed.

Ltac each_colour H :=
  unfold colour_texts, COLORS in H; cbn [app] in H;
  repeat (destruct H as [H|H]; [subst|]); [..|destruct H].

Lemma head_start_ascii color :
  In color colour_texts ->
  forallb (fun c => (c <? 128)%N) (head_start color) = true /\ length (head_start color) = 3 * 80.
Proof. intros H. each_colour H; vm_compute; split; reflexivity. Qed.

(** The picture begins with the Base64 text of the start of the SVG. *)
Lemma picture_start color prompt :
  In color colour_texts ->
  exists rest,
    picture color prompt
    = js "data:image/svg+xml;base64," ++ Encoding.base64 (head_start color) ++ rest.
Proof.
  intros Hin. destruct (head_start_ascii color Hin) as [Hascii Hlen].
  eexists. unfold picture. rewrite <- (firstn_skipn head_length (svg_head color)) at 1.
  fold (head_start color). rewrite <- app_assoc.
  rewrite (utf8_ascii_app _ _ Hascii), (base64_app 80 _ _ Hlen).
  reflexivity.
Qed.

(** Pictures of one prompt in two colours differ. *)
Lemma picture_injective c1 c2 prompt :
  In c1 colour_texts -> In c2 colour_texts -> picture c1 prompt = picture c2 prompt -> c1 = c2.
Proof.
  intros H1 H2 E.
  destruct (picture_start c1 prompt H1) as [rest1 E1].
  destruct (picture_start c2 prompt H2) as [rest2 E2].
  rewrite E1, E2 in E. apply app_inv_head in E.
  apply app_inj_1 in E.
  2:{ rewrite !(base64_length 80) by (apply head_start_ascii; assumption). reflexivity. }
  destruct E as [E _]. clear E1 E2.
  each_colour H1; each_colour H2; try reflexivity; vm_compute in E; discriminate E.
Qed.

Lemma palette_color_text random : In (palette_color random) colour_texts.
Proof.
  unfold palette_color, colour_texts.
  destruct (palette_index random) as [i|]; [|apply in_or_app; right; left; reflexivity].
  destruct (nth_error COLORS i) as [c|] eqn:E; cbn [default].
  - apply in_or_app. left. exact (nth_error_In _ _ E).
  - apply in_or_app. right. left. reflexivity.
Qed.

Lemma palette_color_index i j :
  i < 6 -> j < 6 -> nth_error COLORS i = nth_error COLORS j -> i = j.
Proof.
  intros Hi Hj E.
  do 6 (destruct i as [|i]; [do 6 (destruct j as [|j]; [first [reflexivity | discriminate E]|]); lia|]).
  lia.
Qed.

Lemma Mock_generateImage_picture prompt random :
  Mock_generateImage prompt random = picture (palette_color random) prompt.
Proof.
  unfold Mock_generateImage, palette_color, palette_index, picture.
  destruct (Number.floor_index _); reflexivity.
Qed.

End MockImage.

(** C8, as stated, fails: two invocations with the same prompt whose
    draws of [Math.random()] are 0 and 0.5 return data URIs of different
    colours. *)
Lemma C8_same_prompt_different_images :
  Number.unit_draw (Number.of_lexeme (js "0")) = true
  /\ Number.unit_draw (Number.of_lexeme (js "0.5")) = true
  /\ ImageFactory.Mock_generateImage (js "a castle") (Number.of_lexeme (js "0"))
     <> ImageFactory.Mock_generateImage (js "a castle") (Number.of_lexeme (js "0.5")).
Proof.
  split; [reflexivity|]. split; [reflexivity|].
  intros H. vm_compute in H. discriminate H.
Qed.

(** C8, amended.  The data URI is a function of the prompt and of the
    palette entry that the random draw selects, and of nothing else: two
    invocations with the same prompt return the same string exactly when
    the floors of the two products [Math.random() * COLORS.length], each
    rounded to a double, are the same index.  That index is one of the
    six of the palette, and the string is the Base64 text of an SVG that
    carries the prompt cut at 150 code units and the colour at that
    index. *)
Theorem C8_mock_image_determined_by_prompt_and_draw (prompt : jstring) (r1 r2 : Number.double) :
  Number.unit_draw r1 = true -> Number.unit_draw r2 = true ->
  (ImageFactory.Mock_generateImage prompt r1 = ImageFactory.Mock_generateImage prompt r2
   <-> Number.floor_index (Number.mul r1 (Number.of_Z 6))
       = Number.floor_index (Number.mul r2 (Number.of_Z 6)))
  /\ exists i color,
       Number.floor_index (Number.mul r1 (Number.of_Z 6)) = Some i
       /\ nth_error IMAGE_CONSTANTS.COLORS i = Some color
       /\ ImageFactory.Mock_generateImage prompt r1
          = js "data:image/svg+xml;base64,"
            ++ Encoding.base64 (Encoding.utf8
                 (ImageFactory.svg_head color
                  ++ (firstn 150 prompt ++ (if 150 <? length prompt then js "..." else []))
                  ++ ImageFactory.svg_tail)).
Proof.
  intros H1 H2.
  destruct (unit_draw_index r1 H1) as (i & Ei & Hi).
  destruct (unit_draw_index r2 H2) as (j & Ej & Hj).
  change (Number.floor_index (Number.mul r1 (Number.of_Z 6))) with (palette_index r1).
  change (Number.floor_index (Number.mul r2 (Number.of_Z 6))) with (palette_index r2).
  rewrite !Mock_generateImage_picture.
  destruct (nth_error IMAGE_CONSTANTS.COLORS i) as [ci|] eqn:Eci;
    [|apply nth_error_None in Eci; cbn in Eci; lia].
  destruct (nth_error IMAGE_CONSTANTS.COLORS j) as [cj|] eqn:Ecj;
    [|apply nth_error_None in Ecj; cbn in Ecj; lia].
  assert (Ec1 : palette_color r1 = ci) by (unfold palette_color; rewrite Ei, Eci; reflexivity).
  assert (Ec2 : palette_color r2 = cj) by (unfold palette_color; rewrite Ej, Ecj; reflexivity).
  split.
  - split.
    + intros E. apply picture_injective in E; try apply palette_color_text.
      rewrite Ei, Ej. f_equal. apply palette_color_index; [exact Hi | exact Hj|].
      rewrite Eci, Ecj, <- Ec1, <- Ec2, E. reflexivity.
    + intros E. rewrite Ei, Ej in E. injection E as ->.
      rewrite Ec1, Ec2. rewrite Eci in Ecj. injection Ecj as ->. reflexivity.
  - exists i, ci. split; [exact Ei|]. split; [exact Eci|]. rewrite Ec1. reflexivity.
Qed.

Lemma C8_mock_image_witness :
  ImageFactory.Mock_generateImage (js "a castle") (Number.of_lexeme (js "0.5"))
  = ImageFactory.Mock_generateImage (js "a castle") (Number.of_lexeme (js "0.625")).
Proof.
  apply (C8_mock_image_determined_by_prompt_and_draw (js "a castle")
           (Number.of_lexeme (js "0.5")) (Number.of_lexeme (js "0.625")));
    reflexivity.
Defined.

(** ** [parseWithFallback] never throws *)


(** The strategies in terms of the texts they try, in order. *)
Lemma parseWithFallback_first_parsed jsonString fallback :
  JSONUtils.parseWithFallback jsonString fallback
  = Ok (default (fallback_or_null fallback) (first_parsed (candidates jsonString))).
Proof.
  unfold JSONUtils.parseWithFallback, candidates, JSONUtils.try_parse, try_catch, rbind.
  simpl first_parsed.
  destruct (parse (trim jsonString)) as [v|e]; [reflexivity|].
  destruct (Regex.match_ JSONUtils.re_braces jsonString) as [m|]; simpl.
  - destruct (parse m) as [v|e']; [reflexivity|].
    destruct (JSONUtils.cleanup jsonString) as [|c0 cs]; simpl.
    + destruct fallback as [fb|]; simpl; [destruct (truthy fb)|]; reflexivity.
    + destruct (parse (c0 :: cs)); simpl; [reflexivity|].
      destruct fallback as [fb|]; simpl; [destruct (truthy fb)|]; reflexivity.
  - destruct (JSONUtils.cleanup jsonString) as [|c0 cs]; simpl.
    + destruct fallback as [fb|]; simpl; [destruct (truthy fb)|]; reflexivity.
    + destruct (parse (c0 :: cs)); simpl; [reflexivity|].
      destruct fallback as [fb|]; simpl; [destruct (truthy fb)|]; reflexivity.
Qed.

(** C10.  For every input string and every fallback, given or not,
    [parseWithFallback] returns a value and throws nothing: the value
    parsed by the first strategy that succeeds, and the fallback or
    [null] when none does. *)
Theorem C10_parseWithFallback_total (jsonString : jstring) (fallback : option json) :
  JSONUtils.parseWithFallback jsonString fallback
  = Ok (default (fallback_or_null fallback) (first_parsed (candidates jsonString))).
Proof. apply parseWithFallback_first_parsed. Qed.


(** ** Reading back what [JSON.stringify] wrote *)

Section StringRoundTrip.

Lemma hex_val_hex_digit n : (n < 16)%N -> hex_val (hex_digit n) = Some n.
Proof.
  intros H. destruct n as [|p]; [reflexivity|].
  do 4 (try destruct p as [p|p|]); try reflexivity; exfalso; lia.
Qed.

Lemma hex4_digits c :
  (c < 65536)%N ->
  hex4 (hex_digit (c / 4096 mod 16)) (hex_digit (c / 256 mod 16))
       (hex_digit (c / 16 mod 16)) (hex_digit (c mod 16)) = Some c.
Proof.
  intros H. unfold hex4.
  rewrite !hex_val_hex_digit by (apply N.mod_lt; discriminate).
  f_equal. zify. Z.to_euclidean_division_equations. lia.
Qed.

Lemma parse_chars_plain c s :
  (c =? 34)%N = false -> (c =? 92)%N = false -> (c <? 32)%N = false ->
  parse_chars (c :: s) = read_more c s.
Proof. intros H1 H2 H3. simpl. rewrite H1, H2, H3. reflexivity. Qed.

Lemma parse_chars_unicode c s :
  (c < 65536)%N -> parse_chars (unicode_escape c ++ s) = read_more c s.
Proof.
  intros H. unfold unicode_escape.
  change (parse_chars ([92; 117; hex_digit (c / 4096 mod 16); hex_digit (c / 256 mod 16);
                        hex_digit (c / 16 mod 16); hex_digit (c mod 16)]%N ++ s))
    with (match hex4 (hex_digit (c / 4096 mod 16)) (hex_digit (c / 256 mod 16))
                     (hex_digit (c / 16 mod 16)) (hex_digit (c mod 16)), parse_chars s with
          | Some u, Some (str, rest) => Some (u :: str, rest)
          | _, _ => None
          end).
  rewrite hex4_digits by exact H. reflexivity.
Qed.

Lemma parse_chars_quote_cu c s :
  is_high_surrogate c = false -> is_low_surrogate c = false ->
  parse_chars (quote_cu c ++ s) = read_more c s.
Proof.
  intros _ _. unfold quote_cu.
  destruct (c =? 8)%N eqn:E8; [apply N.eqb_eq in E8; subst; reflexivity|].
  destruct (c =? 9)%N eqn:E9; [apply N.eqb_eq in E9; subst; reflexivity|].
  destruct (c =? 10)%N eqn:E10; [apply N.eqb_eq in E10; subst; reflexivity|].
  destruct (c =? 12)%N eqn:E12; [apply N.eqb_eq in E12; subst; reflexivity|].
  destruct (c =? 13)%N eqn:E13; [apply N.eqb_eq in E13; subst; reflexivity|].
  destruct (c =? 34)%N eqn:E34; [apply N.eqb_eq in E34; subst; reflexivity|].
  destruct (c =? 92)%N eqn:E92; [apply N.eqb_eq in E92; subst; reflexivity|].
  destruct (c <? 32)%N eqn:E32.
  - apply parse_chars_unicode. apply N.ltb_lt in E32. lia.
  - apply parse_chars_plain; assumption.
Qed.

Lemma surrogate_plain c :
  is_high_surrogate c || is_low_surrogate c = true ->
  (c =? 34)%N = false /\ (c =? 92)%N = false /\ (c <? 32)%N = false /\ (c < 65536)%N.
Proof.
  unfold is_high_surrogate, is_low_surrogate. intros H.
  rewrite orb_true_iff, !andb_true_iff, !N.leb_le in H.
  repeat split; [apply N.eqb_neq | apply N.eqb_neq | apply N.ltb_ge |]; lia.
Qed.

(** A quoted string reads back as the string it quotes. *)
Lemma parse_chars_quote_chars :
  forall n s rest, length s <= n ->
    parse_chars (quote_chars s ++ 34%N :: rest) = Some (s, rest).
Proof.
  induction n as [|n IH]; intros s rest Hlen.
  - destruct s; [reflexivity | simpl in Hlen; lia].
  - destruct s as [|c s']; [reflexivity|]. simpl in Hlen.
    cbn [quote_chars].
    destruct (is_high_surrogate c) eqn:Hh.
    + destruct (surrogate_plain c) as (E1 & E2 & E3 & E4); [rewrite Hh; reflexivity|].
      destruct s' as [|d s''].
      * rewrite parse_chars_unicode by exact E4. reflexivity.
      * destruct (is_low_surrogate d) eqn:Hl.
        -- destruct (surrogate_plain d) as (D1 & D2 & D3 & D4);
             [rewrite Hl; apply orb_true_r|].
           cbn [app]. rewrite parse_chars_plain by assumption. unfold read_more.
           rewrite parse_chars_plain by assumption. unfold read_more.
           simpl in Hlen. rewrite IH by lia. reflexivity.
        -- rewrite <- app_assoc, parse_chars_unicode by exact E4. unfold read_more.
           rewrite IH by lia. reflexivity.
    + destruct (is_low_surrogate c) eqn:Hl.
      * destruct (surrogate_plain c) as (E1 & E2 & E3 & E4); [rewrite Hl; apply orb_true_r|].
        rewrite <- app_assoc, parse_chars_unicode by exact E4. unfold read_more.
        rewrite IH by lia. reflexivity.
      * rewrite <- app_assoc, parse_chars_quote_cu by assumption. unfold read_more.
        rewrite IH by lia. reflexivity.
Qed.

Lemma parse_chars_quote s rest :
  parse_chars (quote_chars s ++ 34%N :: rest) = Some (s, rest).
Proof. apply (parse_chars_quote_chars (length s)). lia. Qed.

End StringRoundTrip.

Section StoryRoundTrip.
Import StoryParsingUtils.

Lemma stringify_paragraph p : stringify (paragraph_to_json p) = paragraph_text p.
Proof.
  unfold paragraph_text, paragraph_to_json. cbn [stringify].
  change (quote (js "text")) with (jq "'text'").
  change (quote (js "imagePrompt")) with (jq "'imagePrompt'").
  rewrite <- !app_assoc. reflexivity.
Qed.

Lemma stringify_paragraphs ps :
  stringify (JArray (List.map paragraph_to_json ps)) = js "[" ++ paragraphs_text ps ++ js "]".
Proof.
  cbn [stringify]. f_equal. f_equal.
  induction ps as [|p ps IH]; [reflexivity|].
  destruct ps as [|p' ps].
  - apply stringify_paragraph.
  - change (List.map paragraph_to_json (p :: p' :: ps))
      with (paragraph_to_json p :: List.map paragraph_to_json (p' :: ps)).
    cbn [List.map] in *. cbv fix beta iota. cbv fix beta iota in IH. rewrite IH.
    rewrite (stringify_paragraph p). reflexivity.
Qed.

Lemma stringify_story st : stringify (story_to_json st) = story_text st.
Proof.
  unfold story_text, story_to_json.
  change (stringify (JObject [(js "preface", JString (preface st));
                              (js "paragraphs", JArray (List.map paragraph_to_json (story_paragraphs st)))]))
    with (js "{" ++ (quote (js "preface") ++ js ":" ++ quote (preface st) ++ js ","
                     ++ quote (js "paragraphs") ++ js ":"
                     ++ stringify (JArray (List.map paragraph_to_json (story_paragraphs st))))
          ++ js "}").
  rewrite stringify_paragraphs. rewrite <- !app_assoc. reflexivity.
Qed.

Lemma skip_ws_nonws c s : json_ws c = false -> skip_ws (c :: s) = c :: s.
Proof. intros H; simpl; rewrite H; reflexivity. Qed.

Lemma parse_value_quote fuel s rest :
  parse_value (S fuel) (quote s ++ rest) = Parsed (JString s) rest.
Proof.
  unfold quote. cbn [app parse_value]. rewrite skip_ws_nonws by reflexivity.
  change (34 =? 123)%N with false. change (34 =? 91)%N with false.
  change (34 =? 34)%N with true. cbv iota.
  rewrite <- app_assoc. cbn [app]. rewrite parse_chars_quote. reflexivity.
Qed.

(** A member [key : value] of an object, followed by a comma or by the
    closing brace. *)
Lemma parse_members_comma fuel acc key s v rest :
  parse_value fuel s = Parsed v (44%N :: rest) ->
  parse_members (S fuel) acc (quote key ++ 58%N :: s)
  = parse_members fuel (set_field key v acc) rest.
Proof.
  intros Hv. unfold quote. cbn [app parse_members].
  rewrite skip_ws_nonws by reflexivity. change (34 =? 34)%N with true. cbv iota.
  rewrite <- app_assoc. cbn [app]. rewrite parse_chars_quote.
  rewrite skip_ws_nonws by reflexivity. change (58 =? 58)%N with true. cbv iota.
  rewrite Hv. rewrite skip_ws_nonws by reflexivity. reflexivity.
Qed.

Lemma parse_members_close fuel acc key s v rest :
  parse_value fuel s = Parsed v (125%N :: rest) ->
  parse_members (S fuel) acc (quote key ++ 58%N :: s)
  = Parsed (set_field key v acc) rest.
Proof.
  intros Hv. unfold quote. cbn [app parse_members].
  rewrite skip_ws_nonws by reflexivity. change (34 =? 34)%N with true. cbv iota.
  rewrite <- app_assoc. cbn [app]. rewrite parse_chars_quote.
  rewrite skip_ws_nonws by reflexivity. change (58 =? 58)%N with true. cbv iota.
  rewrite Hv. rewrite skip_ws_nonws by reflexivity. reflexivity.
Qed.

(** An object whose first member starts right after the brace. *)
Lemma parse_value_object fuel s :
  parse_value (S fuel) (123%N :: 34%N :: s)
  = match parse_members fuel [] (34%N :: s) with
    | Parsed fields rest => Parsed (JObject fields) rest
    | Malformed => Malformed
    | OutOfFuel => OutOfFuel
    end.
Proof.
  cbn [parse_value]. rewrite !skip_ws_nonws by reflexivity. reflexivity.
Qed.

Lemma parse_paragraph fuel p rest :
  parse_value (4 + fuel) (paragraph_text p ++ rest) = Parsed (paragraph_to_json p) rest.
Proof.
  unfold paragraph_text. rewrite <- !app_assoc.
  change (jq "{'text':") with (123%N :: quote (js "text") ++ [58%N]).
  change (jq ",'imagePrompt':") with (44%N :: quote (js "imagePrompt") ++ [58%N]).
  change (js "}") with [125%N].
  cbn [app]. rewrite <- !app_assoc. cbn [app].
  change (quote (js "text") ++ 58%N :: ?x) with (34%N :: (js "text" ++ [34%N]) ++ 58%N :: x).
  change (4 + fuel) with (S (S (S (S fuel)))).
  rewrite parse_value_object.
  change (34%N :: (js "text" ++ [34%N]) ++ 58%N :: ?x) with (quote (js "text") ++ 58%N :: x).
  rewrite (parse_members_comma _ _ _ _ (JString (text p))
             (quote (js "imagePrompt") ++ 58%N :: quote (imagePrompt p) ++ 125%N :: rest))
    by apply parse_value_quote.
  rewrite (parse_members_close _ _ _ _ (JString (imagePrompt p)) rest)
    by apply parse_value_quote.
  reflexivity.
Qed.

Lemma parse_elements_comma fuel s v rest :
  parse_value fuel s = Parsed v (44%N :: rest) ->
  parse_elements (S fuel) s
  = match parse_elements fuel rest with
    | Parsed vs rest' => Parsed (v :: vs) rest'
    | Malformed => Malformed
    | OutOfFuel => OutOfFuel
    end.
Proof.
  intros Hv. cbn [parse_elements]. rewrite Hv.
  rewrite skip_ws_nonws by reflexivity. reflexivity.
Qed.

Lemma parse_elements_close fuel s v rest :
  parse_value fuel s = Parsed v (93%N :: rest) ->
  parse_elements (S fuel) s = Parsed [v] rest.
Proof.
  intros Hv. cbn [parse_elements]. rewrite Hv.
  rewrite skip_ws_nonws by reflexivity. reflexivity.
Qed.

Lemma parse_paragraphs :
  forall ps fuel rest,
    ps <> [] -> length ps + 4 <= fuel ->
    parse_elements fuel (paragraphs_text ps ++ 93%N :: rest)
    = Parsed (List.map paragraph_to_json ps) rest.
Proof.
  induction ps as [|p ps IH]; intros fuel rest Hne Hfuel; [congruence|].
  destruct fuel as [|fuel]; [simpl in Hfuel; lia|].
  simpl in Hfuel.
  destruct ps as [|p' ps].
  - cbn [paragraphs_text List.map].
    apply parse_elements_close.
    replace fuel with (4 + (fuel - 4)) by lia. apply parse_paragraph.
  - change (paragraphs_text (p :: p' :: ps))
      with (paragraph_text p ++ js "," ++ paragraphs_text (p' :: ps)).
    rewrite <- !app_assoc.
    rewrite (parse_elements_comma fuel _ (paragraph_to_json p)
               (paragraphs_text (p' :: ps) ++ 93%N :: rest)).
    + rewrite IH; [reflexivity | discriminate | simpl in *; lia].
    + replace fuel with (4 + (fuel - 4)) by lia. apply parse_paragraph.
Qed.

Lemma paragraph_text_head p :
  exists s, paragraph_text p = 123%N :: 34%N :: s.
Proof. unfold paragraph_text. eexists. reflexivity. Qed.

Lemma paragraphs_text_head p ps :
  exists s, paragraphs_text (p :: ps) = 123%N :: 34%N :: s.
Proof.
  destruct (paragraph_text_head p) as [s Hs].
  destruct ps as [|p' ps]; cbn [paragraphs_text]; rewrite Hs; eexists; reflexivity.
Qed.

Lemma parse_paragraph_array ps fuel rest :
  length ps + 5 <= fuel ->
  parse_value fuel (91%N :: paragraphs_text ps ++ 93%N :: rest)
  = Parsed (JArray (List.map paragraph_to_json ps)) rest.
Proof.
  intros Hfuel. destruct fuel as [|fuel]; [lia|].
  destruct ps as [|p ps].
  - cbn [paragraphs_text app parse_value].
    rewrite !skip_ws_nonws by reflexivity. reflexivity.
  - pose proof (parse_paragraphs (p :: ps) fuel rest) as Hps.
    destruct (paragraphs_text_head p ps) as [s Hs]. rewrite Hs in *.
    cbn [app parse_value] in *. rewrite !skip_ws_nonws by reflexivity.
    change (91 =? 123)%N with false. change (91 =? 91)%N with true.
    change (123 =? 93)%N with false. cbv iota.
    rewrite Hps; [reflexivity | discriminate | simpl in *; lia].
Qed.

Lemma parse_story st fuel rest :
  length (story_paragraphs st) + 8 <= fuel ->
  parse_value fuel (story_text st ++ rest) = Parsed (story_to_json st) rest.
Proof.
  intros Hfuel. unfold story_text. rewrite <- !app_assoc.
  change (jq "{'preface':") with (123%N :: quote (js "preface") ++ [58%N]).
  change (jq ",'paragraphs':[") with (44%N :: quote (js "paragraphs") ++ [58%N; 91%N]).
  change (js "]}") with [93%N; 125%N].
  cbn [app]. rewrite <- !app_assoc. cbn [app].
  destruct fuel as [|[|[|fuel]]]; try lia.
  change (quote (js "preface") ++ 58%N :: ?x) with (34%N :: (js "preface" ++ [34%N]) ++ 58%N :: x).
  rewrite parse_value_object.
  change (34%N :: (js "preface" ++ [34%N]) ++ 58%N :: ?x) with (quote (js "preface") ++ 58%N :: x).
  rewrite (parse_members_comma _ _ _ _ (JString (preface st))
             (quote (js "paragraphs") ++ 58%N :: 91%N
              :: paragraphs_text (story_paragraphs st) ++ 93%N :: 125%N :: rest))
    by apply parse_value_quote.
  rewrite (parse_members_close _ _ _ _
             (JArray (List.map paragraph_to_json (story_paragraphs st))) rest)
    by (apply parse_paragraph_array; lia).
  reflexivity.
Qed.

Lemma paragraphs_text_length ps : length ps <= length (paragraphs_text ps).
Proof.
  induction ps as [|p ps IH]; [simpl; lia|].
  destruct (paragraph_text_head p) as [s Hs].
  destruct ps as [|p' ps].
  - cbn [paragraphs_text]. rewrite Hs. simpl. lia.
  - change (paragraphs_text (p :: p' :: ps))
      with (paragraph_text p ++ js "," ++ paragraphs_text (p' :: ps)).
    rewrite Hs, !length_app.
    change (length (js ",")) with 1. cbn [length] in *. lia.
Qed.

(** [JSON.parse(JSON.stringify(story))] is the story. *)
Lemma parse_stringify_story st :
  parse (stringify (story_to_json st)) = Ok (story_to_json st).
Proof.
  rewrite stringify_story. unfold parse.
  rewrite <- (app_nil_r (story_text st)) at 2.
  rewrite parse_story; [reflexivity|].
  unfold story_text. rewrite !length_app.
  pose proof (paragraphs_text_length (story_paragraphs st)).
  change (length (jq "{'preface':")) with 11. lia.
Qed.

End StoryRoundTrip.

(** ** What [JSON.parse] accepts: quotes pair up, and a backquote stands
    inside a string only *)

Section Lexical.

Lemma lex_scan_app st a b :
  lex_scan st (a ++ b)
  = match lex_scan st a with Some st' => lex_scan st' b | None => None end.
Proof.
  revert st; induction a as [|c a IH]; intros st; simpl; [reflexivity|].
  destruct (lex_step st c); [apply IH | reflexivity].
Qed.

Lemma reads_reads0 s rest : reads Outside s rest -> reads0 s rest.
Proof. intros (part & -> & _ & H). exists part; auto. Qed.

Lemma reads0_refl s : reads0 s s.
Proof. exists []; auto. Qed.

Lemma reads0_trans s r1 r2 : reads0 s r1 -> reads0 r1 r2 -> reads0 s r2.
Proof.
  intros (p1 & -> & H1) (p2 & -> & H2). exists (p1 ++ p2). split.
  - now rewrite app_assoc.
  - rewrite lex_scan_app, H1. exact H2.
Qed.

Lemma reads0_reads s r1 r2 : reads0 s r1 -> reads Outside r1 r2 -> reads Outside s r2.
Proof.
  intros (p1 & -> & H1) (p2 & -> & Hne & H2). exists (p1 ++ p2). repeat split.
  - now rewrite app_assoc.
  - destruct p1; [exact Hne | discriminate].
  - rewrite lex_scan_app, H1. exact H2.
Qed.

Lemma reads_reads0_trans s r1 r2 : reads Outside s r1 -> reads0 r1 r2 -> reads Outside s r2.
Proof.
  intros (p1 & -> & Hne & H1) (p2 & -> & H2). exists (p1 ++ p2). repeat split.
  - now rewrite app_assoc.
  - destruct p1; [congruence | discriminate].
  - rewrite lex_scan_app, H1. exact H2.
Qed.

Lemma reads_cons c s : lex_step Outside c = Some Outside -> reads Outside (c :: s) s.
Proof. intros H. exists [c]. repeat split; [discriminate | cbn [lex_scan]; now rewrite H]. Qed.

Lemma reads0_skip_ws s : reads0 s (skip_ws s).
Proof.
  induction s as [|c s IH]; [apply reads0_refl|]. simpl.
  destruct (json_ws c) eqn:E; [|apply reads0_refl].
  eapply reads0_trans; [|exact IH]. apply reads_reads0, reads_cons.
  unfold json_ws in E. unfold lex_step.
  destruct (c =? 34)%N eqn:E1; [apply N.eqb_eq in E1; subst; discriminate|].
  destruct (c =? 96)%N eqn:E2; [apply N.eqb_eq in E2; subst; discriminate|].
  reflexivity.
Qed.

Lemma skip_ws_nil_scan s : skip_ws s = [] -> lex_scan Outside s = Some Outside.
Proof.
  intros H. destruct (reads0_skip_ws s) as (part & Hs & Hscan).
  rewrite H, app_nil_r in Hs. now subst.
Qed.

Lemma hex_val_inside h x : hex_val h = Some x -> lex_step Inside h = Some Inside.
Proof.
  unfold hex_val, is_digit, lex_step. intros H.
  destruct (h =? 34)%N eqn:E1; [apply N.eqb_eq in E1; subst; discriminate|].
  destruct (h =? 92)%N eqn:E2; [apply N.eqb_eq in E2; subst; discriminate|].
  destruct (h <? 32)%N eqn:E3; [|reflexivity].
  apply N.ltb_lt in E3.
  destruct ((48 <=? h) && (h <=? 57))%N eqn:D1;
    [rewrite andb_true_iff, !N.leb_le in D1; lia|].
  destruct ((97 <=? h) && (h <=? 102))%N eqn:D2;
    [rewrite andb_true_iff, !N.leb_le in D2; lia|].
  destruct ((65 <=? h) && (h <=? 70))%N eqn:D3;
    [rewrite andb_true_iff, !N.leb_le in D3; lia|].
  discriminate.
Qed.

(** The characters of a string literal, read from inside it. *)
Lemma parse_chars_reads :
  forall n s str rest, length s <= n ->
    parse_chars s = Some (str, rest) -> reads Inside s rest.
Proof.
  induction n as [|n IH]; intros s str rest Hlen Hp.
  - destruct s; [discriminate | simpl in Hlen; lia].
  - destruct s as [|c s']; [discriminate|]. simpl in Hlen, Hp.
    destruct (c =? 34)%N eqn:E1.
    { inversion Hp; subst. exists [c]. repeat split; [discriminate|].
      simpl. rewrite E1. reflexivity. }
    destruct (c =? 92)%N eqn:E2.
    { destruct s' as [|e s'']; [discriminate|].
      destruct (e =? 117)%N eqn:Eu.
      - destruct s'' as [|h1 [|h2 [|h3 [|h4 s5]]]]; try discriminate.
        destruct (hex4 h1 h2 h3 h4) as [u|] eqn:Hh; [|discriminate].
        destruct (parse_chars s5) as [[str' rest']|] eqn:Hrec; [|discriminate].
        inversion Hp; subst. simpl in Hlen.
        destruct (IH s5 str' rest ltac:(lia) Hrec) as (part & -> & _ & Hscan).
        unfold hex4 in Hh.
        destruct (hex_val h1) eqn:V1; [|discriminate].
        destruct (hex_val h2) eqn:V2; [|discriminate].
        destruct (hex_val h3) eqn:V3; [|discriminate].
        destruct (hex_val h4) eqn:V4; [|discriminate].
        exists (c :: e :: h1 :: h2 :: h3 :: h4 :: part). repeat split; [discriminate|].
        cbn [lex_scan]. 
        assert (Hc : lex_step Inside c = Some Escape) by (simpl; rewrite E1, E2; reflexivity).
        assert (He : lex_step Escape e = Some Inside)
          by (apply N.eqb_eq in Eu; subst; reflexivity).
        rewrite Hc, He.
        rewrite (hex_val_inside _ _ V1), (hex_val_inside _ _ V2),
                (hex_val_inside _ _ V3), (hex_val_inside _ _ V4).
        exact Hscan.
      - destruct (unescape e) as [u|] eqn:Hu; [|discriminate].
        destruct (parse_chars s'') as [[str' rest']|] eqn:Hrec; [|discriminate].
        inversion Hp; subst. simpl in Hlen.
        destruct (IH s'' str' rest ltac:(lia) Hrec) as (part & -> & _ & Hscan).
        exists (c :: e :: part). repeat split; [discriminate|].
        cbn [lex_scan].
        assert (Hc : lex_step Inside c = Some Escape) by (simpl; rewrite E1, E2; reflexivity).
        assert (He : lex_step Escape e = Some Inside).
        { simpl. destruct (e =? 96)%N eqn:E96; [|reflexivity].
          apply N.eqb_eq in E96; subst; discriminate. }
        rewrite Hc, He. exact Hscan. }
    destruct (c <? 32)%N eqn:E3; [discriminate|].
    destruct (parse_chars s') as [[str' rest']|] eqn:Hrec; [|discriminate].
    inversion Hp; subst.
    destruct (IH s' str' rest ltac:(lia) Hrec) as (part & -> & _ & Hscan).
    exists (c :: part). repeat split; [discriminate|].
    cbn [lex_scan]. simpl. rewrite E1, E2, E3. exact Hscan.
Qed.

Lemma parse_string_reads s str rest :
  parse_chars s = Some (str, rest) -> reads Outside (34%N :: s) rest.
Proof.
  intros Hp. destruct (parse_chars_reads (length s) s str rest (le_n _) Hp)
    as (part & -> & _ & Hscan).
  exists (34%N :: part). repeat split; [discriminate | exact Hscan].
Qed.

Lemma plain_scan part : Forall plain part -> lex_scan Outside part = Some Outside.
Proof.
  induction 1 as [|c part Hc _ IH]; [reflexivity|].
  cbn [lex_scan]. rewrite Hc. exact IH.
Qed.

Lemma digit_plain c : is_digit c = true -> plain c.
Proof.
  unfold is_digit, plain, lex_step. intros H.
  rewrite andb_true_iff, !N.leb_le in H.
  destruct (c =? 34)%N eqn:E1; [apply N.eqb_eq in E1; lia|].
  destruct (c =? 96)%N eqn:E2; [apply N.eqb_eq in E2; lia|].
  reflexivity.
Qed.

Lemma span_digits_plain s ds rest :
  span_digits s = (ds, rest) -> s = ds ++ rest /\ Forall plain ds.
Proof.
  revert ds rest; induction s as [|c s IH]; intros ds rest H; simpl in H.
  - inversion H; subst; auto.
  - destruct (is_digit c) eqn:E.
    + destruct (span_digits s) as [ds' rest'] eqn:Hs. inversion H; subst.
      destruct (IH _ _ eq_refl) as [-> Hall]. split; [reflexivity|].
      constructor; [apply digit_plain; exact E | exact Hall].
    + inversion H; subst; auto.
Qed.

Lemma digits1_plain s ds rest :
  digits1 s = Some (ds, rest) -> s = ds ++ rest /\ Forall plain ds.
Proof.
  unfold digits1. destruct (span_digits s) as [ds' rest'] eqn:Hs.
  destruct ds'; [discriminate|]. intros H; inversion H; subst.
  apply span_digits_plain; exact Hs.
Qed.

Lemma parse_int_plain s part rest :
  parse_int s = Some (part, rest) -> s = part ++ rest /\ Forall plain part /\ part <> [].
Proof.
  unfold parse_int. destruct s as [|c s]; [discriminate|].
  destruct (c =? 48)%N eqn:E0.
  - intros H; inversion H; subst. apply N.eqb_eq in E0; subst.
    repeat split; [|discriminate]. constructor; [reflexivity | constructor].
  - destruct (is_digit c) eqn:E; [|discriminate].
    destruct (span_digits s) as [ds rest'] eqn:Hs. intros H; inversion H; subst.
    destruct (span_digits_plain _ _ _ Hs) as [-> Hall].
    repeat split; [|discriminate]. constructor; [apply digit_plain; exact E | exact Hall].
Qed.

Lemma parse_frac_plain s part rest :
  parse_frac s = Some (part, rest) -> s = part ++ rest /\ Forall plain part.
Proof.
  unfold parse_frac. destruct s as [|c s]; [intros H; inversion H; auto|].
  destruct (c =? 46)%N eqn:E.
  - destruct (digits1 s) as [[ds rest']|] eqn:Hd; [|discriminate].
    intros H; inversion H; subst. apply N.eqb_eq in E; subst.
    destruct (digits1_plain _ _ _ Hd) as [-> Hall].
    split; [reflexivity|]. constructor; [reflexivity | exact Hall].
  - intros H; inversion H; subst; auto.
Qed.

Lemma parse_exp_plain s part rest :
  parse_exp s = Some (part, rest) -> s = part ++ rest /\ Forall plain part.
Proof.
  unfold parse_exp. destruct s as [|c s]; [intros H; inversion H; auto|].
  destruct ((c =? 101) || (c =? 69))%N eqn:E.
  - assert (Hc : plain c).
    { rewrite orb_true_iff, !N.eqb_eq in E. destruct E; subst; reflexivity. }
    destruct s as [|sg s']; [discriminate|].
    destruct ((sg =? 43) || (sg =? 45))%N eqn:Es.
    + assert (Hsg : plain sg).
      { rewrite orb_true_iff, !N.eqb_eq in Es. destruct Es; subst; reflexivity. }
      destruct (digits1 s') as [[ds rest']|] eqn:Hd; [|discriminate].
      intros H; inversion H; subst.
      destruct (digits1_plain _ _ _ Hd) as [-> Hall].
      split; [reflexivity|]. repeat constructor; assumption.
    + destruct (digits1 (sg :: s')) as [[ds rest']|] eqn:Hd; [|discriminate].
      intros H; inversion H; subst.
      destruct (digits1_plain _ _ _ Hd) as [Heq Hall]. rewrite Heq.
      split; [reflexivity|]. constructor; assumption.
  - intros H; inversion H; subst; auto.
Qed.

Lemma parse_number_reads s lexeme rest :
  parse_number s = Some (lexeme, rest) -> reads Outside s rest.
Proof.
  unfold parse_number.
  set (sg := match s with
             | c :: s' => if (c =? 45)%N then ([c], s') else ([], s)
             | [] => ([], [])
             end).
  assert (Hsg : s = sg.1 ++ sg.2 /\ Forall plain sg.1).
  { subst sg. destruct s as [|c s']; [auto|].
    destruct (c =? 45)%N eqn:E; [|auto].
    apply N.eqb_eq in E; subst. split; [reflexivity|].
    constructor; [reflexivity | constructor]. }
  destruct sg as [sign s1]. simpl in Hsg. destruct Hsg as [-> Hsign].
  destruct (parse_int s1) as [[i s2]|] eqn:Hi; [|discriminate].
  destruct (parse_frac s2) as [[f s3]|] eqn:Hf; [|discriminate].
  destruct (parse_exp s3) as [[e s4]|] eqn:He; [|discriminate].
  intros H; inversion H; subst.
  destruct (parse_int_plain _ _ _ Hi) as (-> & Hip & Hne).
  destruct (parse_frac_plain _ _ _ Hf) as (-> & Hfp).
  destruct (parse_exp_plain _ _ _ He) as (-> & Hep).
  exists (sign ++ i ++ f ++ e). repeat split.
  - now rewrite <- !app_assoc.
  - destruct sign; destruct i; simpl; congruence.
  - apply plain_scan. rewrite !Forall_app. auto.
Qed.

Lemma starts_with_app p s : starts_with p s = true -> s = p ++ skipn (length p) s.
Proof.
  revert s; induction p as [|a p IH]; intros s H; [reflexivity|].
  destruct s as [|b s]; [discriminate|]. simpl in H.
  rewrite andb_true_iff, N.eqb_eq in H. destruct H as [-> H].
  simpl. f_equal. apply IH; exact H.
Qed.

Lemma literal_reads (p : jstring) s :
  p <> [] -> lex_scan Outside p = Some Outside ->
  starts_with p s = true -> reads Outside s (skipn (length p) s).
Proof.
  intros Hne Hscan H. exists p. repeat split; [|exact Hne | exact Hscan].
  apply starts_with_app; exact H.
Qed.

Lemma reads_bracket c s r :
  lex_step Outside c = Some Outside -> skip_ws s = r -> reads Outside (c :: s) r.
Proof.
  intros Hc <-. eapply reads_reads0_trans; [apply reads_cons; exact Hc|].
  apply reads0_skip_ws.
Qed.

Lemma eqb_plain c k :
  (c =? k)%N = true -> k <> 34%N -> k <> 96%N -> lex_step Outside c = Some Outside.
Proof.
  intros E H1 H2. apply N.eqb_eq in E; subst. unfold lex_step.
  destruct (k =? 34)%N eqn:E1; [apply N.eqb_eq in E1; contradiction|].
  destruct (k =? 96)%N eqn:E2; [apply N.eqb_eq in E2; contradiction|].
  reflexivity.
Qed.

(** Whatever a parsing function accepts, a reader goes through from
    outside a string to outside a string. *)
Lemma parse_reads :
  forall fuel,
    (forall s v rest, parse_value fuel s = Parsed v rest -> reads Outside s rest)
    /\ (forall s vs rest, parse_elements fuel s = Parsed vs rest -> reads Outside s rest)
    /\ (forall acc s fs rest, parse_members fuel acc s = Parsed fs rest -> reads Outside s rest).
Proof.
  induction fuel as [|fuel (IHv & IHe & IHm)]; [repeat split; intros; discriminate|].
  repeat split.
  - intros s v rest H. cbn [parse_value] in H.
    eapply reads0_reads; [apply reads0_skip_ws|].
    destruct (skip_ws s) as [|c s'] eqn:Hs; [discriminate|].
    parsed_case H.
    { (* object *)
      assert (Hc : lex_step Outside c = Some Outside) by (eapply eqb_plain; eauto; discriminate).
      parsed_case H. parsed_case H.
      - inversion H; subst. eapply reads_reads0_trans; [apply reads_cons; exact Hc|].
        eapply reads0_trans; [apply reads0_skip_ws|]. rewrite E0.
        apply reads_reads0, reads_cons. eapply eqb_plain; eauto; discriminate.
      - parsed_case H. inversion H; subst.
        eapply reads_reads0_trans; [apply reads_cons; exact Hc|].
        apply reads_reads0. eapply IHm; eassumption. }
    parsed_case H.
    { (* array *)
      assert (Hc : lex_step Outside c = Some Outside) by (eapply eqb_plain; eauto; discriminate).
      parsed_case H. parsed_case H.
      - inversion H; subst. eapply reads_reads0_trans; [apply reads_cons; exact Hc|].
        eapply reads0_trans; [apply reads0_skip_ws|]. rewrite E1.
        apply reads_reads0, reads_cons. eapply eqb_plain; eauto; discriminate.
      - parsed_case H. inversion H; subst.
        eapply reads_reads0_trans; [apply reads_cons; exact Hc|].
        apply reads_reads0. eapply IHe; eassumption. }
    parsed_case H.
    { (* string *)
      apply N.eqb_eq in E1; subst c.
      destruct (parse_chars s') as [[str rest']|] eqn:Hp; [|discriminate].
      inversion H; subst. eapply parse_string_reads; eassumption. }
    parsed_case H.
    { inversion H; subst. apply (literal_reads (js "true")); [discriminate | reflexivity | exact E2]. }
    parsed_case H.
    { inversion H; subst. apply (literal_reads (js "false")); [discriminate | reflexivity | exact E3]. }
    parsed_case H.
    { inversion H; subst. apply (literal_reads (js "null")); [discriminate | reflexivity | exact E4]. }
    destruct (parse_number (c :: s')) as [[lexeme rest']|] eqn:Hn; [|discriminate].
    inversion H; subst. eapply parse_number_reads; eassumption.
  - intros s vs rest H. cbn [parse_elements] in H.
    destruct (parse_value fuel s) as [v r| |] eqn:Hv; try discriminate.
    apply IHv in Hv.
    eapply reads_reads0_trans; [exact Hv|].
    eapply reads0_trans; [apply reads0_skip_ws|].
    destruct (skip_ws r) as [|c r'] eqn:Hr; [discriminate|].
    parsed_case H.
    + parsed_case H. inversion H; subst.
      eapply reads0_trans; [apply reads_reads0, reads_cons; eapply eqb_plain; eauto; discriminate|].
      apply reads_reads0. eapply IHe; eassumption.
    + parsed_case H. inversion H; subst.
      apply reads_reads0, reads_cons; eapply eqb_plain; eauto; discriminate.
  - intros acc s fs rest H. cbn [parse_members] in H.
    eapply reads0_reads; [apply reads0_skip_ws|].
    destruct (skip_ws s) as [|q s1] eqn:Hs; [discriminate|].
    parsed_case H. apply N.eqb_eq in E; subst q.
    destruct (parse_chars s1) as [[key s2]|] eqn:Hk; [|discriminate].
    eapply reads_reads0_trans; [eapply parse_string_reads; eassumption|].
    eapply reads0_trans; [apply reads0_skip_ws|].
    destruct (skip_ws s2) as [|colon s3] eqn:Hs2; [discriminate|].
    parsed_case H.
    eapply reads0_trans; [apply reads_reads0, reads_cons; eapply eqb_plain; eauto; discriminate|].
    destruct (parse_value fuel s3) as [v r| |] eqn:Hv; try discriminate.
    apply IHv in Hv.
    eapply reads0_trans; [apply reads_reads0; exact Hv|].
    eapply reads0_trans; [apply reads0_skip_ws|].
    destruct (skip_ws r) as [|c r'] eqn:Hr; [discriminate|].
    parsed_case H.
    + eapply reads0_trans; [apply reads_reads0, reads_cons; eapply eqb_plain; eauto; discriminate|].
      apply reads_reads0. eapply IHm; eassumption.
    + parsed_case H. inversion H; subst.
      apply reads_reads0, reads_cons; eapply eqb_plain; eauto; discriminate.
Qed.

(** A text that [JSON.parse] accepts is read through from outside a
    string to outside a string. *)
Lemma parse_ok_scan text v : parse text = Ok v -> lex_scan Outside text = Some Outside.
Proof.
  unfold parse. intros H.
  destruct (parse_value _ text) as [v' rest| |] eqn:Hv; try discriminate.
  destruct (skip_ws rest) eqn:Hr; [|discriminate].
  destruct (proj1 (parse_reads _) _ _ _ Hv) as (part & -> & _ & Hscan).
  rewrite lex_scan_app, Hscan. apply skip_ws_nil_scan; exact Hr.
Qed.

(** A text that holds the opening line of a JSON code fence is not read
    through: the backquotes stand outside a string, or the end of the
    line stands inside one. *)
Lemma fence_scan a b : forall st, lex_scan st (a ++ js "```json" ++ 10%N :: b) = None.
Proof.
  induction a as [|c a IH]; intros st.
  - destruct st; reflexivity.
  - cbn [app lex_scan]. destruct (lex_step st c); [apply IH | reflexivity].
Qed.

Lemma parse_fence_fails a b : exists e, parse (a ++ js "```json" ++ 10%N :: b) = Throw e.
Proof.
  destruct (parse (a ++ js "```json" ++ 10%N :: b)) as [v|e] eqn:Hp; [|eauto].
  apply parse_ok_scan in Hp. rewrite fence_scan in Hp. discriminate.
Qed.

Lemma reads_shorter from s rest : reads from s rest -> length rest < length s.
Proof.
  intros (part & -> & Hne & _). rewrite length_app.
  destruct part; [congruence | simpl; lia].
Qed.

Lemma skip_ws_length s : length (skip_ws s) <= length s.
Proof.
  induction s as [|c s IH]; simpl; [lia|].
  destruct (json_ws c); simpl; lia.
Qed.

(** Twice the length of the text, and one more, is fuel enough. *)
Lemma parse_fuel :
  forall fuel,
    (forall s, 2 * length s + 1 <= fuel -> parse_value fuel s <> OutOfFuel)
    /\ (forall s, 2 * length s + 2 <= fuel -> parse_elements fuel s <> OutOfFuel)
    /\ (forall acc s, 2 * length s + 2 <= fuel -> parse_members fuel acc s <> OutOfFuel).
Proof.
  induction fuel as [|fuel (IHv & IHe & IHm)]; [repeat split; intros; lia|].
  repeat split.
  - intros s Hf. cbn [parse_value].
    pose proof (skip_ws_length s) as Hws.
    destruct (skip_ws s) as [|c s'] eqn:Hs; [discriminate|]. simpl in Hws.
    destruct (c =? 123)%N.
    { pose proof (skip_ws_length s') as Hws'.
      destruct (skip_ws s') as [|c2 s2] eqn:Hs2; [discriminate|].
      destruct (c2 =? 125)%N; [discriminate|].
      destruct (parse_members fuel [] s') eqn:Hm; try discriminate.
      exfalso. apply (IHm [] s'); [lia | exact Hm]. }
    destruct (c =? 91)%N.
    { pose proof (skip_ws_length s') as Hws'.
      destruct (skip_ws s') as [|c2 s2] eqn:Hs2; [discriminate|].
      destruct (c2 =? 93)%N; [discriminate|].
      destruct (parse_elements fuel s') eqn:He; try discriminate.
      exfalso. apply (IHe s'); [lia | exact He]. }
    destruct (c =? 34)%N; [destruct (parse_chars s') as [[? ?]|]; discriminate|].
    destruct (starts_with (js "true") (c :: s')); [discriminate|].
    destruct (starts_with (js "false") (c :: s')); [discriminate|].
    destruct (starts_with (js "null") (c :: s')); [discriminate|].
    destruct (parse_number (c :: s')) as [[? ?]|]; discriminate.
  - intros s Hf. cbn [parse_elements].
    destruct (parse_value fuel s) as [v r| |] eqn:Hv; [|discriminate|].
    + pose proof (reads_shorter _ _ _ (proj1 (parse_reads fuel) _ _ _ Hv)) as Hr.
      pose proof (skip_ws_length r) as Hws.
      destruct (skip_ws r) as [|c r'] eqn:Hr'; [discriminate|]. simpl in Hws.
      destruct (c =? 44)%N.
      * destruct (parse_elements fuel r') eqn:He; try discriminate.
        exfalso. apply (IHe r'); [lia | exact He].
      * destruct (c =? 93)%N; discriminate.
    + exfalso. apply (IHv s); [lia | exact Hv].
  - intros acc s Hf. cbn [parse_members].
    pose proof (skip_ws_length s) as Hws.
    destruct (skip_ws s) as [|q s1] eqn:Hs; [discriminate|]. simpl in Hws.
    destruct (q =? 34)%N; [|discriminate].
    destruct (parse_chars s1) as [[key s2]|] eqn:Hk; [|discriminate].
    pose proof (reads_shorter _ _ _ (parse_chars_reads _ _ _ _ (le_n _) Hk)) as Hk'.
    pose proof (skip_ws_length s2) as Hws2.
    destruct (skip_ws s2) as [|colon s3] eqn:Hs2; [discriminate|]. simpl in Hws2.
    destruct (colon =? 58)%N; [|discriminate].
    destruct (parse_value fuel s3) as [v r| |] eqn:Hv; [|discriminate|].
    + pose proof (reads_shorter _ _ _ (proj1 (parse_reads fuel) _ _ _ Hv)) as Hr.
      pose proof (skip_ws_length r) as Hwsr.
      destruct (skip_ws r) as [|c r'] eqn:Hr'; [discriminate|]. simpl in Hwsr.
      destruct (c =? 44)%N.
      * apply IHm. lia.
      * destruct (c =? 125)%N; discriminate.
    + exfalso. apply (IHv s3); [lia | exact Hv].
Qed.

(** The fuel that [parse] gives never runs out. *)
Lemma parse_value_fuel text : parse_value (S (2 * length text)) text <> OutOfFuel.
Proof. apply (proj1 (parse_fuel _)). lia. Qed.

End Lexical.

(** ** Trimming and the brace span *)

Section TrimAndSpan.
Import Regex.

Lemma trim_start_app a c b :
  is_space c = false -> trim_start (a ++ c :: b) = trim_start a ++ c :: b.
Proof.
  intros Hc. induction a as [|x a IH]; simpl.
  - rewrite Hc. reflexivity.
  - destruct (is_space x); [exact IH | reflexivity].
Qed.

Lemma trim_end_app a c b :
  is_space c = false -> trim_end (a ++ c :: b) = a ++ c :: trim_end b.
Proof.
  intros Hc. unfold trim_end.
  rewrite rev_app_distr. simpl. rewrite <- app_assoc. simpl.
  rewrite trim_start_app by exact Hc.
  rewrite rev_app_distr. simpl. rewrite rev_involutive, <- app_assoc. reflexivity.
Qed.

Lemma trim_start_spaces ws : Forall (fun c => is_space c = true) ws -> trim_start ws = [].
Proof. induction 1 as [|c ws Hc _ IH]; simpl; [reflexivity | now rewrite Hc]. Qed.

Lemma trim_end_spaces ws : Forall (fun c => is_space c = true) ws -> trim_end ws = [].
Proof.
  intros H. unfold trim_end. rewrite trim_start_spaces; [reflexivity|].
  apply List.Forall_rev. exact H.
Qed.

(** Trimming stops at the first and at the last code unit that is not
    white space. *)
Lemma trim_between a c m d b :
  is_space c = false -> is_space d = false ->
  trim (a ++ c :: m ++ d :: b) = trim_start a ++ c :: m ++ d :: trim_end b.
Proof.
  intros Hc Hd. unfold trim. rewrite trim_start_app by exact Hc.
  change (trim_start a ++ c :: m ++ d :: b) with (trim_start a ++ (c :: m) ++ d :: b).
  rewrite app_assoc, trim_end_app by exact Hd. rewrite <- app_assoc. reflexivity.
Qed.

Lemma rmatch_star_cons cls r c s :
  rmatch (Star cls :: r) (c :: s)
  = if cls c then
      match rmatch (Star cls :: r) s with
      | Some rest => Some rest
      | None => rmatch r (c :: s)
      end
    else rmatch r (c :: s).
Proof. reflexivity. Qed.

Lemma to_last_brace_none b :
  ~ In 125%N b -> rmatch to_last_brace b = None.
Proof.
  unfold to_last_brace. induction b as [|c b IH]; intros Hb; [reflexivity|].
  rewrite rmatch_star_cons. cbn [any_cu]. cbv iota.
  rewrite IH by (intros Hin; apply Hb; right; exact Hin).
  cbn [rmatch]. unfold chr.
  destruct (c =? cu "}")%N eqn:E; [|reflexivity].
  apply N.eqb_eq in E. exfalso. apply Hb. left. exact E.
Qed.

Lemma to_last_brace_some m b :
  ~ In 125%N b -> rmatch to_last_brace (m ++ 125%N :: b) = Some b.
Proof.
  intros Hb. unfold to_last_brace. induction m as [|c m IH].
  - cbn [app]. rewrite rmatch_star_cons. cbn [any_cu]. cbv iota.
    fold to_last_brace. rewrite to_last_brace_none by exact Hb. reflexivity.
  - cbn [app]. rewrite rmatch_star_cons. cbn [any_cu]. cbv iota.
    rewrite IH. reflexivity.
Qed.

Lemma firstn_span {A} (x b : list A) : firstn (length (x ++ b) - length b) (x ++ b) = x.
Proof.
  rewrite length_app. replace (length x + length b - length b) with (length x) by lia.
  rewrite firstn_app, Nat.sub_diag, firstn_all. simpl. apply app_nil_r.
Qed.

(** [/\{[\s\S]*\}/] matches from the first opening brace to the last
    closing one. *)
Lemma match_braces a m b :
  ~ In 123%N a -> ~ In 125%N b ->
  match_ JSONUtils.re_braces (a ++ 123%N :: m ++ 125%N :: b) = Some (123%N :: m ++ [125%N]).
Proof.
  intros Ha Hb. unfold match_, exec, JSONUtils.re_braces. cbn [anchored items].
  change (lit "{" ++ [Star any_cu] ++ lit "}") with (One (chr "{") :: to_last_brace).
  assert (Hs : search (One (chr "{") :: to_last_brace) (a ++ 123%N :: m ++ 125%N :: b)
               = Some (a, 123%N :: m ++ [125%N], b)).
  { induction a as [|c a IH].
    - cbn [app search rmatch]. change (chr "{" 123%N) with true. cbv iota.
      rewrite to_last_brace_some by exact Hb.
      change (123%N :: m ++ 125%N :: b) with ((123%N :: m) ++ 125%N :: b).
      replace ((123%N :: m) ++ 125%N :: b) with ((123%N :: m ++ [125%N]) ++ b)
        by (simpl; now rewrite <- app_assoc).
      rewrite firstn_span. reflexivity.
    - cbn [app search]. cbn [rmatch]. unfold chr at 1.
      destruct (c =? cu "{")%N eqn:E.
      + apply N.eqb_eq in E. exfalso. apply Ha. left. exact E.
      + rewrite IH by (intros Hin; apply Ha; right; exact Hin). reflexivity. }
  rewrite Hs. reflexivity.
Qed.

End TrimAndSpan.

(** ** Stories in JSON *)

Section StoryJSON.
Import StoryParsingUtils JSONUtils.

Lemma every_paragraph_ok ps :
  every paragraph_ok (List.map paragraph_to_json ps) = Ok true.
Proof. induction ps as [|p ps IH]; [reflexivity | exact IH]. Qed.

Lemma validate_story st : validateStoryStructure (story_to_json st) = Ok true.
Proof. unfold validateStoryStructure. simpl. apply every_paragraph_ok. Qed.

Lemma story_text_braces st : story_text st = 123%N :: story_inner st ++ [125%N].
Proof.
  unfold story_text, story_inner.
  change (jq "{'preface':") with (123%N :: jq "'preface':").
  change (js "]}") with (js "]" ++ [125%N]).
  rewrite <- !app_assoc. reflexivity.
Qed.

(** The serialization of a story, with white space around it. *)
Lemma parse_direct st req ws1 ws2 :
  Forall (fun c => is_space c = true) ws1 ->
  Forall (fun c => is_space c = true) ws2 ->
  parseStoryResponse (ws1 ++ stringify (story_to_json st) ++ ws2) req
  = Ok (story_to_json st).
Proof.
  intros H1 H2. unfold parseStoryResponse.
  rewrite parseWithFallback_first_parsed. unfold candidates.
  assert (Ht : trim (ws1 ++ stringify (story_to_json st) ++ ws2)
               = stringify (story_to_json st)).
  { rewrite stringify_story, story_text_braces. cbn [app]. rewrite <- app_assoc. cbn [app].
    rewrite trim_between by reflexivity.
    rewrite trim_start_spaces, trim_end_spaces by assumption. reflexivity. }
  rewrite Ht. cbn [app first_parsed]. rewrite parse_stringify_story.
  change (default _ (Some ?v)) with v. cbn [rbind]. rewrite validate_story. reflexivity.
Qed.

(** The serialization inside a code fence, with prose before and after
    that holds no brace on the side of the story. *)
Lemma parse_fenced st req pre post :
  ~ In 123%N pre -> ~ In 125%N post ->
  parseStoryResponse
    (pre ++ js "```json" ++ [10%N] ++ stringify (story_to_json st) ++ [10%N] ++ js "```" ++ post)
    req
  = Ok (story_to_json st).
Proof.
  intros Hpre Hpost. unfold parseStoryResponse.
  rewrite parseWithFallback_first_parsed. unfold candidates.
  set (raw := pre ++ js "```json" ++ [10%N] ++ stringify (story_to_json st)
              ++ [10%N] ++ js "```" ++ post).
  assert (Htrim : exists e, parse (trim raw) = Throw e).
  { subst raw.
    change (js "```json" ++ [10%N] ++ stringify (story_to_json st) ++ [10%N] ++ js "```" ++ post)
      with (96%N :: (js "``json" ++ [10%N] ++ stringify (story_to_json st) ++ [10%N] ++ js "``"
                     ++ 96%N :: post)).
    replace (js "``json" ++ [10%N] ++ stringify (story_to_json st) ++ [10%N] ++ js "``"
             ++ 96%N :: post)
      with ((js "``json" ++ [10%N] ++ stringify (story_to_json st) ++ [10%N] ++ js "``")
            ++ 96%N :: post)
      by (now rewrite <- !app_assoc).
    rewrite trim_between by reflexivity.
    replace (trim_start pre
             ++ 96%N :: (js "``json" ++ [10%N] ++ stringify (story_to_json st) ++ [10%N] ++ js "``")
             ++ 96%N :: trim_end post)
      with (trim_start pre ++ js "```json"
            ++ 10%N :: (stringify (story_to_json st) ++ [10%N] ++ js "``" ++ 96%N :: trim_end post))
      by (simpl; now rewrite <- !app_assoc).
    apply parse_fence_fails. }
  destruct Htrim as [e He].
  assert (Hmatch : Regex.match_ re_braces raw = Some (stringify (story_to_json st))).
  { subst raw. rewrite stringify_story, story_text_braces.
    replace (pre ++ js "```json" ++ [10%N] ++ (123%N :: story_inner st ++ [125%N])
             ++ [10%N] ++ js "```" ++ post)
      with ((pre ++ js "```json" ++ [10%N]) ++ 123%N :: story_inner st
            ++ 125%N :: ([10%N] ++ js "```" ++ post))
      by (simpl; rewrite <- !app_assoc; simpl; now rewrite <- !app_assoc).
    apply match_braces.
    - rewrite in_app_iff. intros [Hin|Hin]; [exact (Hpre Hin)|].
      simpl in Hin. intuition discriminate.
    - simpl. intros [Hin|[Hin|[Hin|[Hin|Hin]]]]; try discriminate. exact (Hpost Hin). }
  rewrite Hmatch. cbn [app first_parsed]. rewrite He, parse_stringify_story.
  change (default _ (Some ?v)) with v. cbn [rbind]. rewrite validate_story. reflexivity.
Qed.

End StoryJSON.

Lemma all_space_Forall ws : all_space ws = true -> Forall (fun c => is_space c = true) ws.
Proof. unfold all_space. intros H. apply List.Forall_forall. apply forallb_forall. exact H. Qed.

Lemma has_cu_false c s : has_cu c s = false -> ~ In c s.
Proof.
  unfold has_cu. intros H Hin.
  assert (Ht : existsb (N.eqb c) s = true)
    by (apply existsb_exists; exists c; split; [exact Hin | apply N.eqb_refl]).
  congruence.
Qed.




(** ** The rate limiter *)

Section RateLimit.
Import RateLimiter.

Lemma checkRateLimit_other (client c : jstring) (maxRequests windowMs now : Z) (requests : store) :
  c <> client ->
  (checkRateLimit c maxRequests windowMs now requests).2 !! client = requests !! client.
Proof.
  intros Hne. unfold checkRateLimit.
  destruct (requests !! c) as [current|]; simpl.
  - destruct (resetTime current <? now)%Z; simpl; [now rewrite lookup_insert_ne|].
    destruct (maxRequests <=? count current)%Z; simpl; [reflexivity|].
    now rewrite lookup_insert_ne.
  - now rewrite lookup_insert_ne.
Qed.

Lemma verdicts_inside_window (client : jstring) :
  forall (tr : trace) (requests : store) k reset,
    requests !! client = Some {| count := k; resetTime := reset |} ->
    Forall (fun t => t <= reset)%Z (times_of client tr) ->
    verdicts_of client tr requests
    = inside_window k (length (times_of client tr)) reset.
Proof.
  induction tr as [|[c now] tr IH]; intros requests k reset Hcur Htimes; simpl; [reflexivity|].
  simpl in Htimes. unfold str_eqb in *. case_bool_decide as Hc.
  - subst c. inversion Htimes as [|t ts Hnow Hrest]; subst. simpl.
    unfold route_check, checkRateLimit. rewrite Hcur. simpl.
    destruct (reset <? now)%Z eqn:E1; [apply Z.ltb_lt in E1; lia|].
    destruct (10 <=? k)%Z eqn:E2; simpl.
    + assert (E3 : (k <? 10)%Z = false) by (apply Z.ltb_ge; apply Z.leb_le in E2; lia).
      rewrite E3. f_equal. apply IH; assumption.
    + assert (E3 : (k <? 10)%Z = true) by (apply Z.ltb_lt; apply Z.leb_gt in E2; lia).
      rewrite E3. f_equal. apply IH; [|assumption].
      now rewrite lookup_insert_eq.
  - apply IH; [|assumption].
    unfold route_check. rewrite checkRateLimit_other; assumption.
Qed.

Lemma verdicts_from_first_call (client : jstring) (t0 : Z) :
  forall (tr : trace) (requests : store) ts,
    no_window client t0 requests ->
    times_of client tr = t0 :: ts ->
    Forall (fun t => t <= t0 + 60000)%Z ts ->
    verdicts_of client tr requests
    = {| allowed := true; verdict_resetTime := t0 + 60000 |}
      :: inside_window 1 (length ts) (t0 + 60000).
Proof.
  induction tr as [|[c now] tr IH]; intros requests ts Hfresh Htimes Hts; simpl in *;
    [discriminate|].
  unfold str_eqb in *. case_bool_decide as Hc.
  - subst c. inversion Htimes; subst now ts; clear Htimes.
    unfold route_check, checkRateLimit, no_window in *.
    destruct (requests !! client) as [current|] eqn:Hcur; simpl.
    + apply Z.ltb_lt in Hfresh. rewrite Hfresh. simpl. f_equal.
      apply verdicts_inside_window; [now rewrite lookup_insert_eq | assumption].
    + f_equal. apply verdicts_inside_window; [now rewrite lookup_insert_eq | assumption].
  - apply IH; [|assumption|assumption].
    unfold no_window, route_check in *. rewrite checkRateLimit_other; assumption.
Qed.

Lemma verdicts_of_no_call (client : jstring) :
  forall (tr : trace) (requests : store),
    times_of client tr = [] -> verdicts_of client tr requests = [].
Proof.
  induction tr as [|[c now] tr IH]; intros requests Htimes; simpl in *; [reflexivity|].
  destruct (str_eqb c client); [discriminate Htimes|]. apply IH. exact Htimes.
Qed.

(** Calls inside the window, then one after its end. *)
Lemma verdicts_then_expired (client : jstring) :
  forall (tr : trace) (requests : store) k reset ts t,
    requests !! client = Some {| count := k; resetTime := reset |} ->
    times_of client tr = ts ++ [t] ->
    Forall (fun u => u <= reset)%Z ts ->
    (reset < t)%Z ->
    verdicts_of client tr requests
    = inside_window k (length ts) reset
      ++ [{| allowed := true; verdict_resetTime := t + 60000 |}].
Proof.
  induction tr as [|[c now] tr IH]; intros requests k reset ts t Hcur Htimes Hts Ht;
    simpl in *; [destruct ts; discriminate Htimes|].
  unfold str_eqb in *. case_bool_decide as Hc.
  - subst c. unfold route_check, checkRateLimit. rewrite Hcur. simpl.
    destruct ts as [|u ts]; simpl in *.
    + injection Htimes as -> Hrest.
      apply Z.ltb_lt in Ht. rewrite Ht. simpl. f_equal.
      apply verdicts_of_no_call. exact Hrest.
    + injection Htimes as -> Hrest.
      inversion Hts as [|u' ts' Hu Hts']; subst.
      destruct (reset <? u)%Z eqn:E1; [apply Z.ltb_lt in E1; lia|].
      destruct (10 <=? k)%Z eqn:E2; simpl.
      * assert (E3 : (k <? 10)%Z = false) by (apply Z.ltb_ge; apply Z.leb_le in E2; lia).
        rewrite E3. f_equal. apply IH; assumption.
      * assert (E3 : (k <? 10)%Z = true) by (apply Z.ltb_lt; apply Z.leb_gt in E2; lia).
        rewrite E3. f_equal. apply IH; try assumption.
        now rewrite lookup_insert_eq.
  - apply IH; try assumption.
    unfold route_check. rewrite checkRateLimit_other; assumption.
Qed.

Lemma verdicts_from_first_call_then_expired (client : jstring) (t0 : Z) :
  forall (tr : trace) (requests : store) ts t,
    no_window client t0 requests ->
    times_of client tr = t0 :: ts ++ [t] ->
    Forall (fun u => u <= t0 + 60000)%Z ts ->
    (t0 + 60000 < t)%Z ->
    verdicts_of client tr requests
    = {| allowed := true; verdict_resetTime := t0 + 60000 |}
      :: inside_window 1 (length ts) (t0 + 60000)
      ++ [{| allowed := true; verdict_resetTime := t + 60000 |}].
Proof.
  induction tr as [|[c now] tr IH]; intros requests ts t Hfresh Htimes Hts Ht; simpl in *;
    [discriminate|].
  unfold str_eqb in *. case_bool_decide as Hc.
  - subst c. injection Htimes as -> Hrest.
    unfold route_check, checkRateLimit, no_window in *.
    destruct (requests !! client) as [current|] eqn:Hcur; simpl.
    + apply Z.ltb_lt in Hfresh. rewrite Hfresh. simpl. f_equal.
      apply verdicts_then_expired; try assumption. now rewrite lookup_insert_eq.
    + f_equal. apply verdicts_then_expired; try assumption. now rewrite lookup_insert_eq.
  - apply IH; try assumption.
    unfold no_window, route_check in *. rewrite checkRateLimit_other; assumption.
Qed.

End RateLimit.

(** C6, as stated, fails at the end of the window: the window that a
    call at [t0] opens is still running at [t0 + 60000], so an eleventh
    call at exactly that time is rejected, and the reset time returned is
    the time of the call itself, not a later one. *)
Lemma C6_reset_time_equal_at_window_end :
  let a := js "10.0.0.1" in
  let tr : trace :=
    [(a, 1000); (a, 2000); (a, 3000); (a, 4000); (a, 5000); (a, 6000); (a, 7000);
     (a, 8000); (a, 9000); (a, 10000); (a, 61000)]%Z in
  exists eleventh,
    verdicts_of a tr ∅
    = repeat {| RateLimiter.allowed := true; RateLimiter.verdict_resetTime := 61000 |} 10
      ++ [eleventh]
    /\ last (times_of a tr) = Some 61000%Z
    /\ RateLimiter.allowed eleventh = false
    /\ ~ (61000 < RateLimiter.verdict_resetTime eleventh)%Z.
Proof.
  intros a tr.
  exists {| RateLimiter.allowed := false; RateLimiter.verdict_resetTime := 61000 |}.
  split; [reflexivity|]. split; [reflexivity|]. split; [reflexivity|]. simpl. lia.
Qed.

(** C6, amended.  With ten requests allowed per window of 60 seconds:
    along any sequence of calls of any clients, if a client that has no
    running window calls at [t0] and nine more times no later than
    [t0 + 60000], these ten calls are allowed, with the reset time
    [t0 + 60000].  Its eleventh call is rejected exactly when it comes no
    later than [t0 + 60000]: the reset time returned is then
    [t0 + 60000], which is later than the time of the call unless the
    call comes at exactly [t0 + 60000], where the two are equal.  An
    eleventh call after [t0 + 60000] is allowed and opens a window of its
    own. *)
Theorem C6_eleventh_request_rejected
  (client : jstring) (tr : trace) (requests : gmap jstring RateLimiter.entry)
  (t0 : Z) (later : list Z) (t10 : Z) :
  no_window client t0 requests ->
  times_of client tr = t0 :: later ++ [t10] ->
  length later = 9 ->
  Forall (fun t => t <= t0 + 60000)%Z later ->
  exists eleventh,
    verdicts_of client tr requests
    = repeat {| RateLimiter.allowed := true; RateLimiter.verdict_resetTime := t0 + 60000 |} 10
      ++ [eleventh]
    /\ eleventh
       = (if (t10 <=? t0 + 60000)%Z
          then {| RateLimiter.allowed := false; RateLimiter.verdict_resetTime := t0 + 60000 |}
          else {| RateLimiter.allowed := true; RateLimiter.verdict_resetTime := t10 + 60000 |})
    /\ (RateLimiter.allowed eleventh = false <-> (t10 <= t0 + 60000)%Z)
    /\ (RateLimiter.allowed eleventh = false ->
        (t10 <= RateLimiter.verdict_resetTime eleventh)%Z
        /\ ((t10 < RateLimiter.verdict_resetTime eleventh)%Z <-> t10 <> (t0 + 60000)%Z)).
Proof.
  intros Hfresh Htimes Hlen Hin.
  eexists. split; [|split; [reflexivity|]].
  - destruct (t10 <=? t0 + 60000)%Z eqn:E.
    + apply Z.leb_le in E.
      rewrite (verdicts_from_first_call client t0 tr requests (later ++ [t10]) Hfresh Htimes).
      * rewrite length_app, Hlen. reflexivity.
      * apply Forall_app. split; [exact Hin|]. repeat constructor. exact E.
    + apply Z.leb_gt in E.
      rewrite (verdicts_from_first_call_then_expired client t0 tr requests later t10
                 Hfresh Htimes Hin E).
      rewrite Hlen. reflexivity.
  - destruct (t10 <=? t0 + 60000)%Z eqn:E; simpl.
    + apply Z.leb_le in E. split; [tauto|]. intros _. split; lia.
    + apply Z.leb_gt in E. split; [split; [discriminate | lia]|]. discriminate.
Qed.

(** Eleven calls of one client, with calls of another client in between;
    the eleventh comes at the very end of the window. *)
Lemma C6_eleventh_request_witness :
  let a := js "10.0.0.1" in
  let b := js "10.0.0.2" in
  let tr : trace :=
    [(a, 1000); (b, 1500); (a, 2000); (a, 3000); (a, 4000); (b, 4500); (a, 5000);
     (a, 6000); (a, 7000); (a, 8000); (a, 9000); (a, 10000); (a, 61000)]%Z in
  verdicts_of a tr ∅
  = repeat {| RateLimiter.allowed := true; RateLimiter.verdict_resetTime := 61000 |} 10
    ++ [{| RateLimiter.allowed := false; RateLimiter.verdict_resetTime := 61000 |}].
Proof.
  intros a b tr.
  destruct (C6_eleventh_request_rejected a tr ∅ 1000
              [2000; 3000; 4000; 5000; 6000; 7000; 8000; 9000; 10000]%Z 61000)
    as (eleventh & Hverdicts & Heleventh & _).
  - exact I.
  - reflexivity.
  - reflexivity.
  - repeat constructor; lia.
  - rewrite Hverdicts, Heleventh. reflexivity.
Defined.

(* ================================================================== *)
(** * Further properties *)
(* ================================================================== *)

(** ** The plain-text path of the parser *)

Section PlainText.
Import StoryParsingUtils Regex.

(** X1.  Whenever the parsed value is not a story, the answer is the
    plain-text story, and it has exactly the requested number of
    paragraphs. *)
Theorem X1_plain_path_has_requested_count (rawResponse : jstring) (req : request) (j : json) :
  (0 <= paragraphs req)%Z ->
  JSONUtils.parseWithFallback rawResponse None = Ok j ->
  JSONUtils.validateStoryStructure j = Ok false ->
  parseStoryResponse rawResponse req = Ok (story_to_json (parseAsPlainText rawResponse req))
  /\ length (story_paragraphs (parseAsPlainText rawResponse req)) = Z.to_nat (paragraphs req).
Proof.
  intros HN Hj Hv. split.
  - unfold parseStoryResponse. rewrite Hj. cbn [rbind]. rewrite Hv. reflexivity.
  - unfold parseAsPlainText.
    destruct (List.find has_marker _) as [line|]; simpl;
      now apply extractParagraphs_length.
Qed.

Lemma X1_plain_path_witness :
  let req := {| genre := js "mystery"; paragraphs := 4 |} in
  let raw := js "It was late. Nobody saw the fox." in
  parseStoryResponse raw req = Ok (story_to_json (parseAsPlainText raw req))
  /\ length (story_paragraphs (parseAsPlainText raw req)) = 4.
Proof.
  intros req raw.
  apply (X1_plain_path_has_requested_count raw req JNull); [discriminate | reflexivity | reflexivity].
Defined.

Lemma trim_nonblank line : nonblank line = true -> trim line <> [].
Proof. unfold nonblank. destruct (trim line); [discriminate | discriminate]. Qed.

Lemma enhancePrompt_filled p g : ImagePromptUtils.enhancePrompt p g <> [].
Proof.
  unfold ImagePromptUtils.enhancePrompt. intros H.
  apply (f_equal (@length N)) in H. rewrite !length_app in H.
  change (length STORY_CONSTANTS.IMAGE_QUALITY) with 13 in H. simpl in H. lia.
Qed.

Lemma flush_filled req cur : cur <> [] -> filled (flush req cur).
Proof.
  intros H. split; [exact H|]. apply enhancePrompt_filled.
Qed.

Lemma fallback_filled req : filled (fallback_paragraph req).
Proof.
  split; [discriminate|]. cbn [fallback_paragraph imagePrompt].
  unfold replace_str.
  change (find_sub (js "{genre}") STORY_CONSTANTS.FALLBACK_IMAGE_PROMPT_SUFFIX)
    with (Some (js "Additional scene from a ", js " story")).
  discriminate.
Qed.

Lemma extract_step_filled req ps cur line :
  Forall filled ps -> Forall filled (extract_step req (ps, cur) line).1.
Proof.
  intros Hps. unfold extract_step.
  destruct (nonblank line) eqn:Hl.
  - destruct (test re_sentence_end line && _); simpl; [|exact Hps].
    apply Forall_app. split; [exact Hps|]. constructor; [|constructor].
    apply flush_filled. apply trim_nonblank in Hl.
    destruct cur; simpl; [exact Hl | discriminate].
  - destruct cur as [|c cur]; simpl; [exact Hps|].
    apply Forall_app. split; [exact Hps|]. constructor; [|constructor].
    apply flush_filled. discriminate.
Qed.

Lemma fold_extract_filled req lines :
  forall st, Forall filled st.1 -> Forall filled (fold_left (extract_step req) lines st).1.
Proof.
  induction lines as [|line lines IH]; intros [ps cur] H; simpl; [exact H|].
  apply IH. apply extract_step_filled. exact H.
Qed.

Lemma extractParagraphs_filled lines req : Forall filled (extractParagraphs lines req).
Proof.
  unfold extractParagraphs.
  pose proof (fold_extract_filled req lines ([], []) (List.Forall_nil _)) as H.
  destruct (fold_left (extract_step req) lines ([], [])) as [ps cur]. simpl in H.
  assert (H' : Forall filled (match cur with [] => ps | _ :: _ => ps ++ [flush req cur] end)).
  { destruct cur; [exact H|]. apply Forall_app. split; [exact H|].
    constructor; [|constructor]. apply flush_filled. discriminate. }
  rewrite pad_app. unfold slice0.
  assert (Hall : Forall filled
            (match cur with [] => ps | _ :: _ => ps ++ [flush req cur] end
             ++ repeat (fallback_paragraph req)
                  (Z.to_nat (paragraphs req
                     - Z.of_nat (length match cur with [] => ps | _ :: _ => ps ++ [flush req cur] end))))).
  { apply Forall_app. split; [exact H'|].
    apply List.Forall_forall. intros p Hp. apply repeat_spec in Hp. subst. apply fallback_filled. }
  destruct (paragraphs req <? 0)%Z; apply Forall_take; exact Hall.
Qed.

(** X2.  No paragraph of the plain-text story is empty: each has a text
    and an image prompt of at least one code unit. *)
Theorem X2_plain_paragraphs_are_filled (rawResponse : jstring) (req : request) :
  Forall (fun p => text p <> [] /\ imagePrompt p <> [])
    (story_paragraphs (parseAsPlainText rawResponse req)).
Proof.
  unfold parseAsPlainText.
  destruct (List.find has_marker _) as [line|]; simpl; apply extractParagraphs_filled.
Qed.

End PlainText.

Section MarkerLine.
Import StoryParsingUtils Regex.

Lemma rmatch_spaces s : rmatch [Star is_space] s = Some (trim_start s).
Proof.
  induction s as [|c s IH]; [reflexivity|].
  rewrite rmatch_star_cons. cbn [trim_start].
  destruct (is_space c); [rewrite IH; reflexivity | reflexivity].
Qed.

Lemma rmatch_label label rest :
  has_cu 58 label = false ->
  rmatch (items re_label) (label ++ 58%N :: rest) = Some (trim_start rest).
Proof.
  change (items re_label) with [Star (not_chr ":"); One (chr ":"); Star is_space].
  induction label as [|c label IH]; intros Hl.
  - cbn [app]. rewrite rmatch_star_cons.
    change (not_chr ":" 58%N) with false. cbv iota.
    cbn [rmatch]. change (chr ":" 58%N) with true. cbv iota.
    apply rmatch_spaces.
  - cbn [app]. rewrite rmatch_star_cons.
    unfold has_cu in Hl. cbn [existsb] in Hl. apply orb_false_iff in Hl. destruct Hl as [Hc Hl].
    assert (Hn : not_chr ":" c = true).
    { unfold not_chr. change (cu ":") with 58%N. rewrite N.eqb_sym, Hc. reflexivity. }
    rewrite Hn. rewrite IH by exact Hl. reflexivity.
Qed.

Lemma trim_trim_start s : trim (trim_start s) = trim s.
Proof.
  unfold trim. f_equal.
  induction s as [|c s IH]; [reflexivity|]. simpl.
  destruct (is_space c) eqn:E; [exact IH|]. simpl. rewrite E. reflexivity.
Qed.

(** The label of a line, up to its first colon and the white space after
    it, is what [/^[^:]*:\s*/] removes. *)
Lemma label_removed label rest :
  has_cu 58 label = false ->
  trim (replace re_label [] (label ++ 58%N :: rest)) = trim rest.
Proof.
  intros Hl. unfold replace, exec. change (anchored re_label) with true. cbv iota.
  rewrite rmatch_label by exact Hl. cbn [app]. apply trim_trim_start.
Qed.

Lemma starts_with_In p s c : starts_with p s = true -> In c p -> In c s.
Proof.
  intros H Hin. rewrite (starts_with_app p s H). apply in_or_app. left. exact Hin.
Qed.

Lemma includes_In p s c : includes p s = true -> In c p -> In c s.
Proof.
  induction s as [|x s IH]; intros H Hin; simpl in H.
  - rewrite orb_false_r in H. destruct p; [destruct Hin | discriminate].
  - apply orb_true_iff in H. destruct H as [H|H].
    + eapply starts_with_In; eassumption.
    + right. apply IH; assumption.
Qed.

Lemma marker_has_colon line : has_marker line = true -> In 58%N line.
Proof.
  unfold has_marker. intros H.
  apply existsb_exists in H. destruct H as (marker & Hm & Hinc).
  assert (Hc : In 58%N marker).
  { unfold prefaceMarkers in Hm. simpl in Hm.
    destruct Hm as [<-|[<-|[<-|[]]]]; simpl; auto 10. }
  pose proof (includes_In _ _ _ Hinc Hc) as Hlow.
  unfold toLowerCase in Hlow. apply in_map_iff in Hlow.
  destruct Hlow as (c & Hc58 & Hin).
  replace 58%N with c; [exact Hin|].
  unfold lower_cu, is_upper in Hc58.
  destruct ((65 <=? c) && (c <=? 90))%N eqn:E; [|exact Hc58].
  rewrite andb_true_iff, !N.leb_le in E. lia.
Qed.

Lemma split_first c s :
  In c s -> exists a b, s = a ++ c :: b /\ has_cu c a = false.
Proof.
  induction s as [|x s IH]; intros Hin; [destruct Hin|].
  destruct (N.eqb c x) eqn:E.
  - apply N.eqb_eq in E. subst x. exists [], s. split; reflexivity.
  - destruct Hin as [->|Hin]; [rewrite N.eqb_refl in E; discriminate|].
    destruct (IH Hin) as (a & b & -> & Ha).
    exists (x :: a), b. split; [reflexivity|].
    unfold has_cu in *. cbn [existsb]. rewrite E, Ha. reflexivity.
Qed.

Lemma find_first {A} (f : A -> bool) before x after :
  forallb (fun y => negb (f y)) before = true -> f x = true ->
  List.find f (before ++ x :: after) = Some x.
Proof.
  intros Hb Hx. induction before as [|y before IH]; simpl.
  - rewrite Hx. reflexivity.
  - simpl in Hb. apply andb_true_iff in Hb. destruct Hb as [Hy Hb].
    apply negb_true_iff in Hy. rewrite Hy. apply IH. exact Hb.
Qed.

Lemma index_of_first line before after :
  forallb (fun l => negb (has_marker l)) before = true -> has_marker line = true ->
  index_of line (before ++ line :: after) = Some (length before).
Proof.
  intros Hb Hx. induction before as [|y before IH]; simpl.
  - unfold str_eqb. rewrite bool_decide_eq_true_2 by reflexivity. reflexivity.
  - simpl in Hb. apply andb_true_iff in Hb. destruct Hb as [Hy Hb].
    apply negb_true_iff in Hy.
    unfold str_eqb. rewrite bool_decide_eq_false_2 by (intros ->; congruence).
    fold (str_eqb). rewrite IH by exact Hb. reflexivity.
Qed.

(** X3.  The first line that holds a marker gives the preface, which is
    the text after the first colon of that line, trimmed; that line and
    the lines before it are left out of the paragraphs. *)
Theorem X3_marker_line_gives_preface
  (rawResponse : jstring) (req : request) (before : list jstring) (line : jstring)
  (after : list jstring) :
  List.filter nonblank (split_on 10 rawResponse) = before ++ line :: after ->
  forallb (fun l => negb (has_marker l)) before = true ->
  has_marker line = true ->
  exists label rest,
    line = label ++ 58%N :: rest
    /\ has_cu 58 label = false
    /\ preface (parseAsPlainText rawResponse req) = trim rest
    /\ story_paragraphs (parseAsPlainText rawResponse req) = extractParagraphs after req.
Proof.
  intros Hlines Hb Hx.
  destruct (split_first 58%N line (marker_has_colon line Hx)) as (label & rest & Hline & Hl).
  exists label, rest. split; [exact Hline|]. split; [exact Hl|].
  unfold parseAsPlainText. rewrite Hlines.
  rewrite (find_first has_marker before line after Hb Hx).
  rewrite (index_of_first line before after Hb Hx).
  cbn [preface story_paragraphs]. split.
  - rewrite Hline. apply label_removed. exact Hl.
  - f_equal. rewrite skipn_app. rewrite skipn_all2 by lia.
    replace (length before + 1 - length before) with 1 by lia. reflexivity.
Qed.

Lemma X3_marker_line_witness :
  let req := {| genre := js "horror"; paragraphs := 3 |} in
  let raw := js "Sure!" ++ [10%N] ++ js "Summary:  The house wakes. " ++ [10%N] ++ js "Doors creak." in
  exists label rest,
    js "Summary:  The house wakes. " = label ++ 58%N :: rest
    /\ has_cu 58 label = false
    /\ preface (parseAsPlainText raw req) = trim rest
    /\ story_paragraphs (parseAsPlainText raw req) = extractParagraphs [js "Doors creak."] req.
Proof.
  intros req raw.
  apply (X3_marker_line_gives_preface raw req [js "Sure!"] (js "Summary:  The house wakes. ")
           [js "Doors creak."]); reflexivity.
Defined.

Lemma search_step r c s :
  rmatch r (c :: s) = None ->
  search r (c :: s)
  = match search r s with
    | Some (before, m, after) => Some (c :: before, m, after)
    | None => None
    end.
Proof. intros H. cbn [search]. rewrite H. reflexivity. Qed.

Lemma test_sentence_end line : test re_sentence_end line = ends_sentence line.
Proof.
  unfold test, exec. change (anchored re_sentence_end) with false. cbv iota.
  change (items re_sentence_end)
    with [One (fun c => chr "." c || chr "!" c || chr "?" c); Eos].
  induction line as [|c line IH]; [reflexivity|].
  destruct line as [|d line].
  - cbn [search rmatch]. unfold ends_sentence, last_cu, chr.
    change (cu ".") with 46%N. change (cu "!") with 33%N. change (cu "?") with 63%N.
    destruct ((c =? 46)%N || (c =? 33)%N || (c =? 63)%N); reflexivity.
  - change (ends_sentence (c :: d :: line)) with (ends_sentence (d :: line)).
    rewrite <- IH. rewrite search_step.
    + destruct (search _ (d :: line)) as [[[b m] a]|]; reflexivity.
    + cbn [rmatch]. destruct (chr "." c || chr "!" c || chr "?" c); reflexivity.
Qed.

Lemma fold_long_lines req lines :
  Forall (fun l => ends_sentence l = true /\ 100 < length (trim l)) lines ->
  forall ps,
    fold_left (extract_step req) lines (ps, [])
    = (ps ++ List.map (fun l => flush req (trim l)) lines, []).
Proof.
  induction 1 as [|l lines [He Hlen] _ IH]; intros ps; simpl.
  - now rewrite app_nil_r.
  - assert (Hnb : nonblank l = true).
    { unfold nonblank. destruct (trim l); [simpl in Hlen; lia | reflexivity]. }
    rewrite Hnb. cbn [app]. rewrite test_sentence_end, He.
    assert (Hgt : (STORY_CONSTANTS.MIN_PARAGRAPH_LENGTH <? length (trim l)) = true)
      by (apply Nat.ltb_lt; exact Hlen).
    rewrite Hgt. cbn [andb]. rewrite IH. rewrite <- app_assoc. reflexivity.
Qed.

(** X4.  Lines that each end a sentence and are longer than 100 code
    units once trimmed become one paragraph each, in order, before the
    padding and the cut. *)
Theorem X4_long_sentence_lines_one_paragraph_each (lines : list jstring) (req : request) :
  Forall (fun l => ends_sentence l = true /\ 100 < length (trim l)) lines ->
  extractParagraphs lines req
  = slice0 (paragraphs req)
      (List.map (fun l => flush req (trim l)) lines
       ++ repeat (fallback_paragraph req)
            (Z.to_nat (paragraphs req - Z.of_nat (length lines)))).
Proof.
  intros H. unfold extractParagraphs. rewrite (fold_long_lines req lines H []).
  cbn [app]. rewrite pad_app, length_map. reflexivity.
Qed.

Lemma X4_long_sentence_lines_witness :
  let req := {| genre := js "fantasy"; paragraphs := 3 |} in
  let l1 := js "The old lighthouse keeper climbed the winding stairs, counting each step as the storm gathered over the bay." in
  let l2 := js "Far below, the waves threw themselves at the rocks, and a small boat fought its way toward the harbour!" in
  List.map text (extractParagraphs [l1; l2] req) = [l1; l2; js "The story continues..."].
Proof.
  intros req l1 l2.
  rewrite (X4_long_sentence_lines_one_paragraph_each [l1; l2] req).
  - reflexivity.
  - repeat constructor; vm_compute; lia.
Defined.

Lemma joined_from_length lines : forall cur, length cur <= length (joined_from cur lines).
Proof.
  induction lines as [|l lines IH]; intros cur; simpl; [lia|].
  unfold joined_from in *. simpl. etransitivity; [|apply IH]. rewrite length_app. lia.
Qed.

Lemma fold_short_lines req lines :
  Forall (fun l => nonblank l = true) lines ->
  forall cur ps,
    length (joined_from cur lines) <= 100 ->
    fold_left (extract_step req) lines (ps, cur) = (ps, joined_from cur lines).
Proof.
  induction 1 as [|l lines Hnb _ IH]; intros cur ps Hlen; [reflexivity|].
  cbn [fold_left]. unfold extract_step at 2. rewrite Hnb.
  change (joined_from cur (l :: lines))
    with (joined_from (cur ++ (match cur with [] => [] | _ :: _ => js " " end) ++ trim l) lines)
    in *.
  pose proof (joined_from_length lines
                (cur ++ (match cur with [] => [] | _ :: _ => js " " end) ++ trim l)) as Hmono.
  assert (Hle : (STORY_CONSTANTS.MIN_PARAGRAPH_LENGTH
                 <? length (cur ++ (match cur with [] => [] | _ :: _ => js " " end) ++ trim l))
                = false).
  { apply Nat.ltb_ge. change STORY_CONSTANTS.MIN_PARAGRAPH_LENGTH with 100. lia. }
  rewrite Hle, andb_false_r. apply IH. exact Hlen.
Qed.

(** X5.  Non-blank lines whose texts, joined by single spaces, stay
    within 100 code units are never flushed on the way: they come out as
    one paragraph, whatever their punctuation. *)
Theorem X5_short_lines_merge (l : jstring) (lines : list jstring) (req : request) :
  Forall (fun l => nonblank l = true) (l :: lines) ->
  length (joined_from [] (l :: lines)) <= 100 ->
  extractParagraphs (l :: lines) req
  = slice0 (paragraphs req)
      (flush req (joined_from [] (l :: lines))
       :: repeat (fallback_paragraph req) (Z.to_nat (paragraphs req - 1))).
Proof.
  intros Hnb Hlen. unfold extractParagraphs.
  pose proof (fold_short_lines req (l :: lines) Hnb [] [] Hlen) as E.
  unfold jstring in *. rewrite E. clear E.
  assert (Hne : joined_from [] (l :: lines) <> []).
  { pose proof (joined_from_length lines ([] ++ [] ++ trim l)) as Hm.
    inversion Hnb as [|? ? Hl _]; subst. apply trim_nonblank in Hl.
    change (joined_from [] (l :: lines)) with (joined_from ([] ++ [] ++ trim l) lines).
    intros E. rewrite E in Hm. simpl in Hm. destruct (trim l); [congruence | simpl in Hm; lia]. }
  destruct (joined_from [] (l :: lines)) as [|c cur] eqn:E; [congruence|].
  cbn [app]. rewrite pad_app. reflexivity.
Qed.

Lemma X5_short_lines_witness :
  let req := {| genre := js "fantasy"; paragraphs := 3 |} in
  List.map text (extractParagraphs [js "  Hello there. "; js "Goodbye now."] req)
  = [js "Hello there. Goodbye now."; js "The story continues..."; js "The story continues..."].
Proof.
  intros req.
  rewrite (X5_short_lines_merge (js "  Hello there. ") [js "Goodbye now."] req).
  - reflexivity.
  - repeat constructor.
  - vm_compute. lia.
Defined.

End MarkerLine.

(** ** Image prompts *)

Section ImagePrompts.
Import ImagePromptUtils.

Lemma style_of_length genre table :
  Forall (fun gs => length gs.2 <= 55) table ->
  forall style, style_of genre table = Some style -> length style <= 55.
Proof.
  induction 1 as [|[g s] table Hs _ IH]; intros style H; simpl in H; [discriminate|].
  destruct (str_eqb g genre); [inversion H; subst; exact Hs | apply IH; exact H].
Qed.

(** No style has more than 55 code units, be it an entry of the table,
    the text of an inherited property or the default. *)
Lemma style_length genre : length (style genre) <= 55.
Proof.
  unfold style.
  destruct (style_of genre STYLE_MAPPINGS) as [own|] eqn:E.
  - apply (style_of_length genre STYLE_MAPPINGS); [|exact E].
    unfold STYLE_MAPPINGS.
    repeat (apply List.Forall_cons; [vm_compute; lia|]). apply List.Forall_nil.
  - destruct (style_of genre Object_prototype) as [inherited|] eqn:E'; [|simpl; lia].
    apply (style_of_length genre Object_prototype); [|exact E'].
    unfold Object_prototype.
    repeat (apply List.Forall_cons; [vm_compute; lia|]). apply List.Forall_nil.
Qed.

(** X6.  Enhancing appends: the result is the prompt followed by a
    suffix that ends with the quality words, so enhancing twice is not
    enhancing once. *)
Theorem X6_enhancePrompt_appends (originalPrompt genre : jstring) :
  (exists style,
     enhancePrompt originalPrompt genre
     = originalPrompt ++ js ", " ++ style ++ js ", high quality, 8k resolution")
  /\ length originalPrompt + 31 <= length (enhancePrompt originalPrompt genre)
  /\ enhancePrompt (enhancePrompt originalPrompt genre) genre
     <> enhancePrompt originalPrompt genre.
Proof.
  assert (Hlen : forall p, length p + 31 <= length (enhancePrompt p genre)).
  { intros p. unfold enhancePrompt. rewrite !length_app.
    change (length (js ", ")) with 2. change (length (js ", high quality, ")) with 16.
    change (length STORY_CONSTANTS.IMAGE_QUALITY) with 13. lia. }
  split; [|split].
  - exists (style genre). reflexivity.
  - apply Hlen.
  - intros H. apply (f_equal (@length N)) in H.
    pose proof (Hlen (enhancePrompt originalPrompt genre)). lia.
Qed.

(** X7.  The fallback prompt of a text reads the first 50 code units of
    the text and no more: its length is bounded whatever the text and
    whatever the genre, a name of an inherited property included, and
    two texts longer than 50 code units that agree on the first 50 have
    the same fallback prompt. *)
Theorem X7_createFallbackPrompt_reads_a_preview (text text' genre : jstring) :
  length (createFallbackPrompt text genre) <= length genre + 147
  /\ (50 < length text -> 50 < length text' -> firstn 50 text = firstn 50 text' ->
      createFallbackPrompt text genre = createFallbackPrompt text' genre).
Proof.
  split.
  - unfold createFallbackPrompt, enhancePrompt, substring0. rewrite !length_app.
    pose proof (style_length genre) as Hs.
    pose proof (firstn_le_length STORY_CONSTANTS.IMAGE_PROMPT_PREVIEW_LENGTH text) as Hp.
    assert (Hp' : length (firstn STORY_CONSTANTS.IMAGE_PROMPT_PREVIEW_LENGTH text) <= 50).
    { rewrite length_firstn. change STORY_CONSTANTS.IMAGE_PROMPT_PREVIEW_LENGTH with 50. lia. }
    assert (Hd : length (if STORY_CONSTANTS.IMAGE_PROMPT_PREVIEW_LENGTH <? length text
                         then js "..." else []) <= 3)
      by (destruct (_ <? _); simpl; lia).
    change (length (js " scene: ")) with 8.
    change (length (js ", ")) with 2. change (length (js ", high quality, ")) with 16.
    change (length STORY_CONSTANTS.IMAGE_QUALITY) with 13. lia.
  - intros H1 H2 Heq. unfold createFallbackPrompt, substring0.
    change STORY_CONSTANTS.IMAGE_PROMPT_PREVIEW_LENGTH with 50.
    rewrite Heq.
    apply Nat.ltb_lt in H1. apply Nat.ltb_lt in H2. rewrite H1, H2. reflexivity.
Qed.

Lemma X7_createFallbackPrompt_witness :
  let long := js "A knight rode out at dawn, past the mill and the sleeping " in
  createFallbackPrompt (long ++ js "village.") (js "constructor")
  = createFallbackPrompt (long ++ js "dragon, unseen.") (js "constructor").
Proof.
  intros long.
  apply (X7_createFallbackPrompt_reads_a_preview (long ++ js "village.")
           (long ++ js "dragon, unseen.") (js "constructor")).
  - vm_compute. lia.
  - vm_compute. lia.
  - reflexivity.
Defined.

End ImagePrompts.

(** ** The sanitizer *)

Section Sanitizer.
Import InputSanitizer Regex.

Lemma replace_g_nil r k : replace_g r [] k [] = [].
Proof.
  destruct k; cbn [replace_g]; [|reflexivity].
  destruct (rmatch r []) as [rest|]; [|reflexivity].
  destruct (length [] - length rest); reflexivity.
Qed.

Lemma replace_g_skip r k : forall s,
  replace_g r [] k s = replace_g r [] 0 (skipn k s).
Proof.
  induction k as [|k IH]; intros s; [reflexivity|].
  destruct s as [|c s]; [rewrite !replace_g_nil; reflexivity|].
  cbn [replace_g skipn]. apply IH.
Qed.

Lemma replace_g_sublist r : forall s k, sublist (replace_g r [] k s) s.
Proof.
  induction s as [|c s IH]; intros k.
  - destruct k; cbn [replace_g]; [|constructor].
    destruct (rmatch r []) as [rest|]; [|constructor].
    destruct (length [] - length rest); constructor.
  - destruct k as [|k]; cbn [replace_g].
    + destruct (rmatch r (c :: s)) as [rest|].
      * destruct (length (c :: s) - length rest) as [|n]; cbn [app].
        -- apply sublist_skip. apply IH.
        -- apply sublist_cons. apply IH.
      * apply sublist_skip. apply IH.
    + apply sublist_cons. apply IH.
Qed.

Lemma has_cu_sublist c (t s : jstring) : sublist t s -> has_cu c s = false -> has_cu c t = false.
Proof.
  unfold has_cu. induction 1 as [|x t s _ IH|x t s _ IH]; intros H; cbn [existsb] in *.
  - reflexivity.
  - apply orb_false_iff in H. destruct H as [Hx H]. rewrite Hx. apply IH. exact H.
  - apply orb_false_iff in H. destruct H as [_ H]. apply IH. exact H.
Qed.

Lemma no_gt_no_tag s : has_cu 62 s = false -> no_tag s = true.
Proof.
  induction s as [|c s IH]; intros H; [reflexivity|].
  unfold has_cu in H. cbn [existsb] in H. apply orb_false_iff in H. destruct H as [_ H].
  cbn [no_tag]. destruct (c =? 60)%N; [unfold has_cu; rewrite H; reflexivity | apply IH; exact H].
Qed.

Lemma no_tag_sublist (t s : jstring) : sublist t s -> no_tag s = true -> no_tag t = true.
Proof.
  induction 1 as [|x t s Hsub IH|x t s Hsub IH]; intros H; cbn [no_tag] in *.
  - reflexivity.
  - destruct (x =? 60)%N; [|apply IH; exact H].
    apply negb_true_iff in H. apply negb_true_iff. eapply has_cu_sublist; eassumption.
  - destruct (x =? 60)%N; [|apply IH; exact H].
    apply negb_true_iff in H. apply no_gt_no_tag. eapply has_cu_sublist; eassumption.
Qed.

Lemma rmatch_tag_tail s :
  rmatch [Star (not_chr ">"); One (chr ">")] s = after_gt s.
Proof.
  induction s as [|c s IH]; [reflexivity|].
  rewrite rmatch_star_cons, IH. cbn [after_gt rmatch].
  unfold not_chr, chr. change (cu ">") with 62%N.
  destruct (c =? 62)%N eqn:E; cbn [negb]; [reflexivity|].
  destruct (after_gt s); reflexivity.
Qed.

Lemma rmatch_tag c s :
  rmatch (items re_tag) (c :: s) = if (c =? 60)%N then after_gt s else None.
Proof.
  change (items re_tag) with (One (chr "<") :: [Star (not_chr ">"); One (chr ">")]).
  cbn [rmatch]. unfold chr at 1. change (cu "<") with 60%N.
  destruct (c =? 60)%N; [apply rmatch_tag_tail | reflexivity].
Qed.

Lemma after_gt_suffix s rest : after_gt s = Some rest -> exists m, s = m ++ rest /\ m <> [].
Proof.
  revert rest; induction s as [|c s IH]; intros rest H; [discriminate|].
  cbn [after_gt] in H. destruct (c =? 62)%N.
  - inversion H; subst. exists [c]. split; [reflexivity | discriminate].
  - destruct (IH _ H) as (m & -> & _). exists (c :: m). split; [reflexivity | discriminate].
Qed.

Lemma after_gt_none s : after_gt s = None -> has_cu 62 s = false.
Proof.
  induction s as [|c s IH]; intros H; [reflexivity|].
  cbn [after_gt] in H. unfold has_cu. cbn [existsb]. rewrite N.eqb_sym.
  destruct (c =? 62)%N; [discriminate|]. apply IH. exact H.
Qed.

Lemma replace_g_after_match r c m rest :
  rmatch r (c :: m ++ rest) = Some rest ->
  replace_g r [] 0 (c :: m ++ rest) = replace_g r [] 0 rest.
Proof.
  intros H. cbn [replace_g]. rewrite H.
  replace (length (c :: m ++ rest) - length rest) with (S (length m))
    by (cbn [length]; rewrite length_app; lia).
  cbn [app]. rewrite replace_g_skip. rewrite skipn_app, skipn_all, Nat.sub_diag. reflexivity.
Qed.

Lemma tags_removed : forall n s, length s <= n -> no_tag (replace_g (items re_tag) [] 0 s) = true.
Proof.
  induction n as [|n IH]; intros s Hlen.
  - destruct s; [reflexivity | simpl in Hlen; lia].
  - destruct s as [|c s]; [reflexivity|]. simpl in Hlen.
    destruct (rmatch (items re_tag) (c :: s)) as [rest|] eqn:Hm.
    + rewrite rmatch_tag in Hm. destruct (c =? 60)%N eqn:E; [|discriminate].
      destruct (after_gt_suffix _ _ Hm) as (m & -> & Hne).
      rewrite replace_g_after_match.
      * apply IH. rewrite length_app in Hlen. destruct m; [congruence|]. simpl in *. lia.
      * rewrite rmatch_tag, E. exact Hm.
    + cbn [replace_g]. rewrite Hm. cbn [no_tag].
      rewrite rmatch_tag in Hm. destruct (c =? 60)%N eqn:E.
      * apply negb_true_iff. eapply has_cu_sublist; [apply replace_g_sublist|].
        apply after_gt_none. exact Hm.
      * apply IH. lia.
Qed.

Lemma no_gt_after s : has_cu 62 s = false -> after_gt s = None.
Proof.
  induction s as [|c s IH]; intros H; [reflexivity|].
  unfold has_cu in H. cbn [existsb] in H. apply orb_false_iff in H. destruct H as [Hc H].
  cbn [after_gt]. rewrite N.eqb_sym, Hc. apply IH. exact H.
Qed.

Lemma no_tag_search s : no_tag s = true -> search (items re_tag) s = None.
Proof.
  induction s as [|c s IH]; intros H; [reflexivity|].
  cbn [search]. rewrite rmatch_tag. cbn [no_tag] in H.
  destruct (c =? 60)%N.
  - apply negb_true_iff in H. rewrite (no_gt_after _ H), IH; [reflexivity|].
    apply no_gt_no_tag. exact H.
  - rewrite IH by exact H. reflexivity.
Qed.

Lemma nul_removed s : has_cu 0 (replace_g (items re_nul) [] 0 s) = false.
Proof.
  induction s as [|c s IH]; [reflexivity|].
  cbn [replace_g]. change (rmatch (items re_nul) (c :: s)) with (if (c =? 0)%N then Some s else None).
  destruct (c =? 0)%N eqn:E.
  - replace (length (c :: s) - length s) with 1 by (cbn [length]; lia).
    cbn [app]. exact IH.
  - unfold has_cu. cbn [existsb]. rewrite N.eqb_sym, E. exact IH.
Qed.

Lemma trim_start_sublist s : sublist (trim_start s) s.
Proof.
  induction s as [|c s IH]; cbn [trim_start]; [constructor|].
  destruct (is_space c); [apply sublist_cons; exact IH | reflexivity].
Qed.

Lemma rev_sublist (a b : jstring) : sublist a b -> sublist (rev a) (rev b).
Proof.
  induction 1 as [|x a b _ IH|x a b _ IH]; cbn [rev].
  - constructor.
  - apply sublist_app; [exact IH | reflexivity].
  - apply sublist_inserts_r. exact IH.
Qed.

Lemma trim_sublist s : sublist (trim s) s.
Proof.
  unfold trim, trim_end. transitivity (trim_start s); [|apply trim_start_sublist].
  rewrite <- (rev_involutive (trim_start s)) at 2.
  apply rev_sublist. apply trim_start_sublist.
Qed.

Lemma sanitizeString_sublist input : sublist (sanitizeString input) input.
Proof.
  unfold sanitizeString, substring0, replace_all.
  etransitivity; [apply sublist_take|].
  do 4 (etransitivity; [apply replace_g_sublist|]).
  apply trim_sublist.
Qed.

Lemma sanitizeString_clean input :
  has_cu 0 (sanitizeString input) = false
  /\ Regex.test re_tag (sanitizeString input) = false.
Proof.
  unfold sanitizeString, substring0, replace_all. split.
  - eapply has_cu_sublist; [apply sublist_take|].
    apply nul_removed.
  - unfold Regex.test, exec. cbn [anchored re_tag].
    change (lit "<" ++ [Star (not_chr ">")] ++ lit ">") with (items re_tag).
    rewrite no_tag_search; [reflexivity|].
    eapply no_tag_sublist; [apply sublist_take|].
    do 3 (eapply no_tag_sublist; [apply replace_g_sublist|]).
    apply (tags_removed (length (trim input))). lia.
Qed.

(** X8. [sanitizeString] only deletes code units: what it returns is its
    input with some code units left out, in the same order.  The result
    has at most 1000 code units, no NUL, and no tag is left in it: the
    pattern [<[^>]*>] that the first pass deletes finds nothing in the
    result, whatever the three later passes deleted. *)
Theorem X8_sanitizeString_deletes_tags_and_nul (input : jstring) :
  sublist (sanitizeString input) input
  /\ length (sanitizeString input) <= 1000
  /\ has_cu 0 (sanitizeString input) = false
  /\ Regex.test re_tag (sanitizeString input) = false.
Proof.
  split; [apply sanitizeString_sublist|].
  split; [apply sanitizeString_length|].
  apply sanitizeString_clean.
Qed.

(** *** Character names *)

Lemma omap_length {A B} (f : A -> option B) (l : list A) : length (omap f l) <= length l.
Proof.
  induction l as [|x l IH]; [reflexivity|].
  cbn [omap list_omap]. destruct (f x); simpl; lia.
Qed.

Lemma sanitized_names names :
  Forall (fun name => 0 < length name <= 50
                      /\ has_cu 0 name = false
                      /\ Regex.test re_tag name = false
                      /\ exists s, In (VStr s) names /\ name = sanitizeString s)
    (sanitizeCharacterNames names).
Proof.
  unfold sanitizeCharacterNames. apply Forall_take.
  apply List.Forall_forall. intros name Hin.
  apply filter_In in Hin. destruct Hin as [Hin Hlen].
  apply in_map_iff in Hin. destruct Hin as (s & <- & Hs).
  apply andb_true_iff in Hlen. destruct Hlen as [H0 H50].
  apply Nat.ltb_lt in H0. apply Nat.leb_le in H50.
  change STORY_CONSTANTS.MAX_CHARACTER_NAME_LENGTH with 50 in H50.
  split; [lia|]. destruct (sanitizeString_clean s) as [Hn Ht].
  split; [exact Hn|]. split; [exact Ht|].
  exists s. split; [|reflexivity].
  clear -Hs. induction names as [|v names IH]; [destruct Hs|].
  cbn [omap list_omap] in Hs. destruct v; try (right; apply IH; exact Hs).
  destruct Hs as [->|Hs]; [left; reflexivity | right; apply IH; exact Hs].
Qed.

(** X9. The names that [sanitizeCharacterNames] returns: at most six, no
    more than the array holds, each the sanitized form of a string of
    the array, with one to fifty code units, no NUL and no tag. *)
Theorem X9_sanitizeCharacterNames_result (names : list jsval) :
  length (sanitizeCharacterNames names) <= 6
  /\ length (sanitizeCharacterNames names) <= length names
  /\ Forall (fun name => 0 < length name <= 50
                         /\ has_cu 0 name = false
                         /\ Regex.test re_tag name = false
                         /\ exists s, In (VStr s) names /\ name = sanitizeString s)
       (sanitizeCharacterNames names).
Proof.
  split; [unfold sanitizeCharacterNames; apply firstn_le_length|].
  split; [|apply sanitized_names].
  unfold sanitizeCharacterNames.
  etransitivity; [rewrite length_firstn; apply Nat.le_min_r|].
  etransitivity; [apply filter_length_le|].
  rewrite length_map. apply omap_length.
Qed.

End Sanitizer.

(** ** The checks of a story request *)

Section Validator.
Import StoryValidator InputSanitizer StorySanitizer.

Lemma existsb_Forall_false {A} (P : A -> Prop) (f : A -> bool) (l : list A) :
  (forall x, P x -> f x = false) -> Forall P l -> existsb f l = false.
Proof.
  intros Hf. induction 1 as [|x l Hx _ IH]; [reflexivity|].
  cbn [existsb]. rewrite (Hf _ Hx), IH. reflexivity.
Qed.

Lemma names_errors_array names charactersCount :
  names_errors (VArr names) charactersCount
  = match charactersCount with
    | Some count =>
        if (negb (count =? 0) && negb (Z.of_nat (length (sanitizeCharacterNames names)) =? count))%Z
        then [{| field := js "characterNames";
                 message := js "Number of character names ("
                            ++ JSVal.nat_to_js (length (sanitizeCharacterNames names))
                            ++ js ") must match character count ("
                            ++ JSVal.Z_to_js count ++ js ")" |}]
        else []
    | None => []
    end.
Proof.
  cbn [names_errors].
  pose proof (sanitized_names names) as Hall.
  rewrite (existsb_Forall_false _ (fun name => length name =? 0) _) with (2 := Hall)
    by (intros x [Hx _]; apply Nat.eqb_neq; lia).
  rewrite (existsb_Forall_false _
             (fun name => STORY_CONSTANTS.MAX_CHARACTER_NAME_LENGTH <? length name) _)
    with (2 := Hall)
    by (intros x [Hx _]; apply Nat.ltb_ge; change STORY_CONSTANTS.MAX_CHARACTER_NAME_LENGTH with 50; lia).
  reflexivity.
Qed.

(** X10. For an array of names the validator reports one error at most,
    the one on the count: the two tests on the lengths of the names
    look at names that the sanitizer has already filtered by length, so
    neither of their messages is ever produced for an array. *)
Theorem X10_name_length_errors_unreachable (names : list jsval) (charactersCount : option Z) :
  ~ In {| field := js "characterNames"; message := ERROR_MESSAGES.INVALID_CHARACTER_NAMES |}
       (names_errors (VArr names) charactersCount)
  /\ ~ In {| field := js "characterNames"; message := ERROR_MESSAGES.CHARACTER_NAME_TOO_LONG |}
         (names_errors (VArr names) charactersCount)
  /\ length (names_errors (VArr names) charactersCount) <= 1.
Proof.
  rewrite names_errors_array.
  destruct charactersCount as [count|]; [|repeat split; [intros [] | intros [] | simpl; lia]].
  destruct (negb (count =? 0) && negb (Z.of_nat (length (sanitizeCharacterNames names)) =? count))%Z;
    [|repeat split; [intros [] | intros [] | simpl; lia]].
  repeat split; [| |simpl; lia].
  - intros [H|[]]. apply (f_equal message) in H. cbn [message] in H.
    apply (f_equal (fun s => nth 0 s 0%N)) in H. vm_compute in H. discriminate.
  - intros [H|[]]. apply (f_equal message) in H. cbn [message] in H.
    apply (f_equal (fun s => nth 0 s 0%N)) in H. vm_compute in H. discriminate.
Qed.

Lemma valid_genre_cases g :
  isValidGenre g = true ->
  In g [js "fantasy"; js "mystery"; js "sci-fi"; js "romance"; js "horror"; js "adventure"].
Proof.
  unfold isValidGenre. intros H. apply existsb_exists in H. destruct H as (x & Hin & Hx).
  unfold str_eqb in Hx. apply bool_decide_eq_true in Hx. subst x. exact Hin.
Qed.

Lemma valid_genre_unchanged g : isValidGenre g = true -> sanitizeString g = g.
Proof.
  intros H. apply valid_genre_cases in H.
  repeat (destruct H as [<-|H]; [vm_compute; reflexivity|]). destruct H.
Qed.

Lemma genre_errors_nil v :
  genre_errors v = [] -> exists g, v = VStr g /\ isValidGenre g = true.
Proof.
  destruct v as [| | | |g| |]; try discriminate.
  destruct g as [|c g]; [discriminate|]. cbn [genre_errors].
  destruct (isValidGenre (c :: g)) eqn:E; [|discriminate].
  intros _. exists (c :: g). split; [reflexivity | exact E].
Qed.

Lemma valid_request data :
  isValid (validateStoryRequest data) = true ->
  exists g c p,
    JSVal.get data (js "genre") = VStr g /\ isValidGenre g = true
    /\ sanitizeNumber (JSVal.get data (js "characters")) 1 6 = Some c
    /\ sanitizeNumber (JSVal.get data (js "paragraphs")) 3 10 = Some p
    /\ names_errors (JSVal.get data (js "characterNames")) (Some c) = [].
Proof.
  unfold validateStoryRequest.
  change STORY_CONSTANTS.MIN_CHARACTERS with 1%Z. change STORY_CONSTANTS.MAX_CHARACTERS with 6%Z.
  change STORY_CONSTANTS.MIN_PARAGRAPHS with 3%Z. change STORY_CONSTANTS.MAX_PARAGRAPHS with 10%Z.
  set (gv := JSVal.get data (js "genre")).
  set (cv := sanitizeNumber (JSVal.get data (js "characters")) 1 6).
  set (pv := sanitizeNumber (JSVal.get data (js "paragraphs")) 3 10).
  set (nv := JSVal.get data (js "characterNames")).
  assert (Hmain :
    match genre_errors gv
          ++ match cv with
             | Some _ => []
             | None => [{| field := js "characters"; message := ERROR_MESSAGES.INVALID_CHARACTER_COUNT |}]
             end
          ++ match pv with
             | Some _ => []
             | None => [{| field := js "paragraphs"; message := ERROR_MESSAGES.INVALID_PARAGRAPH_COUNT |}]
             end
          ++ names_errors nv cv with
    | [] => true
    | _ :: _ => false
    end = true ->
    exists g c p, gv = VStr g /\ isValidGenre g = true /\ cv = Some c /\ pv = Some p
                  /\ names_errors nv (Some c) = []).
  { intros H.
    destruct (genre_errors gv) as [|e es] eqn:Eg; [|discriminate].
    destruct (genre_errors_nil _ Eg) as (g & -> & Hg).
    destruct cv as [c|]; [|discriminate]. destruct pv as [p|]; [|discriminate].
    cbn [app] in H. destruct (names_errors nv (Some c)) eqn:En; [|discriminate].
    exists g, c, p. repeat split; [exact Hg | exact En]. }
  destruct data; try discriminate; exact Hmain.
Qed.

Lemma sanitized_request_well_formed (data : jsval) (r : StoryRequest)
  (H : sanitizeStoryRequest data = Some r) :
  JSVal.get data (js "genre") = VStr (genre r)
  /\ isValidGenre (genre r) = true
  /\ (exists c, characters r = Some c /\ (1 <= c <= 6)%Z
       /\ forall names, characterNames r = Some names ->
            Z.of_nat (length names) = c
            /\ Forall (fun name => 0 < length name <= 50) names)
  /\ (exists p, paragraphs r = Some p /\ (3 <= p <= 10)%Z).
Proof.
  unfold sanitizeStoryRequest in H.
  destruct (isValid (validateStoryRequest data)) eqn:Hv; [|discriminate].
  cbn [negb] in H.
  destruct (valid_request _ Hv) as (g & c & p & Hg & Hvg & Hc & Hp & _).
  change STORY_CONSTANTS.MIN_CHARACTERS with 1%Z in H.
  change STORY_CONSTANTS.MAX_CHARACTERS with 6%Z in H.
  change STORY_CONSTANTS.MIN_PARAGRAPHS with 3%Z in H.
  change STORY_CONSTANTS.MAX_PARAGRAPHS with 10%Z in H.
  rewrite Hg, Hc, Hp, (valid_genre_unchanged _ Hvg) in H.
  inversion H; subst r; clear H. cbn [genre characters paragraphs characterNames].
  split; [exact Hg|]. split; [exact Hvg|]. split.
  - exists c. split; [reflexivity|]. split; [eapply sanitizeNumber_in_range; exact Hc|].
    intros names Hn. destruct (JSVal.get data (js "characterNames")); try discriminate.
    destruct (Z.of_nat (length (sanitizeCharacterNames elems)) =? c)%Z eqn:E; [|discriminate].
    inversion Hn; subst names. split; [apply Z.eqb_eq; exact E|].
    eapply Forall_impl; [apply sanitized_names|]. intros name Hname. apply Hname.
  - exists p. split; [reflexivity|]. eapply sanitizeNumber_in_range; exact Hp.
Qed.

(** X11. What [sanitizeStoryRequest] returns, when it returns a request:
    the genre is one of the six genres and is the genre that was sent,
    unchanged; the character count lies between 1 and 6 and the
    paragraph count between 3 and 10; the names, when the request keeps
    them, are as many as the characters and have one to fifty code units
    each. *)
Theorem X11_sanitized_request_is_well_formed (data : jsval) (r : StoryRequest)
  (H : sanitizeStoryRequest data = Some r) :
  JSVal.get data (js "genre") = VStr (genre r)
  /\ isValidGenre (genre r) = true
  /\ (exists c, characters r = Some c /\ (1 <= c <= 6)%Z
       /\ forall names, characterNames r = Some names ->
            Z.of_nat (length names) = c
            /\ Forall (fun name => 0 < length name <= 50) names)
  /\ (exists p, paragraphs r = Some p /\ (3 <= p <= 10)%Z).
Proof. exact (sanitized_request_well_formed data r H). Qed.

Lemma X11_sanitized_request_witness :
  let data := story_request (VStr (js "2")) (VNum (Fin 3.5)) (VArr (List.map VStr [js " Ann "; js "<b>Bob</b>"])) in
  let r := {| genre := js "fantasy"; characters := Some 2%Z;
              characterNames := Some [js "Ann"; js "Bob"]; paragraphs := Some 3%Z |} in
  sanitizeStoryRequest data = Some r
  /\ isValidGenre (genre r) = true.
Proof.
  intros data r.
  assert (H : sanitizeStoryRequest data = Some r) by (vm_compute; reflexivity).
  split; [exact H|]. exact (proj1 (proj2 (X11_sanitized_request_is_well_formed data r H))).
Defined.

Lemma sanitizeNumber_integer (z min max : Z) :
  (min <= z <= max)%Z -> sanitizeNumber (VNum (Fin (inject_Z z))) min max = Some z.
Proof.
  intros H. cbn [sanitizeNumber]. rewrite Qfloor_Z.
  replace ((min <=? z) && (z <=? max))%Z with true; [reflexivity|].
  symmetry. apply andb_true_iff. split; apply Z.leb_le; lia.
Qed.

Lemma clean_names_kept (names : list jstring) :
  length names <= 6 ->
  Forall (fun name => sanitizeString name = name /\ 0 < length name <= 50) names ->
  sanitizeCharacterNames (List.map VStr names) = names.
Proof.
  intros Hlen Hall. unfold sanitizeCharacterNames.
  assert (E : List.filter
                (fun name => (0 <? length name)
                             && (length name <=? STORY_CONSTANTS.MAX_CHARACTER_NAME_LENGTH))
                (List.map sanitizeString
                   (omap (fun name => match name with VStr s => Some s | _ => None end)
                      (List.map VStr names))) = names).
  { clear Hlen. induction Hall as [|name names [Hs Hl] _ IH]; [reflexivity|].
    cbn [List.map omap list_omap List.filter]. rewrite Hs.
    change STORY_CONSTANTS.MAX_CHARACTER_NAME_LENGTH with 50.
    replace ((0 <? length name) && (length name <=? 50)) with true.
    - cbn [List.map omap list_omap List.filter] in IH. cbn [fmap list_fmap]. 
      f_equal. exact IH.
    - symmetry. apply andb_true_iff. split; [apply Nat.ltb_lt | apply Nat.leb_le]; lia. }
  rewrite E. apply firstn_all2. exact Hlen.
Qed.

(** X12. A request that is already clean passes unchanged: with one of
    the six genres, integer counts within their bounds and as many names
    as characters, each name left alone by [sanitizeString] and of one to
    fifty code units, [sanitizeStoryRequest] returns the very values
    that were sent. *)
Theorem X12_clean_request_passes_unchanged (g : jstring) (c p : Z) (names : list jstring)
  (Hg : isValidGenre g = true)
  (Hc : (1 <= c <= 6)%Z)
  (Hp : (3 <= p <= 10)%Z)
  (Hlen : Z.of_nat (length names) = c)
  (Hnames : Forall (fun name => sanitizeString name = name /\ 0 < length name <= 50) names) :
  sanitizeStoryRequest
    (VObj [(js "genre", VStr g);
           (js "characters", VNum (Fin (inject_Z c)));
           (js "paragraphs", VNum (Fin (inject_Z p)));
           (js "characterNames", VArr (List.map VStr names))])
  = Some {| genre := g; characters := Some c; characterNames := Some names; paragraphs := Some p |}.
Proof.
  set (data := VObj _).
  assert (Eg : JSVal.get data (js "genre") = VStr g) by reflexivity.
  assert (Ec : JSVal.get data (js "characters") = VNum (Fin (inject_Z c))) by reflexivity.
  assert (Ep : JSVal.get data (js "paragraphs") = VNum (Fin (inject_Z p))) by reflexivity.
  assert (En : JSVal.get data (js "characterNames") = VArr (List.map VStr names)) by reflexivity.
  assert (Hkept : sanitizeCharacterNames (List.map VStr names) = names)
    by (apply clean_names_kept; [lia | exact Hnames]).
  assert (Hgen : genre_errors (VStr g) = []).
  { destruct g as [|x g]; [discriminate Hg|]. cbn [genre_errors]. rewrite Hg. reflexivity. }
  unfold sanitizeStoryRequest, validateStoryRequest. subst data. cbv zeta.
  change STORY_CONSTANTS.MIN_CHARACTERS with 1%Z. change STORY_CONSTANTS.MAX_CHARACTERS with 6%Z.
  change STORY_CONSTANTS.MIN_PARAGRAPHS with 3%Z. change STORY_CONSTANTS.MAX_PARAGRAPHS with 10%Z.
  rewrite !Eg, !Ec, !Ep, !En, Hgen, !(sanitizeNumber_integer c) by exact Hc.
  rewrite !(sanitizeNumber_integer p) by exact Hp.
  rewrite names_errors_array, Hkept, Hlen, Z.eqb_refl, andb_false_r.
  cbn [app isValid negb]. rewrite (valid_genre_unchanged _ Hg). reflexivity.
Qed.

Lemma X12_clean_request_witness :
  sanitizeStoryRequest
    (VObj [(js "genre", VStr (js "horror"));
           (js "characters", VNum (Fin (inject_Z 2)));
           (js "paragraphs", VNum (Fin (inject_Z 4)));
           (js "characterNames", VArr (List.map VStr [js "Ann"; js "Bob"]))])
  = Some {| genre := js "horror"; characters := Some 2%Z;
            characterNames := Some [js "Ann"; js "Bob"]; paragraphs := Some 4%Z |}.
Proof.
  apply (X12_clean_request_passes_unchanged (js "horror") 2 4 [js "Ann"; js "Bob"]).
  - vm_compute. reflexivity.
  - lia.
  - lia.
  - reflexivity.
  - repeat (apply List.Forall_cons; [vm_compute; repeat split; lia|]). apply List.Forall_nil.
Defined.

End Validator.

(** ** The rate limiter *)

Section RateLimitMore.
Import RateLimiter.

Lemma inside_window_full (k : Z) (n : nat) (reset : Z) :
  (10 <= k)%Z ->
  inside_window k n reset = repeat {| allowed := false; verdict_resetTime := reset |} n.
Proof.
  intros Hk. induction n as [|n IH]; [reflexivity|].
  cbn [inside_window repeat].
  assert (E : (k <? 10)%Z = false) by (apply Z.ltb_ge; lia).
  rewrite E, IH. reflexivity.
Qed.



(** X14. Deleting the expired entries is invisible to the callers: a
    call made after [cleanup] gets the verdict it would have got without
    it, and leaves the store that [cleanup] would have produced after
    the call. *)
Theorem X14_cleanup_is_invisible
  (identifier : jstring) (maxRequests windowMs now cleaned : Z) (requests : gmap jstring entry)
  (Hw : (0 <= windowMs)%Z)
  (Hnow : (cleaned <= now)%Z) :
  checkRateLimit identifier maxRequests windowMs now (cleanup cleaned requests)
  = ((checkRateLimit identifier maxRequests windowMs now requests).1,
     cleanup cleaned (checkRateLimit identifier maxRequests windowMs now requests).2).
Proof.
  unfold checkRateLimit, cleanup.
  destruct (requests !! identifier) as [current|] eqn:Hcur.
  - destruct (decide (resetTime current < cleaned)%Z) as [Hold|Hlive].
    + assert (Hnone : filter (fun kv : jstring * entry => ¬ (resetTime kv.2 < cleaned)%Z) requests
                      !! identifier = None).
      { apply map_lookup_filter_None. right. intros x Hx. rewrite Hcur in Hx.
        inversion Hx; subst x. simpl. intros Hn. apply Hn. exact Hold. }
      rewrite Hnone.
      assert (E : (resetTime current <? now)%Z = true) by (apply Z.ltb_lt; lia).
      rewrite E. cbn [fst snd]. f_equal.
      rewrite map_filter_insert_True; [reflexivity|]. simpl. lia.
    + assert (Hsome : filter (fun kv : jstring * entry => ¬ (resetTime kv.2 < cleaned)%Z) requests
                      !! identifier = Some current).
      { apply map_lookup_filter_Some. split; [exact Hcur | exact Hlive]. }
      rewrite Hsome.
      destruct (resetTime current <? now)%Z.
      * cbn [fst snd]. f_equal. rewrite map_filter_insert_True; [reflexivity|]. simpl. lia.
      * destruct (maxRequests <=? count current)%Z; cbn [fst snd]; [reflexivity|].
        f_equal. rewrite map_filter_insert_True; [reflexivity|]. simpl. exact Hlive.
  - assert (Hnone : filter (fun kv : jstring * entry => ¬ (resetTime kv.2 < cleaned)%Z) requests
                    !! identifier = None).
    { apply map_lookup_filter_None. left. exact Hcur. }
    rewrite Hnone. cbn [fst snd]. f_equal.
    rewrite map_filter_insert_True; [reflexivity|]. simpl. lia.
Qed.

Lemma X14_cleanup_witness :
  checkRateLimit (js "a") 10 60000 200
    (cleanup 150 (<[js "a" := {| count := 10; resetTime := 100 |}]> ∅))
  = ((checkRateLimit (js "a") 10 60000 200 (<[js "a" := {| count := 10; resetTime := 100 |}]> ∅)).1,
     cleanup 150
       (checkRateLimit (js "a") 10 60000 200 (<[js "a" := {| count := 10; resetTime := 100 |}]> ∅)).2).
Proof.
  apply (X14_cleanup_is_invisible (js "a") 10 60000 200 150); lia.
Defined.

End RateLimitMore.

(** ** The continuation endpoint *)

Section Continuation.
Import ContinueRoute.

Lemma nonblank_or_fallback line :
  StoryParsingUtils.nonblank line = true -> or_fallback line = line.
Proof. destruct line; [discriminate | reflexivity]. Qed.

Lemma map_indexed_lines genre startingId : forall lines k,
  Forall (fun line => StoryParsingUtils.nonblank line = true) lines ->
  map_indexed (new_paragraph genre startingId) k
    (List.map
       (fun text =>
          literal_paragraph (or_fallback text)
            (ImagePromptUtils.createFallbackPrompt (or_fallback text) genre))
       lines)
  = Ok (line_paragraphs genre (startingId + Z.of_nat k) lines).
Proof.
  induction lines as [|line lines IH]; intros k Hall; [reflexivity|].
  inversion Hall as [|? ? Hline Hrest]; subst.
  cbn [List.map map_indexed line_paragraphs].
  rewrite (nonblank_or_fallback _ Hline), (IH (S k) Hrest).
  replace (startingId + Z.of_nat (S k))%Z with (startingId + Z.of_nat k + 1)%Z by lia.
  reflexivity.
Qed.

Lemma filter_all {A} (f : A -> bool) (l : list A) :
  Forall (fun x => f x = true) (List.filter f l).
Proof. apply List.Forall_forall. intros x Hx. apply filter_In in Hx. apply Hx. Qed.

(** X15. When the provider's text gives no [paragraphs] to read, the
    continuation endpoint answers from the text itself: one paragraph
    for each line that is not blank, in order, the line as it stands
    for text, numbered on from the paragraphs the story already has;
    and the one fixed paragraph when every line is blank. *)
Theorem X15_continuation_from_plain_lines
  (continueRequest : ContinueStoryRequest) (rawResponse : jstring) (data : json)
  (Hid : storyId continueRequest <> [])
  (Hgenre : genre continueRequest <> [])
  (Hparse : JSONUtils.parseWithFallback rawResponse None = Ok data)
  (Hnone : has_paragraphs data = false) :
  let startingId := (Z.of_nat (length (existingParagraphs continueRequest)) + 1)%Z in
  POST continueRequest (Ok rawResponse)
  = NewParagraphs
      match List.filter StoryParsingUtils.nonblank (split_on 10 rawResponse) with
      | [] =>
          [{| id := startingId;
              text := Some (JString STORY_CONSTANTS.FALLBACK_PARAGRAPH);
              imagePrompt :=
                ImagePromptUtils.enhancePrompt
                  (replace_str (js "{genre}") (genre continueRequest)
                     STORY_CONSTANTS.FALLBACK_IMAGE_PROMPT_SUFFIX)
                  (genre continueRequest) |}]
      | lines => line_paragraphs (genre continueRequest) startingId lines
      end.
Proof.
  intros startingId. unfold POST.
  destruct (storyId continueRequest) as [|c0 sid]; [congruence|].
  destruct (genre continueRequest) as [|g0 g]; [congruence|].
  cbn [rbind]. rewrite Hparse. cbn [rbind].
  assert (Hfb : match get data (js "paragraphs") with
                | Some ps => if truthy data && truthy ps then ps
                             else fallback_paragraphs rawResponse (g0 :: g)
                | None => fallback_paragraphs rawResponse (g0 :: g)
                end = fallback_paragraphs rawResponse (g0 :: g)).
  { unfold has_paragraphs in Hnone. destruct (get data (js "paragraphs")); [|reflexivity].
    rewrite Hnone. reflexivity. }
  rewrite Hfb. unfold fallback_paragraphs.
  pose proof (filter_all StoryParsingUtils.nonblank (split_on 10 rawResponse)) as Hall.
  destruct (List.filter StoryParsingUtils.nonblank (split_on 10 rawResponse)) as [|line lines].
  - cbn [List.map]. change (length_is_zero (JArray [])) with true.
    cbn [map_indexed rbind]. unfold new_paragraph, literal_paragraph.
    change (Z.of_nat 0) with 0%Z. rewrite Z.add_0_r. reflexivity.
  - set (ls := line :: lines) in *.
    assert (Hz : length_is_zero
                   (JArray (List.map
                      (fun text =>
                         literal_paragraph (or_fallback text)
                           (ImagePromptUtils.createFallbackPrompt (or_fallback text) (g0 :: g)))
                      ls)) = false) by reflexivity.
    rewrite Hz. rewrite (map_indexed_lines (g0 :: g) _ ls 0 Hall). cbn [rbind].
    replace (Z.of_nat (length (existingParagraphs continueRequest)) + 1 + Z.of_nat 0)%Z
      with startingId by (unfold startingId; lia).
    reflexivity.
Qed.

Lemma X15_continuation_witness :
  POST {| storyId := js "s1"; existingParagraphs := [js "Once."]; genre := js "horror";
          additionalParagraphs := None |}
       (Ok (js "A door creaked." ++ [10; 10]%N ++ js "  Nobody came."))
  = NewParagraphs
      (line_paragraphs (js "horror") 2 [js "A door creaked."; js "  Nobody came."]).
Proof.
  apply (X15_continuation_from_plain_lines
           {| storyId := js "s1"; existingParagraphs := [js "Once."]; genre := js "horror";
              additionalParagraphs := None |}
           (js "A door creaked." ++ [10; 10]%N ++ js "  Nobody came.") JNull).
  - discriminate.
  - discriminate.
  - vm_compute. reflexivity.
  - reflexivity.
Defined.

(** X16. The continuation endpoint never answers with an empty list of
    new paragraphs. *)
Theorem X16_continuation_is_never_empty
  (continueRequest : ContinueStoryRequest) (generated : result jstring)
  (newParagraphs : list Paragraph)
  (H : POST continueRequest generated = NewParagraphs newParagraphs) :
  newParagraphs <> [].
Proof.
  unfold POST in H.
  destruct (storyId continueRequest) as [|c0 sid]; [discriminate|].
  destruct (genre continueRequest) as [|g0 g]; [discriminate|].
  destruct generated as [rawResponse|e]; cbn [rbind] in H; [|discriminate].
  destruct (JSONUtils.parseWithFallback rawResponse None) as [data|e]; cbn [rbind] in H;
    [|discriminate].
  match type of H with
  | context [if length_is_zero ?ps then _ else _] =>
      destruct (length_is_zero ps) eqn:Hz; [|destruct ps as [| | | |elems|] eqn:Hps]
  end; try discriminate.
  - cbn [map_indexed rbind] in H. 
    match type of H with
    | context [new_paragraph ?a ?b ?c ?d] => destruct (new_paragraph a b c d); cbn [rbind] in H
    end; [|discriminate].
    inversion H. discriminate.
  - destruct (map_indexed _ 0 elems) as [ys|e] eqn:Hmap; cbn [rbind] in H; [|discriminate].
    inversion H; subst ys. apply map_indexed_length in Hmap.
    destruct elems; [discriminate Hz|]. destruct newParagraphs; [discriminate Hmap | discriminate].
Qed.

Lemma X16_continuation_witness :
  exists newParagraphs,
    POST {| storyId := js "s1"; existingParagraphs := []; genre := js "horror";
            additionalParagraphs := None |}
         (Ok (jq "{'paragraphs':[]}"))
    = NewParagraphs newParagraphs
    /\ newParagraphs <> [].
Proof.
  set (p := {| id := 1; text := Some (JString (js "The story continues..."));
               imagePrompt :=
                 ImagePromptUtils.enhancePrompt (js "Additional scene from a horror story")
                   (js "horror") |}).
  assert (H : POST {| storyId := js "s1"; existingParagraphs := []; genre := js "horror";
                      additionalParagraphs := None |}
                   (Ok (jq "{'paragraphs':[]}"))
              = NewParagraphs [p]) by (vm_compute; reflexivity).
  exists [p]. split; [exact H|].
  exact (X16_continuation_is_never_empty _ _ _ H).
Defined.

End Continuation.

(** ** The regeneration endpoint and the image endpoint *)

Section OtherEndpoints.

Lemma or_fallback_truthy text : truthy (JString (ContinueRoute.or_fallback text)) = true.
Proof. destruct text; reflexivity. Qed.

(** Printing a parsed value throws nothing but a TypeError. *)
Lemma to_string_throws : forall (v : json) (e : exn),
  ContinueRoute.to_string v = Throw e -> e = TypeError.
Proof.
  fix IH 1. intros v. destruct v as [| [|] |lexeme|str|elems|fields]; intros e;
    try (intros H; discriminate H).
  - cbn [ContinueRoute.to_string]. revert e. generalize elems.
    fix IHl 1. intros l e. destruct l as [|x l']; [intros H; discriminate H|].
    assert (Hx : forall e0, match x with JNull => Ok [] | _ => ContinueRoute.to_string x end
                            = Throw e0 -> e0 = TypeError).
    { pose proof (IH x) as IHx. intros e0 H0.
      destruct x; try discriminate H0; exact (IHx _ H0). }
    pose proof (IHl l') as Hrest.
    destruct l' as [|y l''].
    + intros H. exact (Hx _ H).
    + intros H.
      destruct (match x with JNull => Ok [] | _ => ContinueRoute.to_string x end)
        as [first|e0] eqn:E; cbn [rbind] in H.
      * match type of H with
        | rbind ?m _ = _ => destruct m as [rest|e1]; cbn [rbind] in H; [discriminate H|]
        end.
        inversion H; subst e1. exact (Hrest _ eq_refl).
      * inversion H; subst e0. exact (Hx _ eq_refl).
  - cbn [ContinueRoute.to_string].
    destruct (lookup_field (js "toString") fields); intros H; inversion H; reflexivity.
Qed.

(** X17. A regeneration request that names its story, its paragraph and
    the current text is answered with a paragraph once the provider has
    answered, unless printing the image prompt throws.  The paragraph
    keeps the identifier of the request and its text is truthy; when
    nothing of the provider's text parses, the text is the provider's
    text, trimmed, or the fixed paragraph when that is empty.  The other
    answer is the failure with a TypeError, given only when the parsed
    value has a truthy text and an image prompt whose conversion to a
    string throws. *)
Theorem X17_regeneration_gives_a_paragraph_or_a_type_error
  (regenerateRequest : RegenerateRoute.RegenerateParagraphRequest) (rawResponse : jstring)
  (Hid : RegenerateRoute.storyId regenerateRequest <> [])
  (Hpar : RegenerateRoute.paragraphId regenerateRequest <> 0%Z)
  (Hcur : RegenerateRoute.currentParagraph regenerateRequest <> []) :
  (exists paragraph,
     RegenerateRoute.POST regenerateRequest (Ok rawResponse) = RegenerateRoute.Regenerated paragraph
     /\ ContinueRoute.id paragraph = RegenerateRoute.paragraphId regenerateRequest
     /\ ContinueRoute.truthy_opt (ContinueRoute.text paragraph) = true
     /\ (first_parsed (candidates rawResponse) = None ->
         ContinueRoute.text paragraph
         = Some (JString (ContinueRoute.or_fallback (trim rawResponse)))))
  \/ (RegenerateRoute.POST regenerateRequest (Ok rawResponse) = RegenerateRoute.Failure TypeError
      /\ exists parsed,
           first_parsed (candidates rawResponse) = Some parsed
           /\ truthy parsed && ContinueRoute.truthy_opt (get parsed (js "text")) = true
           /\ ContinueRoute.to_string_opt (get parsed (js "imagePrompt")) = Throw TypeError).
Proof.
  assert (Hgo : forall a,
    a = match JSONUtils.parseWithFallback rawResponse None with
        | Throw e => RegenerateRoute.Failure e
        | Ok parsed =>
            let paragraphData :=
              if truthy parsed && ContinueRoute.truthy_opt (get parsed (js "text")) then parsed
              else
                let text := ContinueRoute.or_fallback (trim rawResponse) in
                ContinueRoute.literal_paragraph text
                  (ImagePromptUtils.createFallbackPrompt text
                     (RegenerateRoute.genre regenerateRequest)) in
            match ContinueRoute.to_string_opt (get paragraphData (js "imagePrompt")) with
            | Throw e => RegenerateRoute.Failure e
            | Ok originalPrompt =>
                RegenerateRoute.Regenerated
                  {| ContinueRoute.id := RegenerateRoute.paragraphId regenerateRequest;
                     ContinueRoute.text := get paragraphData (js "text");
                     ContinueRoute.imagePrompt :=
                       ImagePromptUtils.enhancePrompt originalPrompt
                         (RegenerateRoute.genre regenerateRequest) |}
            end
        end ->
    (exists paragraph,
       a = RegenerateRoute.Regenerated paragraph
       /\ ContinueRoute.id paragraph = RegenerateRoute.paragraphId regenerateRequest
       /\ ContinueRoute.truthy_opt (ContinueRoute.text paragraph) = true
       /\ (first_parsed (candidates rawResponse) = None ->
           ContinueRoute.text paragraph
           = Some (JString (ContinueRoute.or_fallback (trim rawResponse)))))
    \/ (a = RegenerateRoute.Failure TypeError
        /\ exists parsed,
             first_parsed (candidates rawResponse) = Some parsed
             /\ truthy parsed && ContinueRoute.truthy_opt (get parsed (js "text")) = true
             /\ ContinueRoute.to_string_opt (get parsed (js "imagePrompt")) = Throw TypeError)).
  { intros a Ha. rewrite parseWithFallback_first_parsed in Ha.
    destruct (first_parsed (candidates rawResponse)) as [parsed|].
    - change (default _ (Some parsed)) with parsed in Ha. cbv zeta in Ha.
      destruct (truthy parsed && ContinueRoute.truthy_opt (get parsed (js "text"))) eqn:E.
      + destruct (ContinueRoute.to_string_opt (get parsed (js "imagePrompt")))
          as [originalPrompt|e] eqn:Hprint.
        * left. eexists. split; [exact Ha|]. cbn [ContinueRoute.id ContinueRoute.text].
          split; [reflexivity|]. split; [apply andb_true_iff in E; apply E | discriminate].
        * right.
          assert (He : e = TypeError).
          { destruct (get parsed (js "imagePrompt")) as [v|]; [|discriminate Hprint].
            exact (to_string_throws _ _ Hprint). }
          subst e. split; [exact Ha|]. exists parsed. repeat split; assumption.
      + left. eexists. split; [exact Ha|]. cbn [ContinueRoute.id ContinueRoute.text].
        split; [reflexivity|]. split; [apply or_fallback_truthy | discriminate].
    - change (default (fallback_or_null None) None) with JNull in Ha. cbv zeta in Ha.
      left. eexists. split; [exact Ha|]. cbn [ContinueRoute.id ContinueRoute.text].
      split; [reflexivity|]. split; [apply or_fallback_truthy | reflexivity]. }
  apply Hgo. unfold RegenerateRoute.POST.
  destruct (RegenerateRoute.storyId regenerateRequest) as [|c0 sid]; [congruence|].
  destruct (RegenerateRoute.paragraphId regenerateRequest) as [|n|n]; [congruence| |];
    (destruct (RegenerateRoute.currentParagraph regenerateRequest) as [|p0 cur]; [congruence|]);
    reflexivity.
Qed.

Lemma X17_regeneration_witness :
  exists paragraph,
    RegenerateRoute.POST
      {| RegenerateRoute.storyId := js "s1"; RegenerateRoute.paragraphId := 2;
         RegenerateRoute.currentParagraph := js "Old text.";
         RegenerateRoute.previousParagraphs := []; RegenerateRoute.followingParagraphs := [];
         RegenerateRoute.genre := js "mystery" |}
      (Ok (js "  A key turned.  "))
    = RegenerateRoute.Regenerated paragraph
    /\ ContinueRoute.id paragraph = 2%Z.
Proof.
  destruct (X17_regeneration_gives_a_paragraph_or_a_type_error
              {| RegenerateRoute.storyId := js "s1"; RegenerateRoute.paragraphId := 2;
                 RegenerateRoute.currentParagraph := js "Old text.";
                 RegenerateRoute.previousParagraphs := []; RegenerateRoute.followingParagraphs := [];
                 RegenerateRoute.genre := js "mystery" |}
              (js "  A key turned.  "))
    as [(paragraph & Hpost & Hidp & _)|(Hfail & _)]; try discriminate.
  exists paragraph. split; [exact Hpost | exact Hidp].
Defined.

(** X18. Unless [IMAGE_PROVIDER] names one of the two hosted services,
    the image endpoint answers every request that has a prompt and a
    paragraph identifier with the placeholder picture of that prompt and
    the same identifier: no variable at all, an empty one and an unknown
    name all select the placeholder provider, and nothing is asked of a
    service. *)
Theorem X18_image_endpoint_defaults_to_placeholder
  (env : environment) (prompt : jstring) (paragraphId : Z) (random : Number.double)
  (remote : result jstring)
  (Hprovider : ~ In (or_else (env (js "IMAGE_PROVIDER")) (js "mock")) [js "replicate"; js "gemini"])
  (Hprompt : prompt <> [])
  (Hid : paragraphId <> 0%Z) :
  ImagesRoute.POST env prompt paragraphId random remote
  = ImagesRoute.Image (ImageFactory.Mock_generateImage prompt random) paragraphId.
Proof.
  unfold ImagesRoute.POST, ImagesRoute.getDefaultImageProvider, ImageFactory.createImageProvider.
  set (name := or_else (env (js "IMAGE_PROVIDER")) (js "mock")) in *.
  unfold str_eqb. rewrite !bool_decide_eq_false_2 by (intros E; apply Hprovider; rewrite E; simpl; tauto).
  destruct prompt as [|c prompt]; [congruence|].
  destruct paragraphId; [congruence| |]; reflexivity.
Qed.

Lemma X18_image_endpoint_witness :
  ImagesRoute.POST (fun _ => None) (js "a castle") 3 (Number.of_lexeme (js "0.5"))
    (Throw TypeError)
  = ImagesRoute.Image
      (ImageFactory.Mock_generateImage (js "a castle") (Number.of_lexeme (js "0.5"))) 3.
Proof.
  apply X18_image_endpoint_defaults_to_placeholder.
  - vm_compute. intros [H|[H|[]]]; discriminate H.
  - discriminate.
  - discriminate.
Defined.

End OtherEndpoints.

(** ** The generation endpoint *)

Section Generation.
Import GenerateRoute.

Lemma new_paragraph_total genre startingId k p :
  readable p -> exists y, ContinueRoute.new_paragraph genre startingId k p = Ok y.
Proof.
  intros [Hnull Hprompt]. unfold ContinueRoute.new_paragraph.
  destruct (get p (js "imagePrompt")) as [[| | |prompt| |]|]; try discriminate Hprompt.
  destruct p; try congruence; eexists; reflexivity.
Qed.

Lemma map_indexed_total genre startingId : forall elems k,
  Forall readable elems ->
  exists ys, ContinueRoute.map_indexed (ContinueRoute.new_paragraph genre startingId) k elems = Ok ys.
Proof.
  induction elems as [|p elems IH]; intros k Hall; [exists []; reflexivity|].
  inversion Hall as [|? ? Hp Hrest]; subst.
  destruct (IH (S k) Hrest) as (ys & Hys).
  destruct (new_paragraph_total genre startingId k p Hp) as (y & Hy).
  cbn [ContinueRoute.map_indexed]. rewrite Hy, Hys. eexists. reflexivity.
Qed.

Lemma every_ok_readable : forall elems,
  JSONUtils.every JSONUtils.paragraph_ok elems = Ok true -> Forall readable elems.
Proof.
  induction elems as [|p elems IH]; intros H; [apply List.Forall_nil|].
  cbn [JSONUtils.every] in H.
  destruct (JSONUtils.paragraph_ok p) as [b|e] eqn:Hp; cbn [rbind] in H; [|discriminate].
  destruct b; [|discriminate].
  apply List.Forall_cons; [|apply IH; exact H].
  split; [intros ->; discriminate Hp|].
  unfold JSONUtils.paragraph_ok in Hp.
  assert (Hboth : is_string (get p (js "text")) && is_string (get p (js "imagePrompt")) = true)
    by (destruct p; try discriminate Hp; injection Hp as Hp'; exact Hp').
  apply andb_true_iff in Hboth. apply Hboth.
Qed.

Lemma valid_structure data :
  JSONUtils.validateStoryStructure data = Ok true ->
  is_string (get data (js "preface")) = true
  /\ exists elems, get data (js "paragraphs") = Some (JArray elems)
                   /\ Forall readable elems.
Proof.
  unfold JSONUtils.validateStoryStructure. intros H.
  destruct (truthy data); cbn [negb] in H; [|discriminate].
  assert (Hgo :
    (if negb (is_string (get data (js "preface"))) then Ok false
     else match get data (js "paragraphs") with
          | Some (JArray paragraphs) => JSONUtils.every JSONUtils.paragraph_ok paragraphs
          | _ => Ok false
          end) = Ok true).
  { destruct data; try discriminate; exact H. }
  clear H. destruct (is_string (get data (js "preface"))); cbn [negb] in Hgo; [|discriminate].
  split; [reflexivity|].
  destruct (get data (js "paragraphs")) as [[| | | |elems|]|]; try discriminate.
  exists elems. split; [reflexivity|]. apply every_ok_readable. exact Hgo.
Qed.

Lemma plain_structure st :
  is_string (get (StoryParsingUtils.story_to_json st) (js "preface")) = true
  /\ exists elems,
       get (StoryParsingUtils.story_to_json st) (js "paragraphs") = Some (JArray elems)
       /\ Forall readable elems
       /\ length elems = length (StoryParsingUtils.story_paragraphs st).
Proof.
  split; [reflexivity|].
  exists (List.map StoryParsingUtils.paragraph_to_json (StoryParsingUtils.story_paragraphs st)).
  split; [reflexivity|]. split; [|apply length_map].
  apply List.Forall_forall. intros p Hp. apply in_map_iff in Hp.
  destruct Hp as (x & <- & _). split; [discriminate | reflexivity].
Qed.

Lemma parsed_story_structure rawResponse req storyData :
  StoryParsingUtils.parseStoryResponse rawResponse req = Ok storyData ->
  is_string (get storyData (js "preface")) = true
  /\ exists elems, get storyData (js "paragraphs") = Some (JArray elems)
                   /\ Forall readable elems.
Proof.
  unfold StoryParsingUtils.parseStoryResponse.
  rewrite parseWithFallback_first_parsed. cbn [rbind].
  destruct (JSONUtils.validateStoryStructure _) as [[|]|e] eqn:Hv; cbn [rbind];
    intros H; inversion H; subst; clear H.
  - apply valid_structure. exact Hv.
  - destruct (plain_structure (StoryParsingUtils.parseAsPlainText rawResponse req))
      as (Hp & elems & He & Hall & _).
    split; [exact Hp|]. exists elems. split; [exact He | exact Hall].
Qed.

Lemma respond_total uuid genre rawResponse req storyData :
  StoryParsingUtils.parseStoryResponse rawResponse req = Ok storyData ->
  exists response, respond uuid genre storyData = Ok response.
Proof.
  intros H. destruct (parsed_story_structure _ _ _ H) as (_ & elems & He & Hall).
  unfold respond. rewrite He.
  destruct (map_indexed_total genre 1 elems 0 Hall) as (ys & Hys).
  rewrite Hys. eexists. reflexivity.
Qed.

(** X19. Two answers of the generation endpoint are never given.  The
    400 answer that follows [sanitizeStoryRequest] is unreachable,
    since that function returns [null] only for a request that the
    validation before it has already turned away; and numbering the
    paragraphs never throws, since a story that [parseStoryResponse]
    returns always has an array of paragraphs without [null] in it. *)
Theorem X19_generation_unreachable_answers
  (r : RequestValidator.request) (now : Z) (requests : gmap jstring RateLimiter.entry)
  (body : result jsval) (provider : result bool) (generated : result jstring)
  (uuid : jstring) :
  (POST r now requests body provider generated uuid).1 <> InvalidRequest
  /\ forall e, (POST r now requests body provider generated uuid).1 <> Failure e.
Proof.
  assert (Hboth : forall a, a = (POST r now requests body provider generated uuid).1 ->
                            a <> InvalidRequest /\ forall e, a <> Failure e).
  { intros a Ha. unfold POST in Ha.
    destruct (negb (RequestValidator.validateMethod r [js "POST"]));
      [subst a; split; [|intros e]; discriminate|].
    destruct (negb (RequestValidator.validateContentType r));
      [subst a; split; [|intros e]; discriminate|].
    destruct (negb (RequestValidator.validateRequestSize r));
      [subst a; split; [|intros e]; discriminate|].
    destruct (RateLimiter.checkRateLimit (clientIP r) 10 60000 now requests) as [rateLimit s].
    destruct (negb (RateLimiter.allowed rateLimit));
      [subst a; split; [|intros e]; discriminate|].
    destruct body as [requestData|e0]; [|subst a; split; [|intros e]; discriminate].
    destruct (negb (StoryValidator.isValid (StoryValidator.validateStoryRequest requestData)))
      eqn:Hvalid; [subst a; split; [|intros e]; discriminate|].
    unfold StorySanitizer.sanitizeStoryRequest in Ha. rewrite Hvalid in Ha.
    destruct provider as [[|]|e0]; try (subst a; split; [|intros e]; discriminate).
    destruct generated as [rawResponse|e0]; [|subst a; split; [|intros e]; discriminate].
    destruct (StoryParsingUtils.parseStoryResponse rawResponse _) as [storyData|e0] eqn:Hparse;
      [|subst a; split; [|intros e]; discriminate].
    match type of Ha with
    | context [respond ?u ?g ?d] =>
        destruct (respond_total u g _ _ _ Hparse) as (response & Hr); rewrite Hr in Ha
    end.
    subst a; split; [|intros e]; discriminate. }
  apply Hboth. reflexivity.
Qed.

(** X20. The rate limiter is asked after the three checks on the
    request and before the body is read: a request turned away by one
    of the three checks is not counted, and every other request is,
    whatever its body holds and whatever the provider does. *)
Theorem X20_limiter_counts_after_the_request_checks
  (r : RequestValidator.request) (now : Z) (requests : gmap jstring RateLimiter.entry)
  (body : result jsval) (provider : result bool) (generated : result jstring)
  (uuid : jstring) :
  (POST r now requests body provider generated uuid).2
  = if RequestValidator.validateMethod r [js "POST"]
       && RequestValidator.validateContentType r
       && RequestValidator.validateRequestSize r
    then (RateLimiter.checkRateLimit (clientIP r) 10 60000 now requests).2
    else requests.
Proof.
  unfold POST.
  destruct (RequestValidator.validateMethod r [js "POST"]); [|reflexivity].
  destruct (RequestValidator.validateContentType r); [|reflexivity].
  destruct (RequestValidator.validateRequestSize r); [|reflexivity].
  cbn [negb andb].
  destruct (RateLimiter.checkRateLimit (clientIP r) 10 60000 now requests) as [rateLimit s].
  destruct (negb (RateLimiter.allowed rateLimit)); [reflexivity|].
  destruct body as [requestData|e0]; [|reflexivity].
  destruct (negb (StoryValidator.isValid (StoryValidator.validateStoryRequest requestData)));
    [reflexivity|].
  destruct (StorySanitizer.sanitizeStoryRequest requestData); [|reflexivity].
  destruct provider as [[|]|e0]; try reflexivity.
  destruct generated as [rawResponse|e0]; [|reflexivity].
  destruct (StoryParsingUtils.parseStoryResponse rawResponse _); [|reflexivity].
  destruct (respond _ _ _); reflexivity.
Qed.

(** X21. What a 200 answer of the generation endpoint holds: the drawn
    story identifier, a preface that is a string, and paragraphs
    numbered 1, 2, 3, ... in order; and it is given only to a request
    that passed the validation, with a provider that reported itself
    healthy and returned a text. *)
Theorem X21_generated_story_is_numbered_from_one
  (r : RequestValidator.request) (now : Z) (requests : gmap jstring RateLimiter.entry)
  (body : result jsval) (provider : result bool) (generated : result jstring)
  (uuid : jstring) (story : StoryResponse)
  (H : (POST r now requests body provider generated uuid).1 = Generated story) :
  storyId story = uuid
  /\ is_string (preface story) = true
  /\ (forall i p, nth_error (paragraphs story) i = Some p ->
                  ContinueRoute.id p = (Z.of_nat i + 1)%Z)
  /\ (exists requestData rawResponse,
        body = Ok requestData
        /\ StoryValidator.isValid (StoryValidator.validateStoryRequest requestData) = true
        /\ provider = Ok true
        /\ generated = Ok rawResponse).
Proof.
  unfold POST in H.
  destruct (negb (RequestValidator.validateMethod r [js "POST"])); [discriminate|].
  destruct (negb (RequestValidator.validateContentType r)); [discriminate|].
  destruct (negb (RequestValidator.validateRequestSize r)); [discriminate|].
  destruct (RateLimiter.checkRateLimit (clientIP r) 10 60000 now requests) as [rateLimit s].
  destruct (negb (RateLimiter.allowed rateLimit)); [discriminate|].
  destruct body as [requestData|e0]; [|discriminate].
  destruct (negb (StoryValidator.isValid (StoryValidator.validateStoryRequest requestData)))
    eqn:Hvalid; [discriminate|].
  destruct (StorySanitizer.sanitizeStoryRequest requestData) as [storyRequest|]; [|discriminate].
  destruct provider as [[|]|e0]; try discriminate.
  destruct generated as [rawResponse|e0]; [|discriminate].
  destruct (StoryParsingUtils.parseStoryResponse rawResponse _) as [storyData|e0] eqn:Hparse;
    [|discriminate].
  destruct (parsed_story_structure _ _ _ Hparse) as (Hpre & elems & He & _).
  unfold respond in H. rewrite He in H.
  destruct (ContinueRoute.map_indexed _ 0 elems) as [ys|e0] eqn:Hmap; cbn [rbind fst] in H;
    [|discriminate].
  inversion H; subst story; clear H. cbn [storyId preface paragraphs].
  split; [reflexivity|]. split; [exact Hpre|]. split.
  - intros i p Hnth.
    destruct (map_indexed_nth _ _ _ _ _ _ Hmap Hnth) as (x & _ & Hx).
    apply new_paragraph_id in Hx. rewrite Hx. cbn [Nat.add]. lia.
  - exists requestData, rawResponse. repeat split.
    apply negb_false_iff. exact Hvalid.
Qed.

Lemma X21_generated_story_witness :
  let r := {| RequestValidator.method := js "POST";
              RequestValidator.header :=
                fun name => if str_eqb name (js "content-type")
                            then Some (js "application/json") else None |} in
  let body := Ok (story_request (VNum (Fin 2)) (VNum (Fin 3)) VUndefined) in
  let generated :=
    Ok (jq "{'preface':'p','paragraphs':[{'text':'a','imagePrompt':'x'},{'text':'b','imagePrompt':'y'}]}") in
  exists story,
    (POST r 0 ∅ body (Ok true) generated (js "id-1")).1 = Generated story
    /\ storyId story = js "id-1"
    /\ List.map ContinueRoute.id (paragraphs story) = [1; 2]%Z.
Proof.
  intros r body generated.
  destruct (POST r 0 ∅ body (Ok true) generated (js "id-1")).1 as [| | | | | | | | |story| |] eqn:E;
    try (vm_compute in E; discriminate E).
  exists story. split; [reflexivity|].
  split; [exact (proj1 (X21_generated_story_is_numbered_from_one _ _ _ _ _ _ _ _ E))|].
  vm_compute in E. inversion E. reflexivity.
Defined.

(** X22. When the provider answers a valid request in prose, that is
    with a text out of which no story in JSON can be read, the endpoint
    answers 200 with exactly as many paragraphs as the request asked
    for. *)
Theorem X22_prose_reply_gives_the_requested_count
  (r : RequestValidator.request) (now : Z) (requests : gmap jstring RateLimiter.entry)
  (requestData : jsval) (storyRequest : StorySanitizer.StoryRequest)
  (rawResponse : jstring) (data : json) (uuid : jstring)
  (Hchecks : RequestValidator.validateMethod r [js "POST"]
             && RequestValidator.validateContentType r
             && RequestValidator.validateRequestSize r = true)
  (Hallowed : RateLimiter.allowed
                (RateLimiter.checkRateLimit (clientIP r) 10 60000 now requests).1 = true)
  (Hrequest : StorySanitizer.sanitizeStoryRequest requestData = Some storyRequest)
  (Hparse : JSONUtils.parseWithFallback rawResponse None = Ok data)
  (Hprose : JSONUtils.validateStoryStructure data = Ok false) :
  exists story count,
    (POST r now requests (Ok requestData) (Ok true) (Ok rawResponse) uuid).1 = Generated story
    /\ StorySanitizer.paragraphs storyRequest = Some count
    /\ (3 <= count <= 10)%Z
    /\ length (paragraphs story) = Z.to_nat count.
Proof.
  apply andb_true_iff in Hchecks. destruct Hchecks as [Hchecks Hsize].
  apply andb_true_iff in Hchecks. destruct Hchecks as [Hmethod Htype].
  destruct (sanitized_request_well_formed _ _ Hrequest)
    as (_ & _ & _ & count & Hcount & Hrange).
  unfold POST. rewrite Hmethod, Htype, Hsize. cbn [negb].
  destruct (RateLimiter.checkRateLimit (clientIP r) 10 60000 now requests) as [rateLimit s].
  cbn [fst] in Hallowed. rewrite Hallowed. cbn [negb].
  assert (Hvalid : StoryValidator.isValid (StoryValidator.validateStoryRequest requestData) = true).
  { unfold StorySanitizer.sanitizeStoryRequest in Hrequest.
    destruct (StoryValidator.isValid _); [reflexivity | discriminate]. }
  rewrite Hvalid, Hrequest. cbn [negb]. rewrite Hcount.
  change (default 0%Z (Some count)) with count.
  set (req := {| StoryParsingUtils.genre := StorySanitizer.genre storyRequest;
                 StoryParsingUtils.paragraphs := count |}).
  assert (Hstory : StoryParsingUtils.parseStoryResponse rawResponse req
                   = Ok (StoryParsingUtils.story_to_json
                           (StoryParsingUtils.parseAsPlainText rawResponse req))).
  { unfold StoryParsingUtils.parseStoryResponse. rewrite Hparse. cbn [rbind].
    rewrite Hprose. reflexivity. }
  rewrite Hstory.
  destruct (plain_structure (StoryParsingUtils.parseAsPlainText rawResponse req))
    as (_ & elems & He & Hall & Hlen).
  unfold respond. rewrite He.
  destruct (map_indexed_total (StorySanitizer.genre storyRequest) 1 elems 0 Hall) as (ys & Hys).
  rewrite Hys. cbn [rbind fst].
  eexists. exists count. split; [reflexivity|]. split; [reflexivity|]. split; [exact Hrange|].
  cbn [paragraphs]. rewrite (map_indexed_length _ _ _ _ Hys), Hlen.
  apply parseAsPlainText_length. cbn [StoryParsingUtils.paragraphs req]. lia.
Qed.

Lemma X22_prose_reply_witness :
  let r := {| RequestValidator.method := js "POST";
              RequestValidator.header :=
                fun name => if str_eqb name (js "content-type")
                            then Some (js "application/json") else None |} in
  exists story,
    (POST r 0 ∅ (Ok (story_request (VNum (Fin 2)) (VNum (Fin 3)) VUndefined)) (Ok true)
       (Ok (js "Once upon a time.")) (js "id-1")).1 = Generated story
    /\ length (paragraphs story) = 3.
Proof.
  intros r.
  destruct (X22_prose_reply_gives_the_requested_count r 0 ∅
              (story_request (VNum (Fin 2)) (VNum (Fin 3)) VUndefined)
              {| StorySanitizer.genre := js "fantasy"; StorySanitizer.characters := Some 2%Z;
                 StorySanitizer.characterNames := None; StorySanitizer.paragraphs := Some 3%Z |}
              (js "Once upon a time.") JNull (js "id-1"))
    as (story & count & Hpost & Hcount & _ & Hlen);
    try (vm_compute; reflexivity).
  exists story. split; [exact Hpost|].
  cbn [StorySanitizer.paragraphs] in Hcount. inversion Hcount; subst count. exact Hlen.
Defined.

End Generation.

(** ** [CommonUtils] *)

Section Common.
Import CommonUtils.

Lemma trim_length s : length (trim s) <= length s.
Proof. apply sublist_length. apply trim_sublist. Qed.

(** X23. [truncateText] with a limit that is not negative returns at
    most three code units more than the limit: a text within the limit
    comes back whole, a longer one is cut at the limit, trimmed, and
    followed by three dots. *)
Theorem X23_truncateText_length (text : jstring) (maxLength : Q)
  (Hlimit : (0 <= maxLength)%Q) :
  length (truncateText text (Fin maxLength)) <= Z.to_nat (Qfloor maxLength) + 3
  /\ (length text <= Z.to_nat (Qfloor maxLength) -> truncateText text (Fin maxLength) = text).
Proof.
  assert (H0 : (0 <= Qfloor maxLength)%Z).
  { change 0%Z with (Qfloor 0). apply Qfloor_resp_le. exact Hlimit. }
  unfold truncateText, fits.
  destruct (Qle_bool (inject_Z (Z.of_nat (length text))) maxLength) eqn:E.
  - split; [|reflexivity].
    apply Qle_bool_iff in E. apply Qfloor_resp_le in E. rewrite Qfloor_Z in E. lia.
  - split.
    + rewrite length_app. change (length (js "...")) with 3.
      pose proof (trim_length (substring0 (end_position text (Fin maxLength)) text)) as Ht.
      unfold substring0 in *. rewrite length_firstn in Ht. cbn [end_position] in *. lia.
    + intros Hshort. exfalso.
      assert (Hle : Qle_bool (inject_Z (Z.of_nat (length text))) maxLength = true).
      { apply Qle_bool_iff. apply Qle_trans with (inject_Z (Qfloor maxLength)).
        - rewrite <- Zle_Qle. lia.
        - apply Qfloor_le. }
      congruence.
Qed.

Lemma X23_truncateText_witness :
  length (truncateText (js "abcd efgh") (Fin 5)) <= 8
  /\ truncateText (js "abcd efgh") (Fin 5) = js "abcd...".
Proof.
  split.
  - exact (proj1 (X23_truncateText_length (js "abcd efgh") 5 ltac:(discriminate))).
  - vm_compute. reflexivity.
Defined.

Lemma attempts_succeed {T} (operation : nat -> result T) (maxRetries baseDelay : Z) (value : T) :
  forall failures attempt remaining lastError,
    (forall i, attempt <= i < attempt + failures -> exists e, operation i = Throw e) ->
    operation (attempt + failures) = Ok value ->
    (Z.of_nat (attempt + failures) < maxRetries)%Z ->
    failures < remaining ->
    attempts operation maxRetries baseDelay remaining attempt lastError
    = (Returned value,
       List.map (fun i => baseDelay * 2 ^ Z.of_nat i)%Z (seq attempt failures)).
Proof.
  induction failures as [|failures IH]; intros attempt remaining lastError Hfail Hok Hmax Hrem;
    (destruct remaining as [|remaining]; [lia|]); cbn [attempts seq List.map].
  - rewrite Nat.add_0_r in Hok. rewrite Hok. reflexivity.
  - destruct (Hfail attempt ltac:(lia)) as (e & He). rewrite He.
    assert (E : (Z.of_nat attempt =? maxRetries - 1)%Z = false) by (apply Z.eqb_neq; lia).
    rewrite E.
    rewrite (IH (S attempt) remaining (Some e)); [reflexivity| | | |].
    + intros i Hi. apply Hfail. lia.
    + replace (S attempt + failures) with (attempt + S failures) by lia. exact Hok.
    + replace (S attempt + failures) with (attempt + S failures) by lia. exact Hmax.
    + lia.
Qed.

Lemma attempts_give_up {T} (operation : nat -> result T) (maxRetries baseDelay : Z) (error : exn) :
  forall failures attempt remaining lastError,
    (forall i, attempt <= i < attempt + failures -> exists e, operation i = Throw e) ->
    operation (attempt + failures) = Throw error ->
    (Z.of_nat (attempt + failures) = maxRetries - 1)%Z ->
    failures < remaining ->
    attempts operation maxRetries baseDelay remaining attempt lastError
    = (Thrown error,
       List.map (fun i => baseDelay * 2 ^ Z.of_nat i)%Z (seq attempt failures)).
Proof.
  induction failures as [|failures IH]; intros attempt remaining lastError Hfail Hlast Hmax Hrem;
    (destruct remaining as [|remaining]; [lia|]); cbn [attempts seq List.map].
  - rewrite Nat.add_0_r in Hlast, Hmax. rewrite Hlast.
    assert (E : (Z.of_nat attempt =? maxRetries - 1)%Z = true) by (apply Z.eqb_eq; lia).
    rewrite E. reflexivity.
  - destruct (Hfail attempt ltac:(lia)) as (e & He). rewrite He.
    assert (E : (Z.of_nat attempt =? maxRetries - 1)%Z = false) by (apply Z.eqb_neq; lia).
    rewrite E.
    rewrite (IH (S attempt) remaining (Some e)); [reflexivity| | | |].
    + intros i Hi. apply Hfail. lia.
    + replace (S attempt + failures) with (attempt + S failures) by lia. exact Hlast.
    + replace (S attempt + failures) with (attempt + S failures) by lia. exact Hmax.
    + lia.
Qed.

Lemma delays_sum (baseDelay : Z) : forall failures attempt,
  fold_right Z.add 0%Z
    (List.map (fun i => baseDelay * 2 ^ Z.of_nat i)%Z (seq attempt failures))
  = (baseDelay * 2 ^ Z.of_nat attempt * (2 ^ Z.of_nat failures - 1))%Z.
Proof.
  induction failures as [|failures IH]; intros attempt; cbn [seq List.map fold_right].
  - change (2 ^ Z.of_nat 0)%Z with 1%Z. lia.
  - rewrite IH. rewrite !Nat2Z.inj_succ, !Z.pow_succ_r by lia. lia.
Qed.

(** X24. When the operation fails [failures] times and then returns,
    within the allowed number of attempts, [retryWithBackoff] returns
    that value after exactly [failures] waits, of [baseDelay],
    [2 * baseDelay], [4 * baseDelay], ... milliseconds:
    [baseDelay * (2 ^ failures - 1)] in all. *)
Theorem X24_retry_returns_the_first_success {T}
  (operation : nat -> result T) (maxRetries baseDelay : Z) (failures : nat) (value : T)
  (Hfail : forall i, i < failures -> exists e, operation i = Throw e)
  (Hok : operation failures = Ok value)
  (Hmax : (Z.of_nat failures < maxRetries)%Z) :
  retryWithBackoff operation maxRetries baseDelay
  = (Returned value, List.map (fun i => baseDelay * 2 ^ Z.of_nat i)%Z (seq 0 failures))
  /\ fold_right Z.add 0%Z (retryWithBackoff operation maxRetries baseDelay).2
     = (baseDelay * (2 ^ Z.of_nat failures - 1))%Z.
Proof.
  assert (E : retryWithBackoff operation maxRetries baseDelay
              = (Returned value,
                 List.map (fun i => baseDelay * 2 ^ Z.of_nat i)%Z (seq 0 failures))).
  { unfold retryWithBackoff. apply attempts_succeed.
    - intros i Hi. apply Hfail. lia.
    - exact Hok.
    - exact Hmax.
    - lia. }
  split; [exact E|]. rewrite E. cbn [snd]. rewrite delays_sum.
  change (2 ^ Z.of_nat 0)%Z with 1%Z. lia.
Qed.

Lemma X24_retry_witness :
  retryWithBackoff (fun i => if i <? 2 then Throw TypeError else Ok i) 3 1000
  = (Returned 2, [1000; 2000]%Z).
Proof.
  refine (proj1 (X24_retry_returns_the_first_success
                   (fun i => if i <? 2 then Throw TypeError else Ok i) 3 1000 2 2 _ _ _)).
  - intros i Hi. exists TypeError. destruct i as [|[|i]]; [reflexivity | reflexivity | lia].
  - reflexivity.
  - lia.
Defined.

(** X25. When every allowed attempt fails, [retryWithBackoff] throws the
    error of the last attempt, and it has waited after every failure
    but the last; and with no attempt allowed it calls nothing, waits
    for nothing and throws [undefined]. *)
Theorem X25_retry_gives_up_with_the_last_error {T}
  (operation : nat -> result T) (maxRetries baseDelay : Z) (error : exn)
  (Hmax : (1 <= maxRetries)%Z)
  (Hfail : forall i, (Z.of_nat i < maxRetries)%Z -> exists e, operation i = Throw e)
  (Hlast : operation (Z.to_nat (maxRetries - 1)) = Throw error) :
  retryWithBackoff operation maxRetries baseDelay
  = (Thrown error,
     List.map (fun i => baseDelay * 2 ^ Z.of_nat i)%Z (seq 0 (Z.to_nat (maxRetries - 1))))
  /\ forall never : Z, (never <= 0)%Z ->
       retryWithBackoff operation never baseDelay = (ThrownUndefined, []).
Proof.
  split.
  - unfold retryWithBackoff. apply attempts_give_up.
    + intros i Hi. apply Hfail. lia.
    + exact Hlast.
    + lia.
    + lia.
  - intros never Hnever. unfold retryWithBackoff.
    replace (Z.to_nat never) with 0 by lia. reflexivity.
Qed.

Lemma X25_retry_witness :
  retryWithBackoff (fun _ : nat => @Throw nat (Error (js "down"))) 3 1000
  = (Thrown (Error (js "down")), [1000; 2000]%Z).
Proof.
  refine (proj1 (X25_retry_gives_up_with_the_last_error
                   (fun _ : nat => @Throw nat (Error (js "down"))) 3 1000 (Error (js "down")) _ _ _)).
  - lia.
  - intros i _. exists (Error (js "down")). reflexivity.
  - reflexivity.
Defined.

End Common.

(** ** The settings of a text provider *)

Section ProviderSettings.
Import LLMFactory.

Lemma number_or_truthy value fallback :
  Number.truthy fallback = true -> Number.truthy (number_or value fallback) = true.
Proof.
  intros Hf. unfold number_or. destruct value as [x|]; [|exact Hf].
  destruct (Number.truthy x) eqn:E; [exact E | exact Hf].
Qed.

(** X26. A text provider that the factory builds never holds a
    temperature or a token limit that is zero or NaN: the constructors
    take the configured value [|| default], so a configured number that
    is falsy, which are 0, -0 and NaN (what [parseFloat] and [parseInt]
    return for a text that is no number), is replaced by the default, the
    doubles 0.7 and 2000, as a missing one is, and every other configured
    number is kept. *)
Theorem X26_provider_settings_are_never_falsy
  (env : environment) (provider : jstring) (c : config) (p : LLMProvider)
  (H : createLLMProvider env provider c = Ok p) :
  (Number.is_zero (provider_temperature p) = false /\ provider_temperature p <> S754_nan)
  /\ (Number.is_zero (provider_maxTokens p) = false /\ provider_maxTokens p <> S754_nan)
  /\ provider_temperature p
     = match temperature c with
       | Some (S754_zero _) | Some S754_nan | None => S754_finite false 6305039478318694 (-53)
       | Some t => t
       end
  /\ provider_maxTokens p
     = match maxTokens c with
       | Some (S754_zero _) | Some S754_nan | None => S754_finite false 8796093022208000 (-42)
       | Some n => n
       end.
Proof.
  assert (Hp : provider_temperature p = temperature_or_default c
               /\ provider_maxTokens p = maxTokens_or_default c).
  { unfold createLLMProvider in H.
    destruct (str_eqb provider (js "ollama")); [inversion H; split; reflexivity|].
    destruct (str_eqb provider (js "deepinfra")); [inversion H; split; reflexivity|].
    destruct (str_eqb provider (js "gemini")); [|discriminate].
    unfold new_GeminiProvider in H.
    destruct (or_else (env (js "GEMINI_API_KEY")) (or_else (env (js "GOOGLE_API_KEY")) []));
      [discriminate|].
    inversion H; split; reflexivity. }
  destruct Hp as [Ht Hm]. rewrite Ht, Hm.
  assert (Hfalsy : forall x, Number.truthy x = true -> Number.is_zero x = false /\ x <> S754_nan).
  { intros x Hx. destruct x; try discriminate Hx; split; try reflexivity; discriminate. }
  split; [apply Hfalsy, number_or_truthy; reflexivity|].
  split; [apply Hfalsy, number_or_truthy; reflexivity|].
  unfold temperature_or_default, maxTokens_or_default, number_or.
  change STORY_CONSTANTS.DEFAULT_TEMPERATURE with (S754_finite false 6305039478318694 (-53)).
  change STORY_CONSTANTS.DEFAULT_MAX_TOKENS with (S754_finite false 8796093022208000 (-42)).
  split.
  - destruct (temperature c) as [[| | |]|]; reflexivity.
  - destruct (maxTokens c) as [[| | |]|]; reflexivity.
Qed.

Lemma X26_provider_settings_witness :
  exists p,
    createLLMProvider (fun _ => None) (js "ollama")
      {| model := None; temperature := Some S754_nan; maxTokens := Some (S754_zero false) |}
    = Ok p
    /\ provider_temperature p = Number.of_lexeme (js "0.7")
    /\ provider_maxTokens p = Number.of_Z 2000.
Proof.
  destruct (createLLMProvider (fun _ => None) (js "ollama")
              {| model := None; temperature := Some S754_nan;
                 maxTokens := Some (S754_zero false) |})
    as [p|e] eqn:E; [|discriminate E].
  exists p. split; [reflexivity|].
  destruct (X26_provider_settings_are_never_falsy _ _ _ _ E) as (_ & _ & Ht & Hm).
  split; [exact Ht | exact Hm].
Defined.

End ProviderSettings.

(** ** The third strategy of [parseWithFallback] *)

Section Cleanup.
Import Regex JSONUtils.

(** What a pattern matches is a prefix of the text, made of code units
    that its classes accept. *)
Lemma rmatch_prefix : forall r s rest,
  rmatch r s = Some rest ->
  exists m, s = m ++ rest /\ Forall (fun c => existsb (accepts c) r = true) m.
Proof.
  induction r as [|i r IH]; intros s rest H.
  - cbn [rmatch] in H. inversion H; subst. exists []. split; [reflexivity | apply List.Forall_nil].
  - assert (Hweak : forall m, Forall (fun c => existsb (accepts c) r = true) m ->
                              Forall (fun c => existsb (accepts c) (i :: r) = true) m).
    { intros m Hm. eapply List.Forall_impl; [|exact Hm]. intros c Hc. cbn [existsb].
      rewrite Hc. apply orb_true_r. }
    destruct i as [cls|cls|].
    + destruct s as [|c s]; cbn [rmatch] in H; [discriminate|].
      destruct (cls c) eqn:Hc; [|discriminate].
      destruct (IH _ _ H) as (m & -> & Hm). exists (c :: m). split; [reflexivity|].
      apply List.Forall_cons; [cbn [existsb accepts]; rewrite Hc; reflexivity | apply Hweak; exact Hm].
    + revert rest H. induction s as [|c s IHs]; intros rest H.
      * change (rmatch (Star cls :: r) []) with (rmatch r []) in H.
        destruct (IH _ _ H) as (m & Hs & Hm). exists m. split; [exact Hs | apply Hweak; exact Hm].
      * rewrite rmatch_star_cons in H. destruct (cls c) eqn:Hc.
        -- destruct (rmatch (Star cls :: r) s) as [rest0|] eqn:Hstar.
           ++ inversion H; subst rest0. destruct (IHs _ eq_refl) as (m & -> & Hm).
              exists (c :: m). split; [reflexivity|].
              apply List.Forall_cons; [cbn [existsb accepts]; rewrite Hc; reflexivity | exact Hm].
           ++ destruct (IH _ _ H) as (m & Hs & Hm). exists m.
              split; [exact Hs | apply Hweak; exact Hm].
        -- destruct (IH _ _ H) as (m & Hs & Hm). exists m.
           split; [exact Hs | apply Hweak; exact Hm].
    + destruct s as [|c s]; cbn [rmatch] in H; [|discriminate].
      destruct (IH _ _ H) as (m & Hs & Hm). exists m. split; [exact Hs | apply Hweak; exact Hm].
Qed.

Lemma search_parts r : forall s before m after,
  search r s = Some (before, m, after) ->
  s = before ++ m ++ after
  /\ Forall (fun c => existsb (accepts c) r = true) m
  /\ rmatch r (m ++ after) = Some after.
Proof.
  induction s as [|c s IH]; intros before m after H.
  - cbn [search] in H. destruct (rmatch r []) as [rest|] eqn:Hm; [|discriminate].
    inversion H; subst. destruct (rmatch_prefix _ _ _ Hm) as (x & Hx & _).
    symmetry in Hx. apply app_eq_nil in Hx. destruct Hx as [-> ->].
    split; [reflexivity|]. split; [apply List.Forall_nil | exact Hm].
  - cbn [search] in H. destruct (rmatch r (c :: s)) as [rest|] eqn:Hm.
    + destruct (rmatch_prefix _ _ _ Hm) as (x & Hx & Hall).
      rewrite Hx in H, Hm. rewrite firstn_span in H. inversion H; subst before after m.
      rewrite Hx. split; [reflexivity|]. split; [exact Hall | exact Hm].
    + destruct (search r s) as [[[b0 m0] a0]|] eqn:Hs; [|discriminate].
      inversion H; subst. destruct (IH _ _ _ eq_refl) as (-> & Hall & Hr).
      split; [reflexivity|]. split; [exact Hall | exact Hr].
Qed.

Lemma split_first_open (t : jstring) :
  ~ In 123%N t \/ exists pre rest, t = pre ++ 123%N :: rest /\ ~ In 123%N pre.
Proof.
  induction t as [|c t IH]; [left; intros []|].
  destruct (N.eq_dec c 123%N) as [->|Hc].
  - right. exists [], t. split; [reflexivity | intros []].
  - destruct IH as [Hno|(pre & rest & -> & Hpre)].
    + left. intros [H|H]; [congruence | exact (Hno H)].
    + right. exists (c :: pre), rest. split; [reflexivity|].
      intros [H|H]; [congruence | exact (Hpre H)].
Qed.

Lemma split_last_close (t : jstring) :
  ~ In 125%N t \/ exists inner post, t = inner ++ 125%N :: post /\ ~ In 125%N post.
Proof.
  induction t as [|c t IH]; [left; intros []|].
  destruct IH as [Hno|(inner & post & -> & Hpost)].
  - destruct (N.eq_dec c 125%N) as [->|Hc].
    + right. exists [], t. split; [reflexivity | exact Hno].
    + left. intros [H|H]; [congruence | exact (Hno H)].
  - right. exists (c :: inner), post. split; [reflexivity | exact Hpost].
Qed.

Lemma before_brace_none t : ~ In 123%N t -> rmatch [Star (not_chr "{")] t = Some [].
Proof.
  induction t as [|c t IH]; intros H; [reflexivity|].
  rewrite rmatch_star_cons, IH by (intros Hin; apply H; right; exact Hin).
  unfold not_chr. change (cu "{") with 123%N.
  destruct (c =? 123)%N eqn:E; [|reflexivity].
  apply N.eqb_eq in E. exfalso. apply H. left. exact E.
Qed.

Lemma before_brace_some pre rest :
  ~ In 123%N pre -> rmatch [Star (not_chr "{")] (pre ++ 123%N :: rest) = Some (123%N :: rest).
Proof.
  induction pre as [|c pre IH]; intros H.
  - reflexivity.
  - cbn [app]. rewrite rmatch_star_cons, IH by (intros Hin; apply H; right; exact Hin).
    unfold not_chr. change (cu "{") with 123%N.
    destruct (c =? 123)%N eqn:E; [|reflexivity].
    apply N.eqb_eq in E. exfalso. apply H. left. exact E.
Qed.

Lemma replace_before_none t : ~ In 123%N t -> replace re_before_brace [] t = [].
Proof.
  intros H. unfold replace, exec, re_before_brace. cbn [anchored items].
  rewrite before_brace_none by exact H. reflexivity.
Qed.

Lemma replace_before_some pre rest :
  ~ In 123%N pre -> replace re_before_brace [] (pre ++ 123%N :: rest) = 123%N :: rest.
Proof.
  intros H. unfold replace, exec, re_before_brace. cbn [anchored items].
  rewrite before_brace_some by exact H. reflexivity.
Qed.

Lemma after_brace_none t : ~ In 125%N t -> rmatch [Star (not_chr "}"); Eos] t = Some [].
Proof.
  induction t as [|c t IH]; intros H; [reflexivity|].
  rewrite rmatch_star_cons, IH by (intros Hin; apply H; right; exact Hin).
  unfold not_chr. change (cu "}") with 125%N.
  destruct (c =? 125)%N eqn:E; [|reflexivity].
  apply N.eqb_eq in E. exfalso. apply H. left. exact E.
Qed.

Lemma after_brace_some inner post :
  rmatch [Star (not_chr "}"); Eos] (inner ++ 125%N :: post) = None.
Proof.
  induction inner as [|c inner IH].
  - reflexivity.
  - cbn [app]. rewrite rmatch_star_cons, IH.
    destruct (not_chr "}" c); reflexivity.
Qed.

Lemma search_after_none t :
  ~ In 125%N t -> search [Star (not_chr "}"); Eos] t = Some ([], t, []).
Proof.
  intros H. destruct t as [|c t]; cbn [search]; rewrite after_brace_none by exact H.
  - reflexivity.
  - rewrite Nat.sub_0_r, firstn_all. reflexivity.
Qed.

Lemma search_after_some post : forall inner,
  ~ In 125%N post ->
  search [Star (not_chr "}"); Eos] (inner ++ 125%N :: post) = Some (inner ++ [125%N], post, []).
Proof.
  intros inner H. induction inner as [|c inner IH].
  - pose proof (after_brace_some [] post) as E. cbn [app] in E.
    cbn [app search]. rewrite E, search_after_none by exact H. reflexivity.
  - pose proof (after_brace_some (c :: inner) post) as E. cbn [app] in E.
    cbn [app search]. rewrite E, IH. reflexivity.
Qed.

Lemma replace_after_none t : ~ In 125%N t -> replace re_after_brace [] t = [].
Proof.
  intros H. unfold replace, exec, re_after_brace. cbn [anchored items].
  rewrite search_after_none by exact H. reflexivity.
Qed.

Lemma replace_after_some inner post :
  ~ In 125%N post -> replace re_after_brace [] (inner ++ 125%N :: post) = inner ++ [125%N].
Proof.
  intros H. unfold replace, exec, re_after_brace. cbn [anchored items].
  rewrite search_after_some by exact H. cbn [app]. apply app_nil_r.
Qed.

Lemma no_brace_not_in (l : jstring) :
  Forall no_brace l -> ~ In 123%N l /\ ~ In 125%N l.
Proof.
  intros H. split; intros Hin; apply (proj1 (List.Forall_forall _ _) H) in Hin;
    destruct Hin as [H1 H2]; congruence.
Qed.

Lemma not_in_app (c : N) (a b : jstring) : ~ In c a -> ~ In c b -> ~ In c (a ++ b).
Proof. intros Ha Hb Hin. apply in_app_or in Hin. tauto. Qed.

(** Between texts without braces, the two last replacements leave
    nothing or the span that the second strategy has tried. *)
Lemma span_again (A B t : jstring) :
  Forall no_brace A -> Forall no_brace B ->
  replace re_after_brace [] (replace re_before_brace [] t) = []
  \/ match_ re_braces (A ++ t ++ B)
     = Some (replace re_after_brace [] (replace re_before_brace [] t)).
Proof.
  intros HA HB.
  destruct (no_brace_not_in _ HA) as [HA1 _]. destruct (no_brace_not_in _ HB) as [_ HB2].
  destruct (split_first_open t) as [Hno|(pre & rest & -> & Hpre)].
  - left. rewrite replace_before_none by exact Hno. reflexivity.
  - rewrite replace_before_some by exact Hpre.
    destruct (split_last_close rest) as [Hno|(inner & post & -> & Hpost)].
    + left. apply replace_after_none. intros [H|H]; [discriminate | exact (Hno H)].
    + right.
      pose proof (replace_after_some (123%N :: inner) post Hpost) as E. cbn [app] in E.
      rewrite E.
      replace (A ++ (pre ++ 123%N :: inner ++ 125%N :: post) ++ B)
        with ((A ++ pre) ++ 123%N :: inner ++ 125%N :: (post ++ B))
        by (rewrite <- !app_assoc; cbn [app]; rewrite <- !app_assoc; reflexivity).
      rewrite match_braces; [reflexivity | |].
      * apply not_in_app; assumption.
      * apply not_in_app; assumption.
Qed.

Lemma trim_start_parts s :
  exists a, s = a ++ trim_start s /\ Forall (fun c => is_space c = true) a.
Proof.
  induction s as [|c s IH]; [exists []; split; [reflexivity | apply List.Forall_nil]|].
  cbn [trim_start]. destruct (is_space c) eqn:Hc.
  - destruct IH as (a & Hs & Ha). exists (c :: a). split; [cbn [app]; f_equal; exact Hs|].
    apply List.Forall_cons; assumption.
  - exists []. split; [reflexivity | apply List.Forall_nil].
Qed.

Lemma trim_parts s :
  exists a b, s = a ++ trim s ++ b
              /\ Forall (fun c => is_space c = true) a
              /\ Forall (fun c => is_space c = true) b.
Proof.
  destruct (trim_start_parts s) as (a & Hs & Ha).
  destruct (trim_start_parts (rev (trim_start s))) as (b & Hb & Hbs).
  exists a, (rev b). unfold trim, trim_end. split; [|split; [exact Ha | apply List.Forall_rev; exact Hbs]].
  rewrite <- rev_app_distr, <- Hb, rev_involutive. exact Hs.
Qed.

Lemma spaces_no_brace (l : jstring) : Forall (fun c => is_space c = true) l -> Forall no_brace l.
Proof.
  intros H. eapply List.Forall_impl; [|exact H]. intros c Hc.
  split; intros ->; discriminate Hc.
Qed.

Lemma accepted_no_brace r (m : jstring) :
  existsb (accepts 123) r = false -> existsb (accepts 125) r = false ->
  Forall (fun c => existsb (accepts c) r = true) m -> Forall no_brace m.
Proof.
  intros H1 H2 H. eapply List.Forall_impl; [|exact H]. intros c Hc.
  split; intros ->; congruence.
Qed.

Lemma fence_open_parts t :
  exists p, t = p ++ replace re_fence_open [] t /\ Forall no_brace p.
Proof.
  unfold replace, exec. cbn [anchored re_fence_open].
  destruct (rmatch (items re_fence_open) t) as [rest|] eqn:Hm.
  - destruct (rmatch_prefix _ _ _ Hm) as (m & -> & Hall).
    exists m. split; [reflexivity|].
    apply (accepted_no_brace (items re_fence_open)); [reflexivity | reflexivity | exact Hall].
  - exists []. split; [reflexivity | apply List.Forall_nil].
Qed.

Lemma fence_close_rest : forall s rest,
  rmatch (items re_fence_close) s = Some rest -> rest = [].
Proof.
  change (items re_fence_close)
    with [Star is_space; One (chr "`"); One (chr "`"); One (chr "`"); Eos].
  assert (Htail : forall s rest,
            rmatch [One (chr "`"); One (chr "`"); One (chr "`"); Eos] s = Some rest -> rest = []).
  { intros s rest H. destruct s as [|a [|b [|c [|d s]]]]; cbn [rmatch] in H;
      repeat match type of H with
             | (if ?x then _ else _) = _ => destruct x
             end; try discriminate; inversion H; reflexivity. }
  induction s as [|c s IH]; intros rest H.
  - discriminate.
  - rewrite rmatch_star_cons in H. destruct (is_space c).
    + destruct (rmatch _ s) as [rest0|] eqn:Hs.
      * inversion H; subst. apply (IH _ eq_refl).
      * apply (Htail _ _ H).
    + apply (Htail _ _ H).
Qed.

Lemma fence_close_parts t :
  exists q, t = replace re_fence_close [] t ++ q /\ Forall no_brace q.
Proof.
  unfold replace, exec. cbn [anchored re_fence_close].
  change ([Star is_space] ++ lit "```" ++ [Eos]) with (items re_fence_close).
  destruct (search (items re_fence_close) t) as [[[before m] after]|] eqn:Hs.
  - destruct (search_parts _ _ _ _ _ Hs) as (-> & Hall & Hr).
    apply fence_close_rest in Hr. subst after.
    exists m. rewrite !app_nil_r. split; [reflexivity|].
    apply (accepted_no_brace (items re_fence_close)); [reflexivity | reflexivity | exact Hall].
  - exists []. rewrite app_nil_r. split; [reflexivity | apply List.Forall_nil].
Qed.

Lemma cleanup_span jsonString :
  cleanup jsonString = [] \/ match_ re_braces jsonString = Some (cleanup jsonString).
Proof.
  unfold cleanup.
  destruct (trim_parts jsonString) as (a & b & Hs & Ha & Hb).
  destruct (fence_open_parts (trim jsonString)) as (p & Hp & Hpn).
  destruct (fence_close_parts (replace re_fence_open [] (trim jsonString))) as (q & Hq & Hqn).
  set (t := replace re_fence_close [] (replace re_fence_open [] (trim jsonString))) in *.
  assert (Hwhole : jsonString = (a ++ p) ++ t ++ (q ++ b)).
  { rewrite Hs at 1. rewrite Hp at 1. rewrite Hq at 1. rewrite <- !app_assoc. reflexivity. }
  rewrite Hwhole at 1.
  apply span_again.
  - apply Forall_app. split; [apply spaces_no_brace; exact Ha | exact Hpn].
  - apply Forall_app. split; [exact Hqn | apply spaces_no_brace; exact Hb].
Qed.

(** X27. The third strategy of [parseWithFallback] never finds
    anything: the text that the clean-up leaves is either empty, and
    skipped, or the very span from the first opening brace to the last
    closing one that the second strategy has just failed to parse.  So
    the function returns what the trimmed text or that span parses to,
    and the fallback otherwise. *)
Theorem X27_cleanup_strategy_finds_nothing_new (jsonString : jstring) (fallback : option json) :
  (cleanup jsonString = [] \/ match_ re_braces jsonString = Some (cleanup jsonString))
  /\ parseWithFallback jsonString fallback
     = Ok (default (fallback_or_null fallback)
             (first_parsed
                (trim jsonString
                 :: match match_ re_braces jsonString with Some m => [m] | None => [] end))).
Proof.
  split; [apply cleanup_span|].
  rewrite parseWithFallback_first_parsed. do 2 f_equal.
  unfold candidates. cbn [app].
  destruct (cleanup_span jsonString) as [He|Hm].
  - rewrite He. rewrite app_nil_r. reflexivity.
  - rewrite Hm. destruct (cleanup jsonString) as [|c cs]; [reflexivity|].
    cbn [app first_parsed].
    destruct (parse (trim jsonString)); [reflexivity|].
    destruct (parse (c :: cs)); reflexivity.
Qed.

End Cleanup.

(** ** When [parseStoryResponse] throws *)

Section ParseThrows.
Import JSONUtils.

Lemma every_throws : forall elems e,
  every paragraph_ok elems = Throw e -> e = TypeError /\ In JNull elems.
Proof.
  induction elems as [|p elems IH]; intros e H; [discriminate|].
  cbn [every] in H. destruct (paragraph_ok p) as [b|e0] eqn:Hp; cbn [rbind] in H.
  - destruct b; [|discriminate]. destruct (IH _ H) as [-> Hin].
    split; [reflexivity | right; exact Hin].
  - inversion H; subst e0. destruct p; try discriminate Hp.
    inversion Hp. split; [reflexivity | left; reflexivity].
Qed.

Lemma validate_throws data e :
  validateStoryStructure data = Throw e ->
  e = TypeError
  /\ exists elems, get data (js "paragraphs") = Some (JArray elems) /\ In JNull elems.
Proof.
  unfold validateStoryStructure. intros H.
  destruct (negb (truthy data)); [discriminate|].
  assert (Hgo :
    (if negb (is_string (get data (js "preface"))) then Ok false
     else match get data (js "paragraphs") with
          | Some (JArray paragraphs) => every paragraph_ok paragraphs
          | _ => Ok false
          end) = Throw e).
  { destruct data; try discriminate; exact H. }
  clear H. destruct (negb (is_string (get data (js "preface")))); [discriminate|].
  destruct (get data (js "paragraphs")) as [[| | | |elems|]|]; try discriminate.
  destruct (every_throws _ _ Hgo) as [-> Hin].
  split; [reflexivity|]. exists elems. split; [reflexivity | exact Hin].
Qed.

(** X28. [parseStoryResponse] can throw, in one case only: the text
    parses to a value with a string preface and an array of paragraphs
    that holds [null], and what is thrown is the TypeError of reading a
    property of [null].  Every other text yields a story. *)
Theorem X28_parseStoryResponse_throws_on_null_paragraph_only
  (rawResponse : jstring) (req : StoryParsingUtils.request) (e : exn)
  (H : StoryParsingUtils.parseStoryResponse rawResponse req = Throw e) :
  e = TypeError
  /\ exists data elems,
       first_parsed (candidates rawResponse) = Some data
       /\ get data (js "paragraphs") = Some (JArray elems)
       /\ In JNull elems.
Proof.
  unfold StoryParsingUtils.parseStoryResponse in H.
  rewrite parseWithFallback_first_parsed in H. cbn [rbind] in H.
  destruct (first_parsed (candidates rawResponse)) as [data|] eqn:Hfirst.
  - change (default _ (Some data)) with data in H.
    destruct (validateStoryStructure data) as [[|]|e0] eqn:Hv; cbn [rbind] in H;
      try discriminate.
    inversion H; subst e0. destruct (validate_throws _ _ Hv) as (-> & elems & He & Hin).
    split; [reflexivity|]. exists data, elems. repeat split; assumption.
  - change (default (fallback_or_null None) None) with JNull in H.
    cbn in H. discriminate.
Qed.

Lemma X28_parseStoryResponse_witness :
  StoryParsingUtils.parseStoryResponse (jq "{'preface':'p','paragraphs':[null]}")
    {| StoryParsingUtils.genre := js "horror"; StoryParsingUtils.paragraphs := 3 |}
  = Throw TypeError.
Proof.
  destruct (StoryParsingUtils.parseStoryResponse (jq "{'preface':'p','paragraphs':[null]}")
              {| StoryParsingUtils.genre := js "horror"; StoryParsingUtils.paragraphs := 3 |})
    as [v|e] eqn:E; [vm_compute in E; discriminate E|].
  f_equal.
  exact (proj1 (X28_parseStoryResponse_throws_on_null_paragraph_only _ _ _ E)).
Defined.

End ParseThrows.
